(** * Calendar reconciliation scripts: a shallow embedding and its properties

    The repository holds four scripts that push a declared schedule to a
    remote calendar:

    - [update_deep_work_jan_2025.py]   (update in place, else create),
    - [update_deep_work_3week_plan.py] (the same, on consecutive weekdays),
    - [update_marketing_q1.py]         (delete every match, then create),
    - [add_january_events.py]          (expand templates, create everything).

    The scripts are embedded as functions in a small exception-and-state
    monad over a [World] that holds the remote calendar, the log of the
    requests sent to it and the lines printed.  The calendar service, the
    time-zone database, [str.lower] and the fault behaviour of the network
    are collaborators the scripts do not define: they are the fields of the
    class [Env]. *)

From Stdlib Require Import List ZArith String Ascii Bool Arith Lia Sorted Permutation.
Import ListNotations.
Local Open Scope string_scope.
Local Open Scope list_scope.
Local Open Scope Z_scope.

Set Implicit Arguments.

(** ** Dates and times

    A [datetime.date] is held as its proleptic Gregorian ordinal
    ([date.toordinal()]): Python itself defines [date + timedelta] and
    [date.weekday()] through the ordinal.  A naive [datetime.datetime] is
    held as minutes, [ordinal * 1440 + hour * 60 + minute]. *)

Definition MINORDINAL : Z := 1.
Definition MAXORDINAL : Z := 3652059.   (* date(9999, 12, 31).toordinal() *)

Definition is_leap (y : Z) : bool :=
  (y mod 4 =? 0) && (negb (y mod 100 =? 0) || (y mod 400 =? 0)).

Definition days_before_year (y : Z) : Z :=
  let p := y - 1 in p * 365 + p / 4 - p / 100 + p / 400.

Definition days_before_month (y m : Z) : Z :=
  nth (Z.to_nat m) [0; 0; 31; 59; 90; 120; 151; 181; 212; 243; 273; 304; 334] 0
  + (if (2 <? m) && is_leap y then 1 else 0).

(** [date y m d] is [datetime.date(y, m, d)]. *)
Definition date (y m d : Z) : Z :=
  days_before_year y + days_before_month y m + d.

(** [date.weekday()]: Monday is 0, Sunday is 6. *)
Definition weekday (d : Z) : Z := (d + 6) mod 7.

(** [datetime.datetime(d.year, d.month, d.day, hour, minute)]. *)
Definition datetime (d hour minute : Z) : Z := d * 1440 + hour * 60 + minute.

(** ** Events, requests and the world *)

(** A time in an event body: a naive wall-clock value with its zone name. *)
Record zoned := { dateTime : Z; timeZone : string }.

(** The body the scripts build for [events().insert]. *)
Record event_body := {
  body_summary : string;
  body_description : string;
  body_start : zoned;
  body_end : zoned
}.

(** An event resource as the service returns it (a Python dict).  [ev_start]
    and [ev_end] are instants in minutes of UTC; [ev_other] stands for every
    key the scripts never read or write (attendees, location, ...). *)
Record event := {
  ev_id : nat;
  ev_summary : option string;
  ev_description : option string;
  ev_start : Z;
  ev_end : Z;
  ev_other : list (string * string)
}.

Inductive call :=
| CList (timeMin timeMax : Z) (q : string)
| CInsert (body : event_body)
| CUpdate (eventId : nat) (body : event)
| CDelete (eventId : nat).

(** Lines written by [print], up to their wording. *)
Inductive line :=
| PrintedUpdated (ev : nat)
| PrintedCreated (ev : nat)
| PrintedDeleted (summary : string) (ev : nat)
| PrintedDone.

Record World := {
  cal : list event;      (* the remote calendar, in order of creation *)
  next_id : nat;         (* the next id the service hands out *)
  trace : list call;     (* every request sent, oldest first *)
  out : list line        (* standard output *)
}.

Definition with_cal (w : World) (c : list event) : World :=
  {| cal := c; next_id := next_id w; trace := trace w; out := out w |}.

Definition log_call (w : World) (c : call) : World :=
  {| cal := cal w; next_id := next_id w; trace := trace w ++ [c]; out := out w |}.

Definition log_line (w : World) (l : line) : World :=
  {| cal := cal w; next_id := next_id w; trace := trace w; out := out w ++ [l] |}.

(** What the scripts rely on but do not define. *)
Class Env := {
  (** [str.lower] *)
  lower : string -> string;
  (** the service's free-text filter [q]: best effort, possibly fuzzy *)
  text_search : string -> event -> bool;
  (** the time-zone database: wall-clock minutes in a zone to UTC minutes *)
  to_utc : string -> Z -> Z;
  (** which requests the service answers with an error *)
  fails : call -> bool
}.

(** ** Exceptions and state *)

Inductive exn :=
| HttpError (c : call)
| OverflowError
| IndexError
| KeyError.

Inductive res (A : Type) :=
| Ok (a : A)
| Raise (e : exn).
Arguments Ok {A} a.
Arguments Raise {A} e.

Definition M (A : Type) : Type := World -> res A * World.

Definition ret {A} (a : A) : M A := fun w => (Ok a, w).

Definition bind {A B} (m : M A) (k : A -> M B) : M B :=
  fun w => match m w with
           | (Ok a, w') => k a w'
           | (Raise e, w') => (Raise e, w')
           end.

Definition raise {A} (e : exn) : M A := fun w => (Raise e, w).

Notation "x <- m ;; k" := (bind m (fun x => k))
  (at level 61, m at next level, right associativity).
Notation "m ;;; k" := (bind m (fun _ => k))
  (at level 61, right associativity).

(** [for x in xs: body(x)] *)
Fixpoint for_each {A} (xs : list A) (body : A -> M unit) : M unit :=
  match xs with
  | [] => ret tt
  | x :: rest => body x ;;; for_each rest body
  end.

Definition print (l : line) : M unit := fun w => (Ok tt, log_line w l).

(** [d + datetime.timedelta(days=n)] *)
Definition date_add (d n : Z) : M Z :=
  if (MINORDINAL <=? d + n) && (d + n <=? MAXORDINAL)
  then ret (d + n) else raise OverflowError.

(** ** The calendar service

    Model of the four requests the scripts send (Google Calendar
    [events().list/insert/update/delete], spec section 6).  A listing holds
    the events that intersect the open window, pass the text filter, and is
    ordered by start ([orderBy='startTime']), events of equal start in order
    of creation; it is a single page. *)

Definition summary_of (e : event) : string :=
  match ev_summary e with Some s => s | None => "" end.

Definition in_window (tmin tmax : Z) (e : event) : bool :=
  (tmin <? ev_end e) && (ev_start e <? tmax).

Fixpoint insert_by_start (x : event) (l : list event) : list event :=
  match l with
  | [] => [x]
  | y :: l' => if ev_start x <=? ev_start y then x :: y :: l'
               else y :: insert_by_start x l'
  end.

Definition sort_by_start (l : list event) : list event :=
  fold_right insert_by_start [] l.

Definition has_id (i : nat) (e : event) : bool := Nat.eqb (ev_id e) i.

Definition with_id (i : nat) (e : event) : event :=
  {| ev_id := i; ev_summary := ev_summary e;
     ev_description := ev_description e;
     ev_start := ev_start e; ev_end := ev_end e; ev_other := ev_other e |}.

Section Service.
Context {env : Env}.

Definition listing (tmin tmax : Z) (q : string) (c : list event) : list event :=
  sort_by_start (filter (fun e => in_window tmin tmax e && text_search q e) c).

(** Every request is logged; a failing one raises before it has any effect. *)
Definition request (c : call) : M unit :=
  fun w =>
    if fails c then (Raise (HttpError c), log_call w c)
    else (Ok tt, log_call w c).

Definition events_list (tmin tmax : Z) (q : string) : M (list event) :=
  request (CList tmin tmax q) ;;;
  fun w => (Ok (listing tmin tmax q (cal w)), w).

Definition stored (i : nat) (b : event_body) : event :=
  {| ev_id := i;
     ev_summary := Some (body_summary b);
     ev_description := Some (body_description b);
     ev_start := to_utc (timeZone (body_start b)) (dateTime (body_start b));
     ev_end := to_utc (timeZone (body_end b)) (dateTime (body_end b));
     ev_other := [] |}.

Definition events_insert (b : event_body) : M event :=
  request (CInsert b) ;;;
  fun w =>
    let e := stored (next_id w) b in
    (Ok e, {| cal := cal w ++ [e]; next_id := S (next_id w);
              trace := trace w; out := out w |}).

(** [update] replaces the whole resource; an unknown id is a 404. *)
Definition events_update (i : nat) (b : event) : M event :=
  request (CUpdate i b) ;;;
  fun w =>
    if existsb (has_id i) (cal w)
    then (Ok (with_id i b),
          with_cal w (map (fun e => if has_id i e then with_id i b else e) (cal w)))
    else (Raise (HttpError (CUpdate i b)), w).

Definition events_delete (i : nat) : M unit :=
  request (CDelete i) ;;;
  fun w =>
    if existsb (has_id i) (cal w)
    then (Ok tt, with_cal w (filter (fun e => negb (has_id i e)) (cal w)))
    else (Raise (HttpError (CDelete i)), w).

End Service.

(** ** update_deep_work_jan_2025.py *)

Module DeepWorkJan.
Section Script.
Context {env : Env}.

Record day_info := {
  day_date : Z;
  block1_title : string;
  block1_desc : string;
  block2_title : string;
  block2_desc : string
}.

(** The listing is asked for the window and the summary; the first listed
    event whose summary equals the wanted one, both lower-cased, is
    returned. *)
Definition find_event_by_summary_in_range
    (summary : string) (start_dt end_dt : Z) : M (option event) :=
  (* isoformat() + 'Z': the naive value is sent as a UTC instant *)
  let time_min := start_dt in
  let time_max := end_dt in
  events <- events_list time_min time_max summary ;;
  ret (find (fun evt => String.eqb (lower (summary_of evt)) (lower summary))
            events).

(** [event_data['description'] = new_description] *)
Definition set_description (event_data : event) (new_description : string)
  : event :=
  {| ev_id := ev_id event_data;
     ev_summary := ev_summary event_data;
     ev_description := Some new_description;
     ev_start := ev_start event_data;
     ev_end := ev_end event_data;
     ev_other := ev_other event_data |}.

Definition update_event_description
    (event_data : event) (new_description : string) : M unit :=
  let event_data := set_description event_data new_description in
  updated_event <- events_update (ev_id event_data) event_data ;;
  print (PrintedUpdated (ev_id updated_event)).

Definition create_event
    (summary : string) (start_dt end_dt : Z) (description : string) : M unit :=
  let event_body :=
    {| body_summary := summary;
       body_description := description;
       body_start := {| dateTime := start_dt; timeZone := "Europe/London" |};
       body_end := {| dateTime := end_dt; timeZone := "Europe/London" |} |} in
  created <- events_insert event_body ;;
  print (PrintedCreated (ev_id created)).

(** The four lines that [main] writes out once per block.  An event dict is
    never empty, so [if existing] tells a found event from [None]. *)
Definition handle_block
    (summary : string) (start_dt end_dt : Z) (desc : string) : M unit :=
  existing <- find_event_by_summary_in_range summary start_dt end_dt ;;
  match existing with
  | Some evt => update_event_description evt desc
  | None => create_event summary start_dt end_dt desc
  end.

(** The body of [for day_info in SCHEDULE]. *)
Definition process_day (day_info : day_info) : M unit :=
  let date_ := day_date day_info in
  let block1_start := datetime date_ 8 0 in
  let block1_end := datetime date_ 10 0 in
  let block2_start := datetime date_ 10 30 in
  let block2_end := datetime date_ 12 30 in
  let b1_summary := block1_title day_info in
  let b1_desc := block1_desc day_info in
  let b2_summary := block2_title day_info in
  let b2_desc := block2_desc day_info in
  handle_block b1_summary block1_start block1_end b1_desc ;;;
  handle_block b2_summary block2_start block2_end b2_desc.

Definition main (SCHEDULE : list day_info) : M unit :=
  for_each SCHEDULE process_day ;;;
  print PrintedDone.

End Script.
End DeepWorkJan.

(** ** update_deep_work_3week_plan.py

    [find_event_by_summary_in_range], [update_event_description] and
    [create_event] are the ones of the January script, line for line. *)

Module ThreeWeekPlan.
Section Script.
Context {env : Env}.

Record plan_item := {
  day_label : string;
  block1_desc : string;
  block2_desc : string
}.

Definition nl : string := String (ascii_of_nat 10) EmptyString.

(** Both blocks of one business day. *)
Definition schedule_day (plan_item : plan_item) (current_date : Z) : M unit :=
  let block1_start := datetime current_date 8 0 in
  let block1_end := datetime current_date 10 0 in
  let block2_start := datetime current_date 10 30 in
  let block2_end := datetime current_date 12 30 in
  let b1_summary := "Deep Work Block 1" in
  let b2_summary := "Deep Work Block 2" in
  let b1_desc := String.append (day_label plan_item)
                   (String.append " - " (String.append b1_summary
                     (String.append nl (String.append nl (block1_desc plan_item))))) in
  let b2_desc := String.append (day_label plan_item)
                   (String.append " - " (String.append b2_summary
                     (String.append nl (String.append nl (block2_desc plan_item))))) in
  DeepWorkJan.handle_block b1_summary block1_start block1_end b1_desc ;;;
  DeepWorkJan.handle_block b2_summary block2_start block2_end b2_desc.

(** [while day_count < days_needed: ...], one iteration per unit of fuel;
    [None] when the fuel runs out before the loop has ended. *)
Fixpoint while_loop (fuel : nat) (PLAN : list plan_item)
    (day_count : nat) (current_date : Z) (w : World)
  : option (res unit * World) :=
  match fuel with
  | O => None
  | S fuel' =>
    let days_needed := List.length PLAN in
    if (day_count <? days_needed)%nat then
      let step :=
        (if weekday current_date <? 5 then
           match nth_error PLAN day_count with
           | Some plan_item =>
               schedule_day plan_item current_date ;;;
               ret (S day_count)
           | None => raise IndexError
           end
         else ret day_count) in
      match (day_count' <- step ;;
             current_date' <- date_add current_date 1 ;;
             ret (day_count', current_date')) w with
      | (Ok (day_count', current_date'), w') =>
          while_loop fuel' PLAN day_count' current_date' w'
      | (Raise e, w') => Some (Raise e, w')
      end
    else Some (Ok tt, w)
  end.

(** [today] is [datetime.date.today()]. *)
Definition main (fuel : nat) (PLAN : list plan_item) (today : Z) (w : World)
  : option (res unit * World) :=
  match date_add today 1 w with
  | (Ok current_date, w0) =>
      match while_loop fuel PLAN 0%nat current_date w0 with
      | Some (Ok _, w1) => Some (print PrintedDone w1)
      | other => other
      end
  | (Raise e, w0) => Some (Raise e, w0)
  end.

End Script.
End ThreeWeekPlan.

(** ** update_marketing_q1.py *)

Module MarketingQ1.
Section Script.
Context {env : Env}.

Record week_data := {
  start_date : Z;
  focus : string;
  days : list (string * string)     (* the dict "Mon" ... "Fri" -> tasks *)
}.

Definition nl : string := String (ascii_of_nat 10) EmptyString.

(** [dict.get(key, default)] *)
Fixpoint dict_get (d : list (string * string)) (key default : string) : string :=
  match d with
  | [] => default
  | (k, v) :: rest => if String.eqb k key then v else dict_get rest key default
  end.

Definition delete_existing_marketing_events (day_start day_end : Z) : M unit :=
  events <- events_list day_start day_end "Marketing & Outreach" ;;
  for_each events (fun event =>
    let summary := summary_of event in
    if String.eqb (lower summary) "marketing & outreach" then
      let event_id := ev_id event in
      events_delete event_id ;;;
      print (PrintedDeleted summary event_id)
    else ret tt).

Definition create_event
    (summary : string) (start_dt end_dt : Z) (description : string) : M unit :=
  let event_body :=
    {| body_summary := summary;
       body_description := description;
       body_start := {| dateTime := start_dt; timeZone := "Europe/London" |};
       body_end := {| dateTime := end_dt; timeZone := "Europe/London" |} |} in
  created <- events_insert event_body ;;
  print (PrintedCreated (ev_id created)).

Definition describe (focus day_name daily_tasks : string) : string :=
  String.append "**Focus**: " (String.append focus (String.append nl (String.append nl
    (String.append "**" (String.append day_name (String.append " Tasks**:"
      (String.append nl daily_tasks))))))).

(** The body of [for i, day_name in enumerate(["Mon", ..., "Fri"])]. *)
Definition process_weekday (week_data : week_data) (i : Z) (day_name : string)
  : M unit :=
  let week_start := start_date week_data in
  let focus := focus week_data in
  let tasks_per_day := days week_data in
  current_date <- date_add week_start i ;;
  let daily_tasks := dict_get tasks_per_day day_name "No tasks specified." in
  let description := describe focus day_name daily_tasks in
  let start_dt := datetime current_date 16 0 in
  let end_dt := datetime current_date 18 0 in
  delete_existing_marketing_events start_dt end_dt ;;;
  create_event "Marketing & Outreach" start_dt end_dt description.

Definition weekday_names : list (Z * string) :=
  [(0, "Mon"); (1, "Tue"); (2, "Wed"); (3, "Thu"); (4, "Fri")].

(** The body of [for week_data in WEEKS]. *)
Definition process_week (week_data : week_data) : M unit :=
  for_each weekday_names
    (fun '(i, day_name) => process_weekday week_data i day_name).

Definition main (WEEKS : list week_data) : M unit :=
  for_each WEEKS process_week ;;;
  print PrintedDone.

End Script.
End MarketingQ1.

(** ** add_january_events.py *)

Module JanuaryEvents.
Section Script.
Context {env : Env}.

(** An event dict of the template table. *)
Record event_data := {
  ed_summary : string;
  ed_start : Z;
  ed_end : Z;
  ed_description : string
}.

Definition mk_event (summary : string) (start end_ : Z) (description : string)
  : event_data :=
  {| ed_summary := summary; ed_start := start; ed_end := end_;
     ed_description := description |}.

(** The dict [WEEKDAY_FOCUS]; [None] where the key is absent. *)
Definition WEEKDAY_FOCUS (weekday : Z) : option string :=
  if weekday =? 0 then Some "Focus: Week Agenda & Planning (Monday)"
  else if weekday =? 1 then Some "Focus: Product/Service Development (Tuesday)"
  else if weekday =? 2 then Some "Focus: Networking & Marketing (Wednesday)"
  else if weekday =? 3 then Some "Focus: Admin & Finances (Thursday)"
  else if weekday =? 4 then Some "Focus: Weekly Review & Wrap-Up (Friday)"
  else if weekday =? 5 then Some "Focus: Big-Picture Thinking (Saturday)"
  else if weekday =? 6 then Some "Focus: Rest & Reflection (Sunday)"
  else None.

(** [dt(year, month, day, hour, minute)], the date held as its ordinal. *)
Definition dt (day hour minute : Z) : Z := datetime day hour minute.

(** [weekday_schedule(year, month, day, weekday)]: [day] stands for the
    three date arguments. *)
Definition weekday_schedule (day weekday : Z) : list event_data :=
  if (0 <=? weekday) && (weekday <=? 4) then
    [
    mk_event "Morning Routine" (dt day 6 0) (dt day 7 0)
      "Wake up, light exercise, shower, breakfast.";
    mk_event "Planning & Admin" (dt day 7 0) (dt day 8 0)
      "Check emails, review calendar, daily priorities.";
    mk_event "Deep Work Block 1" (dt day 8 0) (dt day 10 0)
      "High-focus tasks (strategy, development).";
    mk_event "Break" (dt day 10 0) (dt day 10 30)
      "Hydration, quick walk, snack.";
    mk_event "Deep Work Block 2" (dt day 10 30) (dt day 12 30)
      "Follow-ups, calls, business strategy.";
    mk_event "Lunch Break" (dt day 12 30) (dt day 13 30)
      "Lunch and short rest.";
    mk_event "Operational Work" (dt day 13 30) (dt day 15 30)
      "Admin tasks, scheduling, finances.";
    mk_event "Break" (dt day 15 30) (dt day 16 0)
      "Hydration, check messages.";
    mk_event "Marketing & Outreach" (dt day 16 0) (dt day 18 0)
      "Networking, contacting leads/partners, social media.";
    mk_event "Wrap-Up & Personal Time" (dt day 18 0) (dt day 19 0)
      "Review day, finalize tasks, short break.";
    mk_event "Family/Personal" (dt day 19 0) (dt day 20 0)
      "Dinner, relax, personal hobbies.";
    mk_event "Optional Work/Study" (dt day 20 0) (dt day 21 0)
      "Light tasks, reading, or wind down.";
    mk_event "Wind Down" (dt day 21 0) (dt day 22 0)
      "Relaxation, reflection, prep for sleep."
    ]
  else if weekday =? 5 then
    [
    mk_event "Late Morning Start" (dt day 8 0) (dt day 9 0)
      "Slightly slower morning routine on Saturday.";
    mk_event "Big-Picture Planning" (dt day 9 0) (dt day 11 0)
      "Industry reading, brainstorming, strategy.";
    mk_event "Family/Personal Time" (dt day 11 0) (dt day 14 0)
      "Lunch, hobbies, relaxation.";
    mk_event "Creative Brainstorm Session" (dt day 14 0) (dt day 16 0)
      "Think about new product ideas or improvement.";
    mk_event "Short Work Session (Optional)" (dt day 16 0) (dt day 18 0)
      "Tie up loose ends if needed.";
    mk_event "Evening Relaxation" (dt day 18 0) (dt day 20 0)
      "Dinner, time with family/friends.";
    mk_event "Light Review" (dt day 20 0) (dt day 21 0)
      "Optional reflection on the week."
    ]
  else
    [
    mk_event "Rest & Leisure" (dt day 9 0) (dt day 12 0)
      "Sleep in, family time, minimal to-do.";
    mk_event "Personal / Family Time" (dt day 12 0) (dt day 18 0)
      "Relax, hobbies, no major work.";
    mk_event "Light Weekly Planning" (dt day 18 0) (dt day 19 0)
      "Short session to prep for Monday."
    ].

Definition add_event_to_google_calendar (event_data : event_data) : M unit :=
  let event_body :=
    {| body_summary := ed_summary event_data;
       body_description := ed_description event_data;
       body_start := {| dateTime := ed_start event_data;
                        timeZone := "Europe/London" |};
       body_end := {| dateTime := ed_end event_data;
                      timeZone := "Europe/London" |} |} in
  created_event <- events_insert event_body ;;
  print (PrintedCreated (ev_id created_event)).

(** Step A of [main]: [while start_date <= end_date: ...], one iteration
    per unit of fuel. *)
Fixpoint build_all_events (fuel : nat) (start_date end_date : Z)
    (all_events : list event_data) (w : World)
  : option (res (list event_data) * World) :=
  match fuel with
  | O => None
  | S fuel' =>
    if start_date <=? end_date then
      let daily_weekday := weekday start_date in
      let day_events := weekday_schedule start_date daily_weekday in
      match WEEKDAY_FOCUS daily_weekday with
      | None => Some (Raise KeyError, w)
      | Some theme =>
        let focus_event :=
          {| ed_summary := theme;
             ed_start := dt start_date 0 0;
             ed_end := dt start_date 0 15;
             ed_description := String.append "Daily Theme: " theme |} in
        (* day_events.insert(0, focus_event); all_events.extend(day_events) *)
        let day_events := focus_event :: day_events in
        let all_events := all_events ++ day_events in
        match date_add start_date 1 w with
        | (Ok start_date', w') =>
            build_all_events fuel' start_date' end_date all_events w'
        | (Raise e, w') => Some (Raise e, w')
        end
      end
    else Some (Ok all_events, w)
  end.

(** [main], for a date range; the script runs it from [date 2025 1 1] to
    [date 2025 1 31]. *)
Definition main (fuel : nat) (start_date end_date : Z) (w : World)
  : option (res unit * World) :=
  match build_all_events fuel start_date end_date [] w with
  | Some (Ok all_events, w1) =>
      Some ((for_each all_events add_event_to_google_calendar ;;;
             print PrintedDone) w1)
  | Some (Raise e, w1) => Some (Raise e, w1)
  | None => None
  end.

End Script.
End JanuaryEvents.

(** ** A concrete environment

    ASCII lower-casing, a case-insensitive substring search of the summary,
    London on UTC (as it is from the last Sunday of October to the last
    Sunday of March) and a fault oracle of the caller's choice. *)

Definition lower_char (c : ascii) : ascii :=
  let n := nat_of_ascii c in
  if ((65 <=? n) && (n <=? 90))%nat then ascii_of_nat (n + 32) else c.

Fixpoint lower_ascii (s : string) : string :=
  match s with
  | EmptyString => EmptyString
  | String c s' => String (lower_char c) (lower_ascii s')
  end.

Fixpoint contains (fuel : nat) (needle hay : string) : bool :=
  String.prefix needle hay ||
  match fuel, hay with
  | S fuel', String _ hay' => contains fuel' needle hay'
  | _, _ => false
  end.

Definition substring_search (q : string) (e : event) : bool :=
  contains (String.length (summary_of e)) (lower_ascii q)
           (lower_ascii (summary_of e)).

Definition never (c : call) : bool := false.

Definition winter (faulty : call -> bool) : Env :=
  {| lower := lower_ascii;
     text_search := substring_search;
     to_utc := fun _ t => t;
     fails := faulty |}.

Definition empty_world : World :=
  {| cal := []; next_id := 0%nat; trace := []; out := [] |}.

(** ** Assumptions on the collaborators and on the calendar *)

(** No request is answered with an error. *)
Definition reliable (env : Env) : Prop := forall c, fails c = false.

(** The text filter keeps at least the events whose summary is the query,
    case apart: it may be fuzzy, it does not lose an exact match. *)
Definition search_complete (env : Env) : Prop :=
  forall q e, lower (summary_of e) = lower q -> text_search q e = true.

(** London is on UTC: wall-clock minutes are UTC minutes. *)
Definition london_on_utc (env : Env) : Prop :=
  forall t, to_utc "Europe/London" t = t.

(** The one summary of the marketing script. *)
Definition title : string := "Marketing & Outreach".

(** [str.lower] maps the title to the literal the script compares with. *)
Definition lowers_title (env : Env) : Prop :=
  lower title = "marketing & outreach".

(** Ids are unique and below the next id to be handed out. *)
Definition well_formed (w : World) : Prop :=
  NoDup (map ev_id (cal w)) /\
  Forall (fun e => (ev_id e < next_id w)%nat) (cal w).

(** ** Matching *)

(** The client-side test of the matcher, and the events of a calendar that
    answer a query for [summary] in a window. *)
Definition exact {env : Env} (summary : string) (e : event) : bool :=
  String.eqb (lower (summary_of e)) (lower summary).

Definition hit {env : Env} (summary : string) (tmin tmax : Z) (e : event) : bool :=
  in_window tmin tmax e && exact summary e.

(** The order of a listing. *)
Definition by_start (a b : event) : Prop := ev_start a <= ev_start b.

(** The event an update-or-create block settles on: the first exact match of
    the listing. *)
Definition target {env : Env} (summary : string) (tmin tmax : Z)
    (c : list event) : option event :=
  find (exact summary) (listing tmin tmax summary c).

(** Overwriting the description of the event that carries id [i]. *)
Definition redescribe (i : nat) (d : string) (e : event) : event :=
  if has_id i e then DeepWorkJan.set_description e d else e.

(** The body [create_event] sends, and the worlds one update-or-create block
    leaves behind when no request fails. *)
Definition london_body (summary : string) (start_dt end_dt : Z)
    (description : string) : event_body :=
  {| body_summary := summary;
     body_description := description;
     body_start := {| dateTime := start_dt; timeZone := "Europe/London" |};
     body_end := {| dateTime := end_dt; timeZone := "Europe/London" |} |}.

Definition updated_world (w : World) (summary : string) (s e : Z)
    (x : event) (d : string) : World :=
  {| cal := map (redescribe (ev_id x) d) (cal w);
     next_id := next_id w;
     trace := trace w ++ [CList s e summary;
                          CUpdate (ev_id x) (DeepWorkJan.set_description x d)];
     out := out w ++ [PrintedUpdated (ev_id x)] |}.

Definition created_world {env : Env} (w : World) (summary : string) (s e : Z)
    (d : string) : World :=
  {| cal := cal w ++ [stored (next_id w) (london_body summary s e d)];
     next_id := S (next_id w);
     trace := trace w ++ [CList s e summary;
                          CInsert (london_body summary s e d)];
     out := out w ++ [PrintedCreated (next_id w)] |}.

(** ** Requests *)

(** The kind of a request. *)
Definition is_insert (c : call) : bool :=
  match c with CInsert _ => true | _ => false end.

Definition is_delete (c : call) : bool :=
  match c with CDelete _ => true | _ => false end.

(** A request that neither creates nor deletes. *)
Definition harmless (c : call) : Prop :=
  is_insert c = false /\ is_delete c = false.

(** A request that changes nothing on calendar [c]: a listing, or an update
    that sends back an event exactly as it is stored. *)
Definition idle_on (c : list event) (r : call) : Prop :=
  match r with
  | CList _ _ _ => True
  | CUpdate i body => In body c /\ ev_id body = i
  | _ => False
  end.

(** A computation only ever adds to the log of requests. *)
Definition grows {A} (m : M A) : Prop :=
  forall w, exists t, trace (snd (m w)) = trace w ++ t.

(** A computation whose first request is [c]. *)
Definition starts_with {A} (c : call) (m : M A) : Prop :=
  forall w, exists t, trace (snd (m w)) = trace w ++ c :: t.

(** The insert request that [add_event_to_google_calendar] sends. *)
Definition insert_of (ev : JanuaryEvents.event_data) : call :=
  CInsert (london_body (JanuaryEvents.ed_summary ev) (JanuaryEvents.ed_start ev)
             (JanuaryEvents.ed_end ev) (JanuaryEvents.ed_description ev)).

(** The world a fuelled run ended in. *)
Definition world_of (o : option (res unit * World)) : World :=
  match o with Some (_, w) => w | None => empty_world end.

(** ** Business days *)

(** [b] is the first Monday-to-Friday date at or after [s]. *)
Definition first_business_day_from (s b : Z) : Prop :=
  s <= b /\ weekday b < 5 /\ forall x, s <= x < b -> 5 <= weekday x.

(** [b] is the first Monday-to-Friday date strictly after [a]. *)
Definition next_business_day (a b : Z) : Prop :=
  a < b /\ weekday b < 5 /\ forall x, a < x < b -> 5 <= weekday x.

(** Consecutive business days, the first one at or after [s]. *)
Inductive business_chain : Z -> list Z -> Prop :=
| chain_nil : forall s, business_chain s []
| chain_cons : forall s b rest,
    first_business_day_from s b ->
    business_chain (b + 1) rest ->
    business_chain s (b :: rest).

(** The plan items paired with the dates they are given. *)
Definition schedule_days {env : Env}
    (PLAN : list ThreeWeekPlan.plan_item) (dates : list Z) : M unit :=
  for_each (combine PLAN dates)
    (fun p => ThreeWeekPlan.schedule_day (fst p) (snd p)).

(** Iterations (the last test included) that the loop needs for [r] more
    plan items from date [d]: at most two weekend days come before each
    business day. *)
Definition iterations (r : nat) (d : Z) : nat :=
  match r with
  | O => 1
  | S _ => 3 * r + 1 - (if weekday d <? 5 then 2
                        else if weekday d =? 5 then 0 else 1)
  end.

(** ** A run of update-or-create blocks *)

(** One desired event of the deep-work schedule. *)
Record block := {
  b_summary : string;
  b_start : Z;
  b_end : Z;
  b_desc : string
}.

(** The two blocks [process_day] handles, in its order. *)
Definition blocks_of_day (d : DeepWorkJan.day_info) : list block :=
  [ {| b_summary := DeepWorkJan.block1_title d;
       b_start := datetime (DeepWorkJan.day_date d) 8 0;
       b_end := datetime (DeepWorkJan.day_date d) 10 0;
       b_desc := DeepWorkJan.block1_desc d |};
    {| b_summary := DeepWorkJan.block2_title d;
       b_start := datetime (DeepWorkJan.day_date d) 10 30;
       b_end := datetime (DeepWorkJan.day_date d) 12 30;
       b_desc := DeepWorkJan.block2_desc d |} ].

(** The blocks of a schedule, in the order [main] handles them. *)
Definition blocks_of (SCHEDULE : list DeepWorkJan.day_info) : list block :=
  flat_map blocks_of_day SCHEDULE.

(** What [main] does for one block. *)
Definition upsert {env : Env} (b : block) : M unit :=
  DeepWorkJan.handle_block (b_summary b) (b_start b) (b_end b) (b_desc b).

(** The event a block finds on a calendar, if any. *)
Definition target_of {env : Env} (b : block) (c : list event) : option event :=
  target (b_summary b) (b_start b) (b_end b) c.

(** An event that answers a block: in its window, with its summary. *)
Definition hits {env : Env} (b : block) (x : event) : bool :=
  hit (b_summary b) (b_start b) (b_end b) x.

(** The id a block settles on ([0] when it has no target). *)
Definition tid {env : Env} (b : block) (c : list event) : nat :=
  match target_of b c with Some x => ev_id x | None => 0%nat end.

(** The event a block creates when it finds none. *)
Definition fresh_event {env : Env} (b : block) (n : nat) : event :=
  stored n (london_body (b_summary b) (b_start b) (b_end b) (b_desc b)).

(** The world one block leaves with a reliable service. *)
Definition upsert_world {env : Env} (b : block) (w : World) : World :=
  match target_of b (cal w) with
  | Some x => updated_world w (b_summary b) (b_start b) (b_end b) x (b_desc b)
  | None => created_world w (b_summary b) (b_start b) (b_end b) (b_desc b)
  end.

(** The world a run of blocks leaves with a reliable service. *)
Definition run_blocks {env : Env} (bs : list block) (w : World) : World :=
  fold_left (fun w b => upsert_world b w) bs w.

(** Two windows that meet are the same window. *)
Definition compatible (a b : block) : Prop :=
  b_start b < b_end a -> b_start a < b_end b ->
  b_start a = b_start b /\ b_end a = b_end b.

(** Windows are not empty, and any two that meet are the same. *)
Definition grid (bs : list block) : Prop :=
  (forall a, In a bs -> b_start a < b_end a) /\
  (forall a b, In a bs -> In b bs -> compatible a b).

(** Every block has a target. *)
Definition closed {env : Env} (bs : list block) (c : list event) : Prop :=
  forall b, In b bs -> target_of b c <> None.

(** A block is settled on a calendar when its target already carries the
    description the block asks for. *)
Definition settled {env : Env} (b : block) (c : list event) : Prop :=
  exists x, target_of b c = Some x /\ ev_description x = Some (b_desc b).

(** No two blocks of the run share their target. *)
Definition distinct_targets {env : Env} (bs : list block) (c : list event)
  : Prop :=
  NoDup (map (fun b => tid b c) bs).

(** A sequence of description assignments, by id, applied in order. *)
Definition assign (c : list event) (A : list (nat * string)) : list event :=
  fold_left (fun c p => map (redescribe (fst p) (snd p)) c) A c.

(** All the assignments of [A], in order, applied to one event. *)
Definition reassign (A : list (nat * string)) (e : event) : event :=
  fold_left (fun e p => redescribe (fst p) (snd p) e) A e.

(** The assignments a run comes down to on calendar [c]: for each block,
    its description to its target. *)
Definition assignments {env : Env} (bs : list block) (c : list event)
  : list (nat * string) :=
  map (fun b => (tid b c, b_desc b)) bs.

(** The last description assigned to id [i], if any. *)
Fixpoint last_assigned (A : list (nat * string)) (i : nat) : option string :=
  match A with
  | [] => None
  | (j, d) :: rest =>
      match last_assigned rest i with
      | Some d' => Some d'
      | None => if Nat.eqb i j then Some d else None
      end
  end.

(** ** Replacing a slot *)

(** The client-side test of [delete_existing_marketing_events]. *)
Definition marketing_check {env : Env} (e : event) : bool :=
  String.eqb (lower (summary_of e)) "marketing & outreach".

(** The events that one call of it deletes: listed and passing the test. *)
Definition deleted_by {env : Env} (s e : Z) (x : event) : bool :=
  (in_window s e x && text_search title x) && marketing_check x.

(** The two steps [main] takes for one slot. *)
Definition replace_slot {env : Env} (start_dt end_dt : Z) (description : string)
  : M unit :=
  MarketingQ1.delete_existing_marketing_events start_dt end_dt ;;;
  MarketingQ1.create_event title start_dt end_dt description.

(** ** A run of replaced slots *)

(** One desired event of the marketing plan. *)
Record slot := {
  slot_start : Z;
  slot_end : Z;
  slot_desc : string
}.

(** The five slots [process_week] handles, in its order. *)
Definition slots_of_week (wk : MarketingQ1.week_data) : list slot :=
  map (fun p =>
         let current_date := MarketingQ1.start_date wk + fst p in
         {| slot_start := datetime current_date 16 0;
            slot_end := datetime current_date 18 0;
            slot_desc :=
              MarketingQ1.describe (MarketingQ1.focus wk) (snd p)
                (MarketingQ1.dict_get (MarketingQ1.days wk) (snd p)
                   "No tasks specified.") |})
      MarketingQ1.weekday_names.

(** The slots of a plan, in the order [main] handles them. *)
Definition slots_of (WEEKS : list MarketingQ1.week_data) : list slot :=
  flat_map slots_of_week WEEKS.

(** What [main] does for one slot. *)
Definition replace {env : Env} (sl : slot) : M unit :=
  replace_slot (slot_start sl) (slot_end sl) (slot_desc sl).

(** An event that answers a slot: in its window, with the title. *)
Definition slot_hit {env : Env} (sl : slot) (x : event) : bool :=
  hit title (slot_start sl) (slot_end sl) x.

(** An event that answers one of the slots. *)
Definition hit_any {env : Env} (slots : list slot) (x : event) : bool :=
  existsb (fun sl => slot_hit sl x) slots.

(** The event created for a slot, under id [n]. *)
Definition slot_event {env : Env} (sl : slot) (n : nat) : event :=
  stored n (london_body title (slot_start sl) (slot_end sl) (slot_desc sl)).

(** The events a run creates that are still there at its end: each is
    deleted again by any later slot it answers. *)
Fixpoint created {env : Env} (slots : list slot) (n : nat) : list event :=
  match slots with
  | [] => []
  | sl :: rest =>
      filter (fun x => negb (hit_any rest x)) [slot_event sl n]
      ++ created rest (S n)
  end.

(** An event without its id. *)
Definition content (e : event)
  : option string * option string * Z * Z * list (string * string) :=
  (ev_summary e, ev_description e, ev_start e, ev_end e, ev_other e).

(** Every date of the plan is a date: [week_start + timedelta(days=i)] does
    not overflow. *)
Definition weeks_in_range (WEEKS : list MarketingQ1.week_data) : Prop :=
  Forall (fun wk => MINORDINAL <= MarketingQ1.start_date wk /\
                    MarketingQ1.start_date wk + 4 <= MAXORDINAL) WEEKS.

(** Two slots with the same window. *)
Definition same_window (a b : slot) : bool :=
  (slot_start a =? slot_start b) && (slot_end a =? slot_end b).

(** Slots have non-empty windows, and two windows that meet are the same. *)
Definition slot_grid (slots : list slot) : Prop :=
  (forall a, In a slots -> slot_start a < slot_end a) /\
  (forall a b, In a slots -> In b slots ->
     slot_start b < slot_end a -> slot_start a < slot_end b ->
     same_window a b = true).

(** ** Sample data *)

(** Monday 6 and Saturday 4 January 2025. *)
Definition monday : Z := date 2025 1 6.

Definition saturday : Z := date 2025 1 4.

Definition block1_found : event :=
  {| ev_id := 7%nat; ev_summary := Some "deep work block 1";
     ev_description := Some "old"; ev_start := datetime (date 2025 1 6) 8 0;
     ev_end := datetime (date 2025 1 6) 10 0;
     ev_other := [("attendees", "ann@example.org")] |}.

Definition one_block_world : World :=
  {| cal := [block1_found]; next_id := 8%nat; trace := []; out := [] |}.

(** Two events that both answer "Deep Work Block 1" on Monday morning. *)
Definition dup_a : event :=
  {| ev_id := 1%nat; ev_summary := Some "Deep Work Block 1";
     ev_description := Some "first"; ev_start := datetime monday 8 0;
     ev_end := datetime monday 10 0; ev_other := [] |}.

Definition dup_b : event :=
  {| ev_id := 2%nat; ev_summary := Some "DEEP WORK BLOCK 1";
     ev_description := Some "second"; ev_start := datetime monday 8 30;
     ev_end := datetime monday 9 30; ev_other := [] |}.

Definition dup_world : World :=
  {| cal := [dup_b; dup_a]; next_id := 3%nat; trace := []; out := [] |}.

Definition single_world : World :=
  {| cal := [dup_a]; next_id := 3%nat; trace := []; out := [] |}.

(** A meeting titled like the first block that runs from Monday morning to
    Tuesday morning, so that it meets the first block of both days. *)
Definition spanning : event :=
  {| ev_id := 1%nat; ev_summary := Some "Deep Work Block 1";
     ev_description := Some "offsite"; ev_start := datetime monday 9 0;
     ev_end := datetime (monday + 1) 9 0; ev_other := [] |}.

Definition span_world : World :=
  {| cal := [spanning]; next_id := 2%nat; trace := []; out := [] |}.

(** A two-day schedule, and a service that refuses to create the first block
    of the first day. *)
Definition day_a : DeepWorkJan.day_info :=
  {| DeepWorkJan.day_date := monday;
     DeepWorkJan.block1_title := "Deep Work Block 1";
     DeepWorkJan.block1_desc := "A1";
     DeepWorkJan.block2_title := "Deep Work Block 2";
     DeepWorkJan.block2_desc := "A2" |}.

Definition day_b : DeepWorkJan.day_info :=
  {| DeepWorkJan.day_date := monday + 1;
     DeepWorkJan.block1_title := "Deep Work Block 1";
     DeepWorkJan.block1_desc := "B1";
     DeepWorkJan.block2_title := "Deep Work Block 2";
     DeepWorkJan.block2_desc := "B2" |}.

(** A day whose first block has no title. *)
Definition day_untitled : DeepWorkJan.day_info :=
  {| DeepWorkJan.day_date := monday;
     DeepWorkJan.block1_title := "";
     DeepWorkJan.block1_desc := "notes";
     DeepWorkJan.block2_title := "Deep Work Block 2";
     DeepWorkJan.block2_desc := "A2" |}.

Definition refuses_a1 (c : call) : bool :=
  match c with
  | CInsert b => String.eqb (body_description b) "A1"
  | _ => false
  end.

(** A three-item plan, started on a Saturday. *)
Definition plan3 : list ThreeWeekPlan.plan_item :=
  [ {| ThreeWeekPlan.day_label := "Day 1";
       ThreeWeekPlan.block1_desc := "Kickoff";
       ThreeWeekPlan.block2_desc := "Cluster" |};
    {| ThreeWeekPlan.day_label := "Day 2";
       ThreeWeekPlan.block1_desc := "Logging";
       ThreeWeekPlan.block2_desc := "Queues" |};
    {| ThreeWeekPlan.day_label := "Day 3";
       ThreeWeekPlan.block1_desc := "Review";
       ThreeWeekPlan.block2_desc := "Demo" |} ].

(** One week of the marketing plan. *)
Definition week_one : MarketingQ1.week_data :=
  {| MarketingQ1.start_date := monday;
     MarketingQ1.focus := "Brand";
     MarketingQ1.days := [("Mon", "story"); ("Tue", "audience")] |}.

Definition refuses_tuesday (c : call) : bool :=
  match c with
  | CInsert b => dateTime (body_start b) =? datetime (monday + 1) 16 0
  | _ => false
  end.

(** Two stale copies of Monday's marketing slot and an unrelated meeting. *)
Definition stale_a : event :=
  {| ev_id := 4%nat; ev_summary := Some "Marketing & Outreach";
     ev_description := Some "old plan"; ev_start := datetime monday 16 0;
     ev_end := datetime monday 18 0; ev_other := [] |}.

Definition stale_b : event :=
  {| ev_id := 5%nat; ev_summary := Some "marketing & outreach";
     ev_description := Some "older plan"; ev_start := datetime monday 16 0;
     ev_end := datetime monday 18 0; ev_other := [] |}.

Definition meeting : event :=
  {| ev_id := 6%nat; ev_summary := Some "Marketing & Outreach sync";
     ev_description := None; ev_start := datetime monday 17 0;
     ev_end := datetime monday 17 30; ev_other := [] |}.

Definition stale_world : World :=
  {| cal := [stale_a; meeting; stale_b]; next_id := 7%nat;
     trace := []; out := [] |}.

(** ** Further vocabulary *)

(** London is [o] minutes ahead of UTC ([o] is 60 in summer time). *)
Definition london_ahead (env : Env) (o : Z) : Prop :=
  forall t, to_utc "Europe/London" t = t - o.

(** A service that answers every list and delete request. *)
Definition lists_and_deletes (env : Env) : Prop :=
  forall c, is_insert c = false -> fails c = false.

(** A summer environment: London one hour ahead of UTC. *)
Definition summer (faulty : call -> bool) : Env :=
  {| lower := lower_ascii;
     text_search := substring_search;
     to_utc := fun _ t => t - 60;
     fails := faulty |}.

(** A service that refuses every create and nothing else. *)
Definition refuses_creates (c : call) : bool := is_insert c.

(** The environment with the same collaborators and no fault. *)
Definition calm (env : Env) : Env :=
  {| lower := @lower env;
     text_search := @text_search env;
     to_utc := @to_utc env;
     fails := fun _ => false |}.

(** From [w] to [w'] no delete was sent, every id of the calendar is still
    there, in place, and at most [n] events were appended. *)
Definition adds (n : nat) (w w' : World) : Prop :=
  exists t extra,
    trace w' = trace w ++ t /\
    Forall (fun c => is_delete c = false) t /\
    map ev_id (cal w') = map ev_id (cal w) ++ extra /\
    (List.length extra <= n)%nat.

Definition adding {A} (n : nat) (m : M A) : Prop :=
  forall w, adds n w (snd (m w)).

(** The events a run creates when every block creates its own, under
    consecutive ids from [n]. *)
Fixpoint fresh_events {env : Env} (bs : list block) (n : nat) : list event :=
  match bs with
  | [] => []
  | b :: rest => fresh_event b n :: fresh_events rest (S n)
  end.

(** The two requests of a block that finds nothing. *)
Definition list_then_insert (b : block) : list call :=
  [CList (b_start b) (b_end b) (b_summary b);
   CInsert (london_body (b_summary b) (b_start b) (b_end b) (b_desc b))].

(** Events in order between [lo] and [hi]: each starts at or after the end
    of the one before (or [lo]), lasts a positive time, and the last ends at
    or before [hi]. *)
Fixpoint spaced (lo : Z) (l : list JanuaryEvents.event_data) (hi : Z) : Prop :=
  match l with
  | [] => lo <= hi
  | ev :: rest =>
      lo <= JanuaryEvents.ed_start ev /\
      JanuaryEvents.ed_start ev < JanuaryEvents.ed_end ev /\
      spaced (JanuaryEvents.ed_end ev) rest hi
  end.

(** The events the service stores for a list of event dicts, under
    consecutive ids from [n]. *)
Fixpoint stored_all {env : Env} (evs : list JanuaryEvents.event_data) (n : nat)
  : list event :=
  match evs with
  | [] => []
  | ev :: rest =>
      stored n (london_body (JanuaryEvents.ed_summary ev)
                  (JanuaryEvents.ed_start ev) (JanuaryEvents.ed_end ev)
                  (JanuaryEvents.ed_description ev))
      :: stored_all rest (S n)
  end.

(** The expansion of Saturday 4 to Monday 6 January 2025. *)
Definition long_weekend : list JanuaryEvents.event_data :=
  match JanuaryEvents.build_all_events 5 saturday monday [] empty_world with
  | Some (Ok l, _) => l
  | _ => []
  end.

(** The create request [main] of the marketing script sends for a slot. *)
Definition slot_insert (sl : slot) : call :=
  CInsert (london_body title (slot_start sl) (slot_end sl) (slot_desc sl)).

(** A second week that starts on the Wednesday of [week_one]. *)
Definition week_mid : MarketingQ1.week_data :=
  {| MarketingQ1.start_date := monday + 2;
     MarketingQ1.focus := "Launch";
     MarketingQ1.days := [("Mon", "teaser")] |}.

(** The first slot of [week_mid]: Wednesday 8 January, labelled Mon. *)
Definition wednesday_again : slot :=
  {| slot_start := datetime (monday + 2) 16 0;
     slot_end := datetime (monday + 2) 18 0;
     slot_desc := MarketingQ1.describe "Launch" "Mon" "teaser" |}.

(** A service that refuses to delete the event with id 5. *)
Definition refuses_second_delete (c : call) : bool :=
  match c with
  | CDelete i => Nat.eqb i 5
  | _ => false
  end.

(** * Properties *)

Unset Implicit Arguments.

(** ** Listings are ordered by start *)

Lemma insert_by_start_In (x y : event) (l : list event) :
  In y (insert_by_start x l) <-> y = x \/ In y l.
Proof.
  induction l as [|z l IH]; simpl.
  - intuition.
  - destruct (ev_start x <=? ev_start z); simpl; rewrite ?IH; intuition.
Qed.

Lemma sort_by_start_In (y : event) (l : list event) :
  In y (sort_by_start l) <-> In y l.
Proof.
  induction l as [|x l IH]; simpl; [tauto|].
  rewrite insert_by_start_In, IH. intuition.
Qed.

Lemma insert_by_start_sorted (x : event) (l : list event) :
  StronglySorted by_start l -> StronglySorted by_start (insert_by_start x l).
Proof.
  induction 1 as [|y l Hs IH Hall]; simpl.
  - constructor; constructor.
  - destruct (ev_start x <=? ev_start y) eqn:E.
    + apply Z.leb_le in E. constructor.
      * constructor; assumption.
      * constructor; [exact E|].
        eapply Forall_impl; [|exact Hall]. unfold by_start. intros; lia.
    + apply Z.leb_gt in E. constructor; [exact IH|].
      apply Forall_forall. intros z Hz. apply insert_by_start_In in Hz.
      destruct Hz as [->|Hz].
      * unfold by_start; lia.
      * rewrite Forall_forall in Hall. auto.
Qed.

Lemma sort_by_start_sorted (l : list event) :
  StronglySorted by_start (sort_by_start l).
Proof.
  induction l; simpl; [constructor | now apply insert_by_start_sorted].
Qed.

Lemma insert_below_all (x : event) (l : list event) :
  Forall (by_start x) l -> insert_by_start x l = x :: l.
Proof.
  destruct 1 as [|y l Hy _]; simpl; [reflexivity|].
  unfold by_start in Hy. apply Z.leb_le in Hy. now rewrite Hy.
Qed.

(** The sort is stable, so it commutes with any filter. *)
Lemma filter_insert_by_start (p : event -> bool) (x : event) (l : list event) :
  StronglySorted by_start l ->
  filter p (insert_by_start x l) =
  if p x then insert_by_start x (filter p l) else filter p l.
Proof.
  induction 1 as [|y l Hs IH Hall]; simpl.
  - destruct (p x); reflexivity.
  - destruct (ev_start x <=? ev_start y) eqn:E; simpl.
    + destruct (p x) eqn:Px; [|reflexivity].
      symmetry. apply insert_below_all.
      apply Z.leb_le in E.
      assert (Hx : Forall (by_start x) (y :: l)).
      { constructor; [exact E|].
        eapply Forall_impl; [|exact Hall]. unfold by_start; intros; lia. }
      apply Forall_forall. intros z Hz.
      rewrite Forall_forall in Hx. apply Hx.
      change (In z (filter p (y :: l))) in Hz.
      apply filter_In in Hz. tauto.
    + rewrite IH. destruct (p y), (p x); simpl; rewrite ?E; reflexivity.
Qed.

Lemma filter_sort_by_start (p : event -> bool) (l : list event) :
  filter p (sort_by_start l) = sort_by_start (filter p l).
Proof.
  induction l as [|x l IH]; simpl; [reflexivity|].
  rewrite filter_insert_by_start by apply sort_by_start_sorted.
  rewrite IH. destruct (p x); reflexivity.
Qed.

Lemma find_is_hd_filter {A} (p : A -> bool) (l : list A) :
  find p l = hd_error (filter p l).
Proof.
  induction l as [|x l IH]; simpl; [reflexivity|].
  destruct (p x); simpl; auto.
Qed.

Lemma sorted_find_least (p : event -> bool) (l : list event) (x : event) :
  StronglySorted by_start l -> find p l = Some x ->
  forall y, In y l -> p y = true -> by_start x y.
Proof.
  induction 1 as [|z l Hs IH Hall]; simpl; [discriminate|].
  intros Hf y Hy Py. destruct (p z) eqn:Pz.
  - inversion Hf; subst z. destruct Hy as [->|Hy].
    + unfold by_start; lia.
    + rewrite Forall_forall in Hall. auto.
  - destruct Hy as [->|Hy]; [congruence|]. eauto.
Qed.

(** ** The matcher *)

Section Matcher.
Context {env : Env}.
Import DeepWorkJan.

Lemma find_event_unfold (summary : string) (s e : Z) (w : World) :
  find_event_by_summary_in_range summary s e w =
  if fails (CList s e summary)
  then (Raise (HttpError (CList s e summary)), log_call w (CList s e summary))
  else (Ok (find (exact summary) (listing s e summary (cal w))),
        log_call w (CList s e summary)).
Proof.
  unfold find_event_by_summary_in_range, events_list, bind, request, ret.
  destruct (fails (CList s e summary)); reflexivity.
Qed.

Lemma exact_true (summary : string) (e : event) :
  exact summary e = true <-> lower (summary_of e) = lower summary.
Proof. unfold exact. apply String.eqb_eq. Qed.

(** C3.  Whatever the service lists for the window (its text filter is
    arbitrary), [find_event_by_summary_in_range] returns an event only if
    it was listed and its summary equals the wanted one once both are
    lower-cased; it returns [None] exactly when no listed event passes that
    test, and then the answer is a normal result after which the caller
    creates the event. *)
Theorem find_event_exact_or_none
    (summary : string) (s e : Z) (desc : string) (w : World) :
  match find_event_by_summary_in_range summary s e w with
  | (Ok (Some evt), _) =>
      In evt (listing s e summary (cal w)) /\
      lower (summary_of evt) = lower summary
  | (Ok None, w') =>
      (forall x, In x (listing s e summary (cal w)) ->
                 lower (summary_of x) <> lower summary) /\
      handle_block summary s e desc w = create_event summary s e desc w'
  | (Raise err, _) =>
      err = HttpError (CList s e summary) /\
      fails (CList s e summary) = true
  end.
Proof.
  unfold handle_block, bind at 1.
  rewrite find_event_unfold.
  destruct (fails (CList s e summary)) eqn:F; [auto|].
  destruct (find (exact summary) (listing s e summary (cal w))) as [evt|] eqn:Hf.
  - apply find_some in Hf. destruct Hf as [Hin Hex].
    split; [exact Hin | now apply exact_true].
  - split; [|reflexivity].
    intros x Hx Heq. apply (find_none _ _ Hf) in Hx.
    apply exact_true in Heq. congruence.
Qed.

(** What a successful search leaves behind: one logged request, nothing
    printed, the calendar as it was. *)
Lemma find_event_effect (summary : string) (s e : Z) (w w' : World) r :
  find_event_by_summary_in_range summary s e w = (r, w') ->
  w' = log_call w (CList s e summary).
Proof.
  rewrite find_event_unfold.
  destruct (fails _); intros H; inversion H; reflexivity.
Qed.

(** C4, as the code has it.  When several listed events carry the wanted
    summary, the one returned has the earliest start among them (the
    listing is ordered by start and the first match is taken); nothing is
    printed and nothing but the event is returned, so a collision is not
    reported. *)
Theorem find_event_earliest_and_silent
    (summary : string) (s e : Z) (w w' : World) (evt : event) :
  find_event_by_summary_in_range summary s e w = (Ok (Some evt), w') ->
  (forall other, In other (listing s e summary (cal w)) ->
                 lower (summary_of other) = lower summary ->
                 ev_start evt <= ev_start other) /\
  out w' = out w /\ cal w' = cal w /\
  trace w' = trace w ++ [CList s e summary].
Proof.
  intros H. pose proof (find_event_effect _ _ _ _ _ _ H) as ->.
  rewrite find_event_unfold in H.
  destruct (fails _); [discriminate|]. inversion H as [Hf]; clear H.
  split; [|auto].
  intros other Hin Heq.
  apply (sorted_find_least (exact summary) (listing s e summary (cal w)) evt).
  - apply sort_by_start_sorted.
  - exact Hf.
  - exact Hin.
  - now apply exact_true.
Qed.

End Matcher.

(** ** Basic facts on calendars *)

Lemma unique_id (c : list event) (x y : event) :
  NoDup (map ev_id c) -> In x c -> In y c -> ev_id x = ev_id y -> x = y.
Proof.
  induction c as [|z c IH]; simpl; [tauto|].
  intros Hnd Hx Hy Hid. inversion Hnd as [|? ? Hnotin Hnd']; subst.
  destruct Hx as [->|Hx], Hy as [->|Hy]; auto.
  - exfalso. apply Hnotin. rewrite Hid. now apply in_map.
  - exfalso. apply Hnotin. rewrite <- Hid. now apply in_map.
Qed.

Lemma has_id_true (i : nat) (e : event) : has_id i e = true <-> ev_id e = i.
Proof. unfold has_id. apply Nat.eqb_eq. Qed.

Lemma existsb_has_id (c : list event) (x : event) :
  In x c -> existsb (has_id (ev_id x)) c = true.
Proof.
  intros H. apply existsb_exists. exists x. split; [exact H|].
  now apply has_id_true.
Qed.

Lemma sort_by_start_map (f : event -> event) (l : list event) :
  (forall e, ev_start (f e) = ev_start e) ->
  sort_by_start (map f l) = map f (sort_by_start l).
Proof.
  intros Hf.
  assert (Hins : forall x m, insert_by_start (f x) (map f m)
                             = map f (insert_by_start x m)).
  { intros x m. induction m as [|y m IH]; simpl; [reflexivity|].
    rewrite !Hf. destruct (ev_start x <=? ev_start y); simpl; congruence. }
  induction l as [|x l IH]; simpl; [reflexivity|].
  now rewrite IH, Hins.
Qed.

Lemma filter_map_same (p : event -> bool) (f : event -> event) (l : list event) :
  (forall e, p (f e) = p e) -> filter p (map f l) = map f (filter p l).
Proof.
  intros Hf. induction l as [|x l IH]; simpl; [reflexivity|].
  rewrite Hf. destruct (p x); simpl; congruence.
Qed.

Lemma filter_filter (p q : event -> bool) (l : list event) :
  filter p (filter q l) = filter (fun x => q x && p x) l.
Proof.
  induction l as [|x l IH]; simpl; [reflexivity|].
  destruct (q x); simpl; [destruct (p x)|]; simpl; congruence.
Qed.

Lemma hd_error_map {A B} (f : A -> B) (l : list A) :
  hd_error (map f l) = option_map f (hd_error l).
Proof. destruct l; reflexivity. Qed.

Lemma redescribe_id i d e : ev_id (redescribe i d e) = ev_id e.
Proof. unfold redescribe. destruct (has_id i e); reflexivity. Qed.

Lemma redescribe_start i d e : ev_start (redescribe i d e) = ev_start e.
Proof. unfold redescribe. destruct (has_id i e); reflexivity. Qed.

Lemma redescribe_end i d e : ev_end (redescribe i d e) = ev_end e.
Proof. unfold redescribe. destruct (has_id i e); reflexivity. Qed.

Lemma redescribe_summary i d e : summary_of (redescribe i d e) = summary_of e.
Proof. unfold redescribe. destruct (has_id i e); reflexivity. Qed.

Lemma map_redescribe_ids i d c :
  map ev_id (map (redescribe i d) c) = map ev_id c.
Proof.
  rewrite map_map. apply map_ext. intros. apply redescribe_id.
Qed.

(** With unique ids, storing the re-described event under its id is the
    same as re-describing in place. *)
Lemma update_is_redescribe (c : list event) (x : event) (d : string) :
  NoDup (map ev_id c) -> In x c ->
  map (fun e => if has_id (ev_id x) e
                then with_id (ev_id x) (DeepWorkJan.set_description x d) else e) c
  = map (redescribe (ev_id x) d) c.
Proof.
  intros Hnd Hx. apply map_ext_in. intros e He. unfold redescribe.
  destruct (has_id (ev_id x) e) eqn:E; [|reflexivity].
  apply has_id_true in E.
  rewrite (unique_id c e x Hnd He Hx E).
  destruct x; reflexivity.
Qed.

(** ** Targets *)

Section Targets.
Context {env : Env}.
Hypothesis Hsearch : search_complete env.

Lemma hit_in_listing (summary : string) (s e : Z) (c : list event) :
  filter (exact summary) (listing s e summary c)
  = sort_by_start (filter (hit summary s e) c).
Proof.
  unfold listing. rewrite filter_sort_by_start, filter_filter. f_equal.
  apply filter_ext. intros x. unfold hit.
  destruct (in_window s e x); simpl; [|reflexivity].
  destruct (exact summary x) eqn:E; [|apply andb_false_r].
  apply String.eqb_eq in E. now rewrite (Hsearch _ _ E).
Qed.

Lemma target_is_first_hit (summary : string) (s e : Z) (c : list event) :
  target summary s e c = hd_error (sort_by_start (filter (hit summary s e) c)).
Proof.
  unfold target. now rewrite find_is_hd_filter, hit_in_listing.
Qed.

Lemma target_none (summary : string) (s e : Z) (c : list event) :
  target summary s e c = None <-> filter (hit summary s e) c = [].
Proof.
  rewrite target_is_first_hit. split.
  - intros H. destruct (filter (hit summary s e) c) as [|x l] eqn:E; [reflexivity|].
    exfalso. assert (Hin : In x (sort_by_start (x :: l))).
    { apply sort_by_start_In. now left. }
    destruct (sort_by_start (x :: l)); [contradiction | discriminate].
  - intros ->. reflexivity.
Qed.

Lemma hit_redescribe summary s e i d x :
  hit summary s e (redescribe i d x) = hit summary s e x.
Proof.
  unfold hit, in_window, exact.
  now rewrite redescribe_start, redescribe_end, redescribe_summary.
Qed.

(** Re-describing an event moves no target. *)
Lemma target_redescribe summary s e i d c :
  target summary s e (map (redescribe i d) c)
  = option_map (redescribe i d) (target summary s e c).
Proof.
  rewrite !target_is_first_hit.
  rewrite filter_map_same by apply hit_redescribe.
  rewrite sort_by_start_map by apply redescribe_start.
  apply hd_error_map.
Qed.

(** Neither does an event that does not answer the query. *)
Lemma target_app_miss summary s e c x :
  hit summary s e x = false ->
  target summary s e (c ++ [x]) = target summary s e c.
Proof.
  intros H. rewrite !target_is_first_hit, filter_app. simpl. rewrite H.
  now rewrite app_nil_r.
Qed.

Lemma target_app_first summary s e c x :
  target summary s e c = None -> hit summary s e x = true ->
  target summary s e (c ++ [x]) = Some x.
Proof.
  intros Hn H. apply target_none in Hn.
  rewrite target_is_first_hit, filter_app, Hn. simpl. now rewrite H.
Qed.

End Targets.

(** ** One update-or-create block *)

Section Block.
Context {env : Env}.
Import DeepWorkJan.

Lemma update_event_description_unfold (evt : event) (d : string) (w : World) :
  update_event_description evt d w =
  let c := CUpdate (ev_id evt) (set_description evt d) in
  if fails c then (Raise (HttpError c), log_call w c)
  else if existsb (has_id (ev_id evt)) (cal w)
       then (Ok tt,
             log_line
               (with_cal (log_call w c)
                  (map (fun e => if has_id (ev_id evt) e
                                 then with_id (ev_id evt) (set_description evt d)
                                 else e) (cal w)))
               (PrintedUpdated (ev_id evt)))
       else (Raise (HttpError c), log_call w c).
Proof.
  unfold update_event_description, events_update, bind, request, print. simpl.
  destruct (fails _); [reflexivity|]. simpl.
  destruct (existsb _ _); reflexivity.
Qed.

Lemma create_event_unfold (summary : string) (s e : Z) (d : string) (w : World) :
  create_event summary s e d w =
  let c := CInsert (london_body summary s e d) in
  if fails c then (Raise (HttpError c), log_call w c)
  else (Ok tt,
        {| cal := cal w ++ [stored (next_id w) (london_body summary s e d)];
           next_id := S (next_id w);
           trace := trace w ++ [c];
           out := out w ++ [PrintedCreated (next_id w)] |}).
Proof.
  unfold create_event, events_insert, bind, request, print. simpl.
  fold (london_body summary s e d).
  destruct (fails _); reflexivity.
Qed.

Lemma target_stored (summary : string) (s e : Z) (c : list event) (x : event) :
  target summary s e c = Some x ->
  In x c /\ in_window s e x = true /\ lower (summary_of x) = lower summary.
Proof.
  unfold target, listing. intros H. apply find_some in H.
  destruct H as [Hin Hex]. apply sort_by_start_In, filter_In in Hin.
  destruct Hin as [Hin Hw]. apply andb_prop in Hw.
  repeat split; try tauto. now apply exact_true.
Qed.

(** With a reliable service, a block either re-describes its target or
    appends a fresh event. *)
Lemma handle_block_reliable (summary : string) (s e : Z) (d : string) (w : World) :
  reliable env -> NoDup (map ev_id (cal w)) ->
  handle_block summary s e d w =
  (Ok tt, match target summary s e (cal w) with
          | Some x => updated_world w summary s e x d
          | None => created_world w summary s e d
          end).
Proof.
  intros Hrel Hnd. unfold handle_block, bind.
  rewrite find_event_unfold, Hrel. fold (target summary s e (cal w)).
  destruct (target summary s e (cal w)) as [x|] eqn:T.
  - apply target_stored in T. destruct T as [Hx _].
    rewrite update_event_description_unfold. simpl. rewrite Hrel.
    rewrite (existsb_has_id _ _ Hx).
    f_equal. unfold updated_world, log_line, with_cal, log_call. simpl.
    rewrite <- app_assoc. simpl. f_equal.
    now apply update_is_redescribe.
  - rewrite create_event_unfold. simpl. rewrite Hrel.
    unfold created_world, log_call. simpl. rewrite <- app_assoc. reflexivity.
Qed.

End Block.

(** ** The concrete environment meets the assumptions *)

Lemma prefix_same (s : string) : String.prefix s s = true.
Proof.
  induction s as [|a s IH]; simpl; [reflexivity|].
  destruct (ascii_dec a a); [exact IH | congruence].
Qed.

Lemma winter_reliable : reliable (winter never).
Proof. intros c. reflexivity. Qed.

Lemma winter_search_complete (faulty : call -> bool) :
  search_complete (winter faulty).
Proof.
  intros q e H. simpl in *. unfold substring_search. rewrite H.
  destruct (String.length (summary_of e)); simpl; now rewrite prefix_same.
Qed.

Lemma winter_on_utc (faulty : call -> bool) : london_on_utc (winter faulty).
Proof. intros t. reflexivity. Qed.

(** ** The update sends the event back with a new description *)

Section Frame.
Context {env : Env}.
Import DeepWorkJan.

(** C5.  When a block finds its event, the body sent to [update] is the
    event as found with the description replaced: id, summary, start, end
    and every other key are those of the found event, and the request is
    addressed to its id.  On the calendar the ids stay as they were, every
    other event is untouched, and searching again finds the same id, now
    with the new description. *)
Theorem update_overwrites_description_only
    (summary : string) (s e : Z) (d : string) (w w1 : World) (evt : event) :
  reliable env -> search_complete env -> NoDup (map ev_id (cal w)) ->
  find_event_by_summary_in_range summary s e w = (Ok (Some evt), w1) ->
  let body := set_description evt d in
  (ev_id body = ev_id evt /\ ev_summary body = ev_summary evt /\
   ev_start body = ev_start evt /\ ev_end body = ev_end evt /\
   ev_other body = ev_other evt /\ ev_description body = Some d) /\
  trace (snd (update_event_description evt d w1))
    = trace w1 ++ [CUpdate (ev_id evt) body] /\
  exists w2,
    handle_block summary s e d w = (Ok tt, w2) /\
    trace w2 = trace w ++ [CList s e summary; CUpdate (ev_id evt) body] /\
    map ev_id (cal w2) = map ev_id (cal w) /\
    (forall x, In x (cal w) -> ev_id x <> ev_id evt -> In x (cal w2)) /\
    fst (find_event_by_summary_in_range summary s e w2) = Ok (Some body).
Proof.
  intros Hrel Hsearch Hnd Hfind body.
  split; [repeat split|]. split.
  { rewrite update_event_description_unfold. simpl.
    destruct (fails _); [reflexivity|].
    destruct (existsb _ _); reflexivity. }
  rewrite find_event_unfold, Hrel in Hfind.
  inversion Hfind as [[Ht Hw1]]. fold (target summary s e (cal w)) in Ht.
  exists (updated_world w summary s e evt d).
  rewrite handle_block_reliable by assumption. rewrite Ht.
  split; [reflexivity|]. split; [reflexivity|]. simpl.
  split; [apply map_redescribe_ids|]. split.
  - intros x Hx Hid. apply in_map_iff. exists x. split; [|exact Hx].
    unfold redescribe. destruct (has_id (ev_id evt) x) eqn:E; [|reflexivity].
    apply has_id_true in E. contradiction.
  - rewrite find_event_unfold, Hrel. simpl.
    fold (target summary s e (map (redescribe (ev_id evt) d) (cal w))).
    rewrite target_redescribe by assumption. rewrite Ht. simpl.
    unfold redescribe. unfold has_id. now rewrite Nat.eqb_refl.
Qed.

End Frame.

Lemma update_overwrites_description_only_witness :
  let env := winter never in
  let s := datetime (date 2025 1 6) 8 0 in
  let e := datetime (date 2025 1 6) 10 0 in
  let body := DeepWorkJan.set_description block1_found "new" in
  (ev_id body = 7%nat /\ ev_summary body = Some "deep work block 1" /\
   ev_start body = s /\ ev_end body = e /\
   ev_other body = [("attendees", "ann@example.org")] /\
   ev_description body = Some "new") /\
  trace (snd (DeepWorkJan.update_event_description block1_found "new"
                (log_call one_block_world (CList s e "Deep Work Block 1"))))
    = [CList s e "Deep Work Block 1"; CUpdate 7 body] /\
  exists w2,
    DeepWorkJan.handle_block "Deep Work Block 1" s e "new" one_block_world
      = (Ok tt, w2) /\
    trace w2 = [CList s e "Deep Work Block 1"; CUpdate 7 body] /\
    map ev_id (cal w2) = [7%nat] /\
    (forall x, In x [block1_found] -> ev_id x <> 7%nat -> In x (cal w2)) /\
    fst (DeepWorkJan.find_event_by_summary_in_range "Deep Work Block 1" s e w2)
      = Ok (Some body).
Proof.
  intros env s e body.
  apply (@update_overwrites_description_only env "Deep Work Block 1" s e "new"
           one_block_world
           (log_call one_block_world (CList s e "Deep Work Block 1"))
           block1_found).
  - exact winter_reliable.
  - exact (winter_search_complete never).
  - simpl. constructor; [simpl; tauto | constructor].
  - reflexivity.
Defined.

Lemma find_event_earliest_and_silent_witness :
  let env := winter never in
  let s := datetime monday 8 0 in
  let e := datetime monday 10 0 in
  (forall other, In other (listing s e "Deep Work Block 1" (cal dup_world)) ->
                 lower (summary_of other) = lower "Deep Work Block 1" ->
                 ev_start dup_a <= ev_start other) /\
  out (log_call dup_world (CList s e "Deep Work Block 1")) = out dup_world /\
  cal (log_call dup_world (CList s e "Deep Work Block 1")) = cal dup_world /\
  trace (log_call dup_world (CList s e "Deep Work Block 1"))
    = trace dup_world ++ [CList s e "Deep Work Block 1"].
Proof.
  intros env s e.
  apply (@find_event_earliest_and_silent env "Deep Work Block 1" s e dup_world).
  reflexivity.
Defined.

(** C4 as stated fails on the code: with two exact matches in the window the
    search returns the earlier one and prints nothing, and a whole block
    leaves the same output as it does when the match is alone. *)
Lemma collision_is_not_reported :
  let env := winter never in
  let s := datetime monday 8 0 in
  let e := datetime monday 10 0 in
  List.length (filter (hit "Deep Work Block 1" s e) (cal dup_world)) = 2%nat /\
  DeepWorkJan.find_event_by_summary_in_range "Deep Work Block 1" s e dup_world
    = (Ok (Some dup_a), log_call dup_world (CList s e "Deep Work Block 1")) /\
  fst (DeepWorkJan.find_event_by_summary_in_range "Deep Work Block 1" s e dup_world)
    = fst (DeepWorkJan.find_event_by_summary_in_range "Deep Work Block 1" s e
             single_world) /\
  out (snd (DeepWorkJan.find_event_by_summary_in_range "Deep Work Block 1" s e
              dup_world)) = [] /\
  out (snd (DeepWorkJan.handle_block "Deep Work Block 1" s e "notes" dup_world))
    = [PrintedUpdated 1] /\
  out (snd (DeepWorkJan.handle_block "Deep Work Block 1" s e "notes" single_world))
    = [PrintedUpdated 1].
Proof. vm_compute. repeat split. Qed.

(** ** Exceptions are not caught *)

Lemma for_each_app_ok {A} (xs ys : list A) (body : A -> M unit) (w w1 : World) :
  for_each xs body w = (Ok tt, w1) ->
  for_each (xs ++ ys) body w = for_each ys body w1.
Proof.
  revert w. induction xs as [|x xs IH]; simpl; intros w H.
  - inversion H; reflexivity.
  - unfold bind in *. destruct (body x w) as [[[]|err] w0]; [eauto | discriminate].
Qed.

Lemma for_each_stops {A} (done todo : list A) (x : A) (body : A -> M unit)
    (w w1 w2 : World) (err : exn) :
  for_each done body w = (Ok tt, w1) ->
  body x w1 = (Raise err, w2) ->
  for_each (done ++ x :: todo) body w = (Raise err, w2).
Proof.
  intros Hd Hx. rewrite (for_each_app_ok done (x :: todo) body w w1 Hd). simpl.
  unfold bind. now rewrite Hx.
Qed.

(** ** Requests only ever extend the trace *)

Section Requests.
Context {env : Env}.

Lemma grows_ret {A} (a : A) : grows (ret a).
Proof. intros w. exists []. simpl. now rewrite app_nil_r. Qed.

Lemma grows_bind {A B} (m : M A) (k : A -> M B) :
  grows m -> (forall a, grows (k a)) -> grows (bind m k).
Proof.
  intros Hm Hk w. unfold bind. destruct (Hm w) as [t Ht].
  destruct (m w) as [[a|err] w1]; simpl in *.
  - destruct (Hk a w1) as [t' Ht']. exists (t ++ t').
    now rewrite Ht', Ht, app_assoc.
  - now exists t.
Qed.

Lemma grows_request (c : call) : grows (request c).
Proof. intros w. exists [c]. unfold request. destruct (fails c); reflexivity. Qed.

Lemma grows_print (l : line) : grows (print l).
Proof. intros w. exists []. simpl. now rewrite app_nil_r. Qed.

Lemma grows_for_each {A} (xs : list A) (body : A -> M unit) :
  (forall x, grows (body x)) -> grows (for_each xs body).
Proof.
  intros Hb. induction xs as [|x xs IH]; simpl.
  - apply grows_ret.
  - apply grows_bind; auto.
Qed.

Lemma grows_handle_block summary s e d :
  grows (DeepWorkJan.handle_block summary s e d).
Proof.
  unfold DeepWorkJan.handle_block, DeepWorkJan.find_event_by_summary_in_range,
    DeepWorkJan.update_event_description, DeepWorkJan.create_event,
    events_list, events_update, events_insert.
  repeat first
    [ apply grows_bind; [|intros ?]
    | apply grows_request | apply grows_print | apply grows_ret
    | match goal with |- grows (match ?x with _ => _ end) => destruct x end ].
  - intros w. exists []. simpl. now rewrite app_nil_r.
  - intros w. exists []. simpl.
    destruct (existsb _ _); simpl; now rewrite app_nil_r.
  - intros w. exists []. simpl. now rewrite app_nil_r.
Qed.

Lemma starts_with_bind {A B} (c : call) (m : M A) (k : A -> M B) :
  starts_with c m -> (forall a, grows (k a)) -> starts_with c (bind m k).
Proof.
  intros Hm Hk w. unfold bind. destruct (Hm w) as [t Ht].
  destruct (m w) as [[a|err] w1]; simpl in *.
  - destruct (Hk a w1) as [t' Ht']. exists (t ++ t').
    rewrite Ht', Ht, <- app_assoc. reflexivity.
  - now exists t.
Qed.

Lemma handle_block_first_request summary s e d :
  starts_with (CList s e summary) (DeepWorkJan.handle_block summary s e d).
Proof.
  intros w. unfold DeepWorkJan.handle_block, bind. rewrite find_event_unfold.
  destruct (fails (CList s e summary)); [now exists []|].
  destruct (find _ _) as [evt|].
  - rewrite update_event_description_unfold. simpl.
    eexists. destruct (fails _); [|destruct (existsb _ _)]; simpl;
      rewrite <- app_assoc; reflexivity.
  - rewrite create_event_unfold. simpl.
    eexists. destruct (fails _); simpl; rewrite <- app_assoc; reflexivity.
Qed.

End Requests.

(** ** The three-week plan: business days *)

Lemma weekday_range d : 0 <= weekday d < 7.
Proof. unfold weekday. apply Z.mod_pos_bound. lia. Qed.

Lemma weekday_succ d :
  weekday (d + 1) = if weekday d =? 6 then 0 else weekday d + 1.
Proof.
  unfold weekday. destruct ((d + 6) mod 7 =? 6) eqn:E.
  - apply Z.eqb_eq in E. Z.div_mod_to_equations. lia.
  - apply Z.eqb_neq in E. Z.div_mod_to_equations. lia.
Qed.

Lemma chain_after_weekend d dates :
  5 <= weekday d -> business_chain (d + 1) dates -> business_chain d dates.
Proof.
  intros Hw H. inversion H as [|s b rest [Hle [Hb Hgap]] Hrest]; subst.
  - constructor.
  - constructor; [|exact Hrest]. repeat split; [lia | exact Hb |].
    intros x Hx. destruct (Z.eq_dec x d) as [->|]; [exact Hw|].
    apply Hgap. lia.
Qed.

Lemma chain_lower_bound s dates :
  business_chain s dates -> Forall (fun x => s <= x) dates.
Proof.
  induction 1 as [|s b rest [Hle _] _ IH]; constructor; [exact Hle|].
  eapply Forall_impl; [|exact IH]. simpl. intros; lia.
Qed.

Lemma chain_weekdays s dates :
  business_chain s dates -> Forall (fun x => weekday x < 5) dates.
Proof.
  induction 1 as [|s b rest [_ [Hb _]] _ IH]; constructor; assumption.
Qed.

Lemma chain_NoDup s dates : business_chain s dates -> NoDup dates.
Proof.
  induction 1 as [|s b rest _ Hrest IH]; constructor; [|exact IH].
  intros Hin. apply chain_lower_bound in Hrest.
  rewrite Forall_forall in Hrest. specialize (Hrest _ Hin). lia.
Qed.

Lemma chain_consecutive s dates n a b :
  business_chain s dates ->
  nth_error dates n = Some a -> nth_error dates (S n) = Some b ->
  next_business_day a b.
Proof.
  intros H. revert n. induction H as [|s x rest _ Hrest IH]; intros n Ha Hb.
  - destruct n; discriminate.
  - destruct n as [|n]; simpl in *.
    + inversion Ha; subst x.
      inversion Hrest as [|? ? ? [Hle [Hw Hgap]] _]; subst; [discriminate|].
      simpl in Hb. inversion Hb; subst.
      repeat split; [lia | exact Hw |]. intros y Hy. apply Hgap. lia.
    + eapply IH; eassumption.
Qed.

Lemma skipn_nth_error {A} (l : list A) (k : nat) (x : A) :
  nth_error l k = Some x -> skipn k l = x :: skipn (S k) l.
Proof.
  revert l. induction k as [|k IH]; intros [|y l] H; simpl in *; try discriminate.
  - now inversion H.
  - now apply IH.
Qed.

Section Plan.
Context {env : Env}.
Import ThreeWeekPlan.

Lemma schedule_days_cons item rest d dates w :
  schedule_days (item :: rest) (d :: dates) w =
  match schedule_day item d w with
  | (Ok _, w1) => schedule_days rest dates w1
  | (Raise err, w1) => (Raise err, w1)
  end.
Proof. reflexivity. Qed.

Lemma schedule_days_nil PLAN w : schedule_days PLAN [] w = (Ok tt, w).
Proof. unfold schedule_days. destruct PLAN; reflexivity. Qed.

Lemma first_business_day_self d : weekday d < 5 -> first_business_day_from d d.
Proof. intros H. repeat split; [lia | exact H | intros; lia]. Qed.

(** What the loop has done when it stops, normally or not: it has scheduled
    the next plan items, in order, on consecutive business days. *)
Lemma while_loop_dates fuel PLAN :
  forall k d w r w',
    while_loop fuel PLAN k d w = Some (r, w') ->
    exists dates,
      business_chain d dates /\
      (List.length dates <= List.length PLAN - k)%nat /\
      snd (schedule_days (skipn k PLAN) dates w) = w' /\
      (r = Ok tt ->
       List.length dates = (List.length PLAN - k)%nat /\
       schedule_days (skipn k PLAN) dates w = (Ok tt, w')).
Proof.
  induction fuel as [|fuel IH]; intros k d w r w' H; [discriminate|].
  simpl in H.
  destruct (k <? List.length PLAN)%nat eqn:Hk.
  2: { inversion H; subst. apply Nat.ltb_ge in Hk. exists [].
       rewrite schedule_days_nil.
       split; [constructor|]. split; [simpl; lia|]. split; [reflexivity|].
       intros _. split; [simpl; lia | reflexivity]. }
  apply Nat.ltb_lt in Hk. unfold bind in H.
  destruct (weekday d <? 5) eqn:Hw.
  - apply Z.ltb_lt in Hw.
    destruct (nth_error PLAN k) as [item|] eqn:Hn.
    2: { apply nth_error_None in Hn. lia. }
    rewrite (skipn_nth_error _ _ _ Hn).
    destruct (schedule_day item d w) as [[[]|err] w1] eqn:Hs.
    + unfold ret at 1 in H. unfold date_add in H.
      destruct ((MINORDINAL <=? d + 1) && (d + 1 <=? MAXORDINAL)).
      * unfold ret in H. apply IH in H.
        destruct H as [dates [Hc [Hl [Hsnd Hok]]]].
        exists (d :: dates). rewrite schedule_days_cons, Hs.
        split; [constructor; [now apply first_business_day_self | exact Hc]|].
        split; [simpl; lia|]. split; [exact Hsnd|].
        intros Hr. destruct (Hok Hr) as [Hlen Hrun].
        split; [simpl; lia | exact Hrun].
      * unfold raise in H. inversion H; subst.
        exists [d]. rewrite schedule_days_cons, Hs, schedule_days_nil.
        split; [constructor; [now apply first_business_day_self | constructor]|].
        split; [simpl; lia|]. split; [reflexivity | discriminate].
    + inversion H; subst.
      exists [d]. rewrite schedule_days_cons, Hs.
      split; [constructor; [now apply first_business_day_self | constructor]|].
      split; [simpl; lia|]. split; [reflexivity | discriminate].
  - apply Z.ltb_ge in Hw. unfold ret at 1 in H. unfold date_add in H.
    destruct ((MINORDINAL <=? d + 1) && (d + 1 <=? MAXORDINAL)).
    + unfold ret in H. apply IH in H.
      destruct H as [dates [Hc [Hl [Hsnd Hok]]]].
      exists dates. split; [now apply chain_after_weekend|]. auto.
    + unfold raise in H. inversion H; subst.
      exists []. rewrite schedule_days_nil.
      split; [constructor|]. split; [simpl; lia|].
      split; [reflexivity | discriminate].
Qed.

Lemma iterations_bound r d : (iterations r d <= 3 * r + 1)%nat.
Proof.
  unfold iterations. destruct r; [lia|].
  destruct (weekday d <? 5); [lia|]. destruct (weekday d =? 5); lia.
Qed.

(** The loop ends: each plan item costs at most three iterations. *)
Lemma while_loop_terminates fuel PLAN :
  forall k d w,
    (k <= List.length PLAN)%nat ->
    (iterations (List.length PLAN - k) d <= fuel)%nat ->
    exists r w', while_loop fuel PLAN k d w = Some (r, w').
Proof.
  induction fuel as [|fuel IH]; intros k d w Hk Hf.
  - exfalso. unfold iterations in Hf.
    destruct (List.length PLAN - k)%nat; [lia|].
    destruct (weekday d <? 5); [lia|]. destruct (weekday d =? 5); lia.
  - simpl. destruct (k <? List.length PLAN)%nat eqn:Hlt; [|eauto].
    apply Nat.ltb_lt in Hlt. unfold bind.
    destruct (List.length PLAN - k)%nat as [|r] eqn:Hr; [lia|].
    assert (Hr' : (List.length PLAN - S k = r)%nat) by lia.
    unfold iterations in Hf.
    destruct (weekday d <? 5) eqn:Hw.
    + destruct (nth_error PLAN k) as [item|] eqn:Hn.
      2: { apply nth_error_None in Hn. lia. }
      destruct (schedule_day item d w) as [[[]|err] w1]; [|eauto].
      unfold ret at 1. unfold date_add.
      destruct ((MINORDINAL <=? d + 1) && (d + 1 <=? MAXORDINAL));
        [|unfold raise; eauto].
      unfold ret. apply IH; [lia|]. rewrite Hr'.
      pose proof (iterations_bound r (d + 1)). lia.
    + unfold ret at 1. unfold date_add.
      destruct ((MINORDINAL <=? d + 1) && (d + 1 <=? MAXORDINAL));
        [|unfold raise; eauto].
      unfold ret. apply IH; [lia|]. rewrite Hr. unfold iterations.
      rewrite weekday_succ. pose proof (weekday_range d).
      apply Z.ltb_ge in Hw.
      destruct (weekday d =? 5) eqn:E5.
      * apply Z.eqb_eq in E5. rewrite E5. simpl. lia.
      * apply Z.eqb_neq in E5.
        assert (E6 : weekday d = 6) by lia. rewrite E6. simpl. lia.
Qed.

End Plan.

(** ** Well-formed calendars stay well formed *)

Section WellFormed.
Context {env : Env}.

Lemma updated_world_wf w summary s e x d :
  well_formed w -> well_formed (updated_world w summary s e x d).
Proof.
  intros [Hnd Hlt]. split; simpl.
  - now rewrite map_redescribe_ids.
  - apply Forall_forall. intros y Hy. apply in_map_iff in Hy.
    destruct Hy as [z [<- Hz]]. rewrite redescribe_id.
    rewrite Forall_forall in Hlt. auto.
Qed.

Lemma created_world_wf w summary s e d :
  well_formed w -> well_formed (created_world w summary s e d).
Proof.
  intros [Hnd Hlt]. split; simpl.
  - rewrite map_app. simpl. apply NoDup_app; [exact Hnd | repeat constructor; simpl; tauto |].
    intros i Hi [<-|[]]. apply in_map_iff in Hi. destruct Hi as [z [Hid Hz]].
    rewrite Forall_forall in Hlt. specialize (Hlt _ Hz). lia.
  - apply Forall_app. split.
    + eapply Forall_impl; [|exact Hlt]. simpl. intros; lia.
    + repeat constructor.
Qed.

Lemma handle_block_ok summary s e d w :
  reliable env -> well_formed w ->
  exists w', DeepWorkJan.handle_block summary s e d w = (Ok tt, w') /\
             well_formed w'.
Proof.
  intros Hrel Hwf. rewrite handle_block_reliable by (auto; apply Hwf).
  eexists. split; [reflexivity|].
  destruct (target summary s e (cal w));
    [now apply updated_world_wf | now apply created_world_wf].
Qed.

Lemma schedule_day_ok item d w :
  reliable env -> well_formed w ->
  exists w', ThreeWeekPlan.schedule_day item d w = (Ok tt, w') /\
             well_formed w'.
Proof.
  intros Hrel Hwf. unfold ThreeWeekPlan.schedule_day, bind.
  match goal with |- context [DeepWorkJan.handle_block ?a ?b ?c ?d0 w] =>
    destruct (handle_block_ok a b c d0 w Hrel Hwf) as [w1 [-> Hwf1]] end.
  match goal with |- context [DeepWorkJan.handle_block ?a ?b ?c ?d0 w1] =>
    destruct (handle_block_ok a b c d0 w1 Hrel Hwf1) as [w2 [-> Hwf2]] end.
  eauto.
Qed.

(** With a reliable service and dates that stay in range, the loop ends
    normally. *)
Lemma while_loop_completes fuel PLAN :
  reliable env ->
  forall k d w,
    well_formed w ->
    (k <= List.length PLAN)%nat ->
    (iterations (List.length PLAN - k) d <= fuel)%nat ->
    0 <= d ->
    d + Z.of_nat (iterations (List.length PLAN - k) d) - 1 <= MAXORDINAL ->
    exists w', ThreeWeekPlan.while_loop fuel PLAN k d w = Some (Ok tt, w').
Proof.
  intros Hrel.
  induction fuel as [|fuel IH]; intros k d w Hwf Hk Hf Hd Hmax.
  - exfalso. unfold iterations in Hf.
    destruct (List.length PLAN - k)%nat; [lia|].
    destruct (weekday d <? 5); [lia|]. destruct (weekday d =? 5); lia.
  - simpl. destruct (k <? List.length PLAN)%nat eqn:Hlt; [|eauto].
    apply Nat.ltb_lt in Hlt. unfold bind.
    destruct (List.length PLAN - k)%nat as [|r] eqn:Hr; [lia|].
    assert (Hr' : (List.length PLAN - S k = r)%nat) by lia.
    unfold iterations in Hf, Hmax.
    pose proof (weekday_range d) as Hrange.
    destruct (weekday d <? 5) eqn:Hw.
    + destruct (nth_error PLAN k) as [item|] eqn:Hn.
      2: { apply nth_error_None in Hn. lia. }
      destruct (schedule_day_ok item d w Hrel Hwf) as [w1 [-> Hwf1]].
      unfold ret at 1. unfold date_add.
      replace ((MINORDINAL <=? d + 1) && (d + 1 <=? MAXORDINAL)) with true.
      2: { symmetry. apply andb_true_iff. unfold MINORDINAL.
           split; [apply Z.leb_le | apply Z.leb_le]; lia. }
      unfold ret. pose proof (iterations_bound r (d + 1)).
      apply IH; auto; try lia. all: rewrite Hr'; lia.
    + unfold ret at 1. unfold date_add.
      apply Z.ltb_ge in Hw.
      assert (Hnext : (iterations (S r) (d + 1)
                       = 3 * S r + 1 - (if (weekday d =? 5)%Z then 0 else 1) - 1)%nat).
      { unfold iterations. rewrite weekday_succ.
        destruct (weekday d =? 5) eqn:E5.
        - apply Z.eqb_eq in E5. rewrite E5. simpl. lia.
        - apply Z.eqb_neq in E5.
          assert (E6 : weekday d = 6) by lia. rewrite E6. simpl. lia. }
      replace ((MINORDINAL <=? d + 1) && (d + 1 <=? MAXORDINAL)) with true.
      2: { symmetry. apply andb_true_iff. unfold MINORDINAL.
           split; apply Z.leb_le; destruct (weekday d =? 5); lia. }
      unfold ret. apply IH; auto; try lia.
      all: rewrite Hr, Hnext; destruct (weekday d =? 5); lia.
Qed.

End WellFormed.

Section Stepping.
Context {env : Env}.
Import ThreeWeekPlan.

(** C8.  Whenever the scheduling loop stops, the plan items it has handled
    are item 0, 1, 2, ... in order, each paired with a date such that every
    date is a Monday-to-Friday date, the first is the first such date at or
    after the start, and each next one is the first such date strictly after
    the one before: only Saturdays and Sundays are passed over. *)
Theorem business_day_stepping
    (PLAN : list plan_item) (start : Z) (fuel : nat) (w w' : World)
    (r : res unit) :
  while_loop fuel PLAN 0 start w = Some (r, w') ->
  exists dates,
    snd (schedule_days PLAN dates w) = w' /\
    (List.length dates <= List.length PLAN)%nat /\
    (r = Ok tt -> List.length dates = List.length PLAN) /\
    Forall (fun d => 0 <= weekday d < 5) dates /\
    (forall b, hd_error dates = Some b -> first_business_day_from start b) /\
    (forall n a b, nth_error dates n = Some a ->
                   nth_error dates (S n) = Some b ->
                   next_business_day a b).
Proof.
  intros H. apply while_loop_dates in H.
  destruct H as [dates [Hc [Hl [Hsnd Hok]]]]. simpl in *.
  rewrite Nat.sub_0_r in *.
  exists dates. split; [exact Hsnd|]. split; [exact Hl|].
  split; [intros Hr; now destruct (Hok Hr)|].
  split; [|split].
  - eapply Forall_impl; [|exact (chain_weekdays _ _ Hc)]. simpl.
    intros d Hd. pose proof (weekday_range d). lia.
  - intros b Hb. destruct dates as [|x rest]; [discriminate|].
    simpl in Hb. inversion Hb; subst. now inversion Hc.
  - intros n a b Ha Hb. eapply chain_consecutive; eassumption.
Qed.

(** C10, as the code has it.  The scheduling loop ends for every start
    date, normally or with an exception: with fuel for three iterations per
    plan item and one more it always returns.  When it returns normally,
    every plan item has been scheduled, each on a date of its own; and it
    does return normally when the service is reliable and the dates it walks
    through stay below [date.max]. *)
Theorem scheduling_loop_terminates_and_covers
    (PLAN : list plan_item) (start : Z) (fuel : nat) (w : World) :
  (3 * List.length PLAN + 1 <= fuel)%nat ->
  exists r w',
    while_loop fuel PLAN 0 start w = Some (r, w') /\
    (r = Ok tt ->
     exists dates,
       List.length dates = List.length PLAN /\
       NoDup dates /\
       schedule_days PLAN dates w = (Ok tt, w')) /\
    (reliable env -> well_formed w -> 0 <= start ->
     start + 3 * Z.of_nat (List.length PLAN) <= MAXORDINAL ->
     r = Ok tt).
Proof.
  intros Hf.
  pose proof (iterations_bound (List.length PLAN - 0) start) as Hb.
  rewrite Nat.sub_0_r in Hb.
  destruct (while_loop_terminates fuel PLAN 0%nat start w) as [r [w' H]];
    [lia | rewrite Nat.sub_0_r; lia |].
  exists r, w'. split; [exact H|]. split.
  - intros Hr. apply while_loop_dates in H.
    destruct H as [dates [Hc [_ [_ Hok]]]].
    destruct (Hok Hr) as [Hlen Hrun]. simpl in *. rewrite Nat.sub_0_r in Hlen.
    exists dates. split; [exact Hlen|]. split; [|exact Hrun].
    eapply chain_NoDup; eassumption.
  - intros Hrel Hwf Hs Hmax.
    destruct (while_loop_completes fuel PLAN Hrel 0%nat start w) as [w2 H2];
      auto; try lia.
    + rewrite Nat.sub_0_r; lia.
    + rewrite Nat.sub_0_r; lia.
    + rewrite H in H2. now inversion H2.
Qed.

End Stepping.

Lemma business_day_stepping_witness :
  let env := winter never in
  exists dates,
    snd (schedule_days plan3 dates empty_world)
      = world_of (ThreeWeekPlan.while_loop 6 plan3 0 saturday empty_world) /\
    (List.length dates <= List.length plan3)%nat /\
    (Ok tt = Ok tt -> List.length dates = List.length plan3) /\
    Forall (fun d => 0 <= weekday d < 5) dates /\
    (forall b, hd_error dates = Some b -> first_business_day_from saturday b) /\
    (forall n a b, nth_error dates n = Some a ->
                   nth_error dates (S n) = Some b ->
                   next_business_day a b).
Proof.
  intros env.
  apply (@business_day_stepping env plan3 saturday 6 empty_world).
  vm_compute. reflexivity.
Defined.

Lemma scheduling_loop_terminates_and_covers_witness :
  let env := winter never in
  exists r w',
    ThreeWeekPlan.while_loop 10 plan3 0 saturday empty_world = Some (r, w') /\
    (r = Ok tt ->
     exists dates,
       List.length dates = List.length plan3 /\
       NoDup dates /\
       schedule_days plan3 dates empty_world = (Ok tt, w')) /\
    (reliable env -> well_formed empty_world -> 0 <= saturday ->
     saturday + 3 * Z.of_nat (List.length plan3) <= MAXORDINAL ->
     r = Ok tt).
Proof.
  intros env.
  apply (@scheduling_loop_terminates_and_covers env plan3 saturday 10 empty_world).
  simpl. lia.
Defined.

(** C10 as stated fails on the code: started on [date.max], a Friday, the
    loop schedules the first of three plan items and ends with
    [OverflowError] when it steps to the next day; and when the service
    refuses the first request the loop ends with no item scheduled. *)
Lemma loop_can_end_before_the_plan_is_covered :
  List.length plan3 = 3%nat /\
  weekday MAXORDINAL = 4 /\
  (let env := winter never in
   exists w,
     ThreeWeekPlan.while_loop 10 plan3 0 MAXORDINAL empty_world
       = Some (Raise OverflowError, w) /\
     map ev_start (cal w)
       = [datetime MAXORDINAL 8 0; datetime MAXORDINAL 10 30]) /\
  (let env := winter (fun _ => true) in
   let first := CList (datetime monday 8 0) (datetime monday 10 0)
                  "Deep Work Block 1" in
   ThreeWeekPlan.while_loop 10 plan3 0 monday empty_world
     = Some (Raise (HttpError first), log_call empty_world first)).
Proof.
  split; [reflexivity|]. split; [reflexivity|]. split.
  - intros env. eexists. split; vm_compute; reflexivity.
  - vm_compute. reflexivity.
Qed.

(** ** The January expansion *)

Section Expansion.
Context {env : Env}.
Import JanuaryEvents.

Lemma date_add_pure d n : exists r, forall w0, date_add d n w0 = (r, w0).
Proof.
  unfold date_add. destruct ((MINORDINAL <=? d + n) && (d + n <=? MAXORDINAL));
    eexists; reflexivity.
Qed.

(** The expansion reads and writes nothing of the world, and its value does
    not depend on the fuel once there is enough of it. *)
Lemma build_all_events_same fuel1 :
  forall fuel2 s e acc w1 w2 r1 r2 w1' w2',
    build_all_events fuel1 s e acc w1 = Some (r1, w1') ->
    build_all_events fuel2 s e acc w2 = Some (r2, w2') ->
    r1 = r2 /\ w1' = w1 /\ w2' = w2.
Proof.
  induction fuel1 as [|fuel1 IH]; intros [|fuel2] s e acc w1 w2 r1 r2 w1' w2' H1 H2;
    try discriminate.
  simpl in H1, H2.
  destruct (s <=? e).
  - destruct (WEEKDAY_FOCUS (weekday s)) as [theme|].
    + destruct (date_add_pure s 1) as [r Hr].
      rewrite (Hr w1) in H1. rewrite (Hr w2) in H2.
      destruct r as [s'|err].
      * eapply IH; eassumption.
      * inversion H1; inversion H2; subst; auto.
    + inversion H1; inversion H2; subst; auto.
  - inversion H1; inversion H2; subst; auto.
Qed.

Lemma build_all_events_total fuel :
  forall s e acc w,
    (Z.to_nat (e - s + 1) < fuel)%nat ->
    exists r, build_all_events fuel s e acc w = Some (r, w).
Proof.
  induction fuel as [|fuel IH]; intros s e acc w Hf; [lia|].
  simpl. destruct (s <=? e) eqn:Hle; [|eauto].
  apply Z.leb_le in Hle.
  destruct (WEEKDAY_FOCUS (weekday s)) as [theme|]; [|eauto].
  unfold date_add.
  destruct ((MINORDINAL <=? s + 1) && (s + 1 <=? MAXORDINAL)).
  - unfold ret. apply IH. lia.
  - unfold raise. eauto.
Qed.

Lemma add_event_to_google_calendar_unfold ev w :
  add_event_to_google_calendar ev w =
  if fails (insert_of ev) then (Raise (HttpError (insert_of ev)),
                                log_call w (insert_of ev))
  else (Ok tt,
        {| cal := cal w ++ [stored (next_id w)
                              (london_body (ed_summary ev) (ed_start ev)
                                 (ed_end ev) (ed_description ev))];
           next_id := S (next_id w);
           trace := trace w ++ [insert_of ev];
           out := out w ++ [PrintedCreated (next_id w)] |}).
Proof.
  unfold add_event_to_google_calendar, events_insert, bind, request, print,
    insert_of, london_body. simpl.
  destruct (fails _); reflexivity.
Qed.

Lemma insert_all_trace all_events :
  reliable env ->
  forall w, exists w',
    for_each all_events add_event_to_google_calendar w = (Ok tt, w') /\
    trace w' = trace w ++ map insert_of all_events.
Proof.
  intros Hrel. induction all_events as [|ev rest IH]; intros w; simpl.
  - exists w. split; [reflexivity | now rewrite app_nil_r].
  - unfold bind. rewrite add_event_to_google_calendar_unfold, Hrel.
    match goal with |- context [for_each rest _ ?w1] =>
      destruct (IH w1) as [w' [Hrun Htr]] end.
    exists w'. split; [exact Hrun|]. rewrite Htr. simpl.
    now rewrite <- app_assoc.
Qed.

(** C9.  Expanding a date range gives the same list of events, with the
    same summaries, times and order, whatever the world it is run in and
    whatever the fuel (once enough): the expansion depends on the range
    alone and leaves the world untouched.  With a reliable service the
    requests [main] then sends are the inserts of that list, in its order. *)
Theorem expansion_is_deterministic
    (start_date end_date : Z) (fuel1 fuel2 : nat) (w1 w2 : World) :
  (Z.to_nat (end_date - start_date + 1) < fuel1)%nat ->
  (Z.to_nat (end_date - start_date + 1) < fuel2)%nat ->
  exists r,
    build_all_events fuel1 start_date end_date [] w1 = Some (r, w1) /\
    build_all_events fuel2 start_date end_date [] w2 = Some (r, w2) /\
    (forall all_events, r = Ok all_events -> reliable env ->
       trace (world_of (main fuel1 start_date end_date w1))
         = trace w1 ++ map insert_of all_events /\
       trace (world_of (main fuel2 start_date end_date w2))
         = trace w2 ++ map insert_of all_events).
Proof.
  intros Hf1 Hf2.
  destruct (build_all_events_total fuel1 start_date end_date [] w1 Hf1) as [r H1].
  destruct (build_all_events_total fuel2 start_date end_date [] w2 Hf2) as [r2 H2].
  destruct (build_all_events_same _ _ _ _ _ _ _ _ _ _ _ H1 H2) as [<- _].
  exists r. split; [exact H1|]. split; [exact H2|].
  intros all_events -> Hrel. unfold main. rewrite H1, H2. unfold bind.
  destruct (insert_all_trace all_events Hrel w1) as [w1' [-> Ht1]].
  destruct (insert_all_trace all_events Hrel w2) as [w2' [-> Ht2]].
  simpl. auto.
Qed.

End Expansion.

Lemma expansion_is_deterministic_witness :
  let env := winter never in
  exists r,
    JanuaryEvents.build_all_events 32 (date 2025 1 1) (date 2025 1 31) []
      empty_world = Some (r, empty_world) /\
    JanuaryEvents.build_all_events 40 (date 2025 1 1) (date 2025 1 31) []
      dup_world = Some (r, dup_world) /\
    (forall all_events, r = Ok all_events -> reliable env ->
       trace (world_of (JanuaryEvents.main 32 (date 2025 1 1) (date 2025 1 31)
                          empty_world))
         = trace empty_world ++ map insert_of all_events /\
       trace (world_of (JanuaryEvents.main 40 (date 2025 1 1) (date 2025 1 31)
                          dup_world))
         = trace dup_world ++ map insert_of all_events).
Proof.
  intros env.
  apply (@expansion_is_deterministic env (date 2025 1 1) (date 2025 1 31) 32 40
           empty_world dup_world); vm_compute; lia.
Defined.

(** ** Deleting the matches of a slot *)

Lemma insert_by_start_perm x l : Permutation (insert_by_start x l) (x :: l).
Proof.
  induction l as [|y l IH]; simpl; [reflexivity|].
  destruct (ev_start x <=? ev_start y); [reflexivity|].
  rewrite IH. apply perm_swap.
Qed.

Lemma sort_by_start_perm l : Permutation (sort_by_start l) l.
Proof.
  induction l as [|x l IH]; simpl; [reflexivity|].
  rewrite insert_by_start_perm. now constructor.
Qed.

(** Dropping events keeps the ids unique. *)
Lemma filter_keeps_ids_unique (keep : event -> bool) (c : list event) :
  NoDup (map ev_id c) -> NoDup (map ev_id (filter keep c)).
Proof.
  induction c as [|x c IH]; simpl; intros Hnd; [constructor|].
  inversion Hnd as [|? ? Hfresh Hrest]; subst.
  destruct (keep x); simpl; [|auto].
  constructor; [|auto].
  intros Hin. apply Hfresh.
  apply in_map_iff in Hin. destruct Hin as [y [Hy Hin]].
  apply filter_In in Hin. rewrite <- Hy. apply in_map. tauto.
Qed.

Section Delete.
Context {env : Env}.

Lemma listing_NoDup s e q c :
  NoDup (map ev_id c) -> NoDup (map ev_id (listing s e q c)).
Proof.
  intros H. unfold listing.
  eapply Permutation_NoDup.
  - apply Permutation_map. symmetry. apply sort_by_start_perm.
  - now apply filter_keeps_ids_unique.
Qed.

Lemma listing_In s e q c x :
  In x (listing s e q c) <->
  In x c /\ in_window s e x && text_search q x = true.
Proof. unfold listing. now rewrite sort_by_start_In, filter_In. Qed.

Lemma events_delete_ok i w :
  fails (CDelete i) = false -> existsb (has_id i) (cal w) = true ->
  events_delete i w =
  (Ok tt, with_cal (log_call w (CDelete i))
            (filter (fun e => negb (has_id i e)) (cal w))).
Proof.
  intros Hf Hex. unfold events_delete, bind, request. rewrite Hf. simpl.
  now rewrite Hex.
Qed.

(** The body of the deletion loop, over the listed events [L]. *)
Lemma delete_loop_ok (L : list event) :
  reliable env ->
  forall w,
    NoDup (map ev_id (cal w)) ->
    NoDup (map ev_id L) ->
    (forall x, In x L -> In (ev_id x) (map ev_id (cal w))) ->
    for_each L (fun event =>
      let summary := summary_of event in
      if String.eqb (lower summary) "marketing & outreach" then
        let event_id := ev_id event in
        events_delete event_id ;;;
        print (PrintedDeleted summary event_id)
      else ret tt) w
    = (Ok tt,
       {| cal := filter (fun y => negb (existsb (has_id (ev_id y))
                                          (filter marketing_check L))) (cal w);
          next_id := next_id w;
          trace := trace w ++ map (fun x => CDelete (ev_id x))
                                  (filter marketing_check L);
          out := out w ++ map (fun x => PrintedDeleted (summary_of x) (ev_id x))
                              (filter marketing_check L) |}).
Proof.
  intros Hrel. induction L as [|x L IH]; intros w Hnd HndL Hin; simpl.
  - unfold ret. f_equal. destruct w; simpl. f_equal.
    + clear. induction cal0 as [|y c IHc]; simpl; congruence.
    + now rewrite app_nil_r.
    + now rewrite app_nil_r.
  - unfold bind. fold (marketing_check x).
    inversion HndL as [|? ? HxL HndL']; subst.
    destruct (marketing_check x) eqn:Hchk.
    + assert (Hex : existsb (has_id (ev_id x)) (cal w) = true).
      { specialize (Hin x (or_introl eq_refl)). apply in_map_iff in Hin.
        destruct Hin as [y [Hy Hyin]]. apply existsb_exists. exists y.
        split; [exact Hyin | now apply has_id_true]. }
      rewrite (events_delete_ok _ _ (Hrel _) Hex). simpl.
      rewrite IH; simpl.
      * f_equal. f_equal.
        -- rewrite filter_filter. apply filter_ext. intros y.
           unfold has_id. rewrite (Nat.eqb_sym (ev_id x) (ev_id y)).
           destruct (ev_id y =? ev_id x)%nat; reflexivity.
        -- now rewrite <- app_assoc.
        -- now rewrite <- app_assoc.
      * now apply filter_keeps_ids_unique.
      * exact HndL'.
      * intros z Hz. specialize (Hin z (or_intror Hz)).
        apply in_map_iff in Hin. destruct Hin as [y [Hy Hyin]].
        apply in_map_iff. exists y. split; [exact Hy|].
        apply filter_In. split; [exact Hyin|].
        apply negb_true_iff. apply Nat.eqb_neq. intros Heq.
        apply HxL. apply in_map_iff. exists z. split; [congruence | exact Hz].
    + unfold ret. rewrite IH; auto.
      intros z Hz. apply Hin. now right.
Qed.

(** With a reliable service, one call deletes exactly the events of the
    calendar that are listed for the window and pass the client-side test. *)
Lemma delete_existing_ok s e w :
  reliable env -> NoDup (map ev_id (cal w)) ->
  MarketingQ1.delete_existing_marketing_events s e w
  = (Ok tt,
     {| cal := filter (fun y => negb (deleted_by s e y)) (cal w);
        next_id := next_id w;
        trace := trace w ++ CList s e title ::
                   map (fun x => CDelete (ev_id x))
                       (filter marketing_check (listing s e title (cal w)));
        out := out w ++ map (fun x => PrintedDeleted (summary_of x) (ev_id x))
                            (filter marketing_check (listing s e title (cal w))) |}).
Proof.
  intros Hrel Hnd.
  unfold MarketingQ1.delete_existing_marketing_events, events_list, bind, request.
  rewrite Hrel. simpl. fold title.
  rewrite delete_loop_ok; simpl; auto.
  - f_equal. f_equal.
    + apply filter_ext_in. intros y Hy. f_equal.
      unfold deleted_by.
      destruct (existsb _ _) eqn:Ex.
      * apply existsb_exists in Ex. destruct Ex as [z [Hz Hid]].
        apply filter_In in Hz. destruct Hz as [Hz Hchk].
        apply listing_In in Hz. destruct Hz as [Hzin Hzw].
        apply has_id_true in Hid.
        assert (z = y) by (apply (unique_id (cal w)); auto). subst z.
        now rewrite Hzw, Hchk.
      * destruct (in_window s e y && text_search title y) eqn:Hw;
          [|reflexivity].
        destruct (marketing_check y) eqn:Hchk; [|reflexivity].
        exfalso. assert (Hf : existsb (has_id (ev_id y))
                   (filter marketing_check (listing s e title (cal w))) = true).
        { apply existsb_exists. exists y. split; [|now apply has_id_true].
          apply filter_In. split; [|exact Hchk]. apply listing_In. auto. }
        congruence.
    + now rewrite <- app_assoc.
  - now apply listing_NoDup.
  - intros x Hx. apply listing_In in Hx. apply in_map. tauto.
Qed.

End Delete.

(** ** Replace mode, one slot *)



Lemma winter_lowers_title (faulty : call -> bool) : lowers_title (winter faulty).
Proof. reflexivity. Qed.

Section Replace.
Context {env : Env}.

Lemma marketing_create_event_unfold (summary : string) (s e : Z) (d : string)
    (w : World) :
  MarketingQ1.create_event summary s e d w =
  let c := CInsert (london_body summary s e d) in
  if fails c then (Raise (HttpError c), log_call w c)
  else (Ok tt,
        {| cal := cal w ++ [stored (next_id w) (london_body summary s e d)];
           next_id := S (next_id w);
           trace := trace w ++ [c];
           out := out w ++ [PrintedCreated (next_id w)] |}).
Proof. exact (create_event_unfold summary s e d w). Qed.

Lemma marketing_check_exact x :
  lowers_title env -> marketing_check x = exact title x.
Proof. intros H. unfold marketing_check, exact. now rewrite H. Qed.

Lemma deleted_by_hit s e x :
  search_complete env -> lowers_title env ->
  deleted_by s e x = hit title s e x.
Proof.
  intros Hs Hl. unfold deleted_by, hit. rewrite (marketing_check_exact x Hl).
  destruct (in_window s e x); simpl; [|reflexivity].
  destruct (exact title x) eqn:E; [|apply andb_false_r].
  apply String.eqb_eq in E. now rewrite (Hs _ _ E).
Qed.

(** The freshly created event answers the query of its own slot. *)
Lemma stored_hits_own_slot summary s e d n :
  london_on_utc env -> s < e ->
  hit summary s e (stored n (london_body summary s e d)) = true.
Proof.
  intros Hutc Hlt. unfold hit, in_window, exact, stored, summary_of. simpl.
  rewrite !Hutc. rewrite String.eqb_refl, andb_true_r.
  apply andb_true_iff. split; apply Z.ltb_lt; lia.
Qed.

Lemma replace_slot_ok s e d w :
  reliable env -> NoDup (map ev_id (cal w)) ->
  replace_slot s e d w
  = (Ok tt,
     {| cal := filter (fun y => negb (deleted_by s e y)) (cal w)
               ++ [stored (next_id w) (london_body title s e d)];
        next_id := S (next_id w);
        trace := trace w ++ CList s e title ::
                   map (fun x => CDelete (ev_id x))
                       (filter marketing_check (listing s e title (cal w)))
                   ++ [CInsert (london_body title s e d)];
        out := (out w ++ map (fun x => PrintedDeleted (summary_of x) (ev_id x))
                  (filter marketing_check (listing s e title (cal w))))
               ++ [PrintedCreated (next_id w)] |}).
Proof.
  intros Hrel Hnd. unfold replace_slot, bind.
  rewrite delete_existing_ok by assumption.
  rewrite marketing_create_event_unfold. simpl. rewrite Hrel. simpl.
  f_equal. f_equal. rewrite <- app_assoc. reflexivity.
Qed.


End Replace.



(** ** Runs of update-or-create blocks *)

Lemma for_each_app {A} (xs ys : list A) (body : A -> M unit) (w : World) :
  for_each (xs ++ ys) body w = (for_each xs body ;;; for_each ys body) w.
Proof.
  revert w. induction xs as [|x xs IH]; intros w; simpl.
  - reflexivity.
  - unfold bind in *. destruct (body x w) as [[[]|err] w1]; [|reflexivity].
    apply IH.
Qed.

Lemma for_each_flat_map {A B} (f : A -> list B) (xs : list A)
    (body : B -> M unit) (w : World) :
  for_each (flat_map f xs) body w
  = for_each xs (fun x => for_each (f x) body) w.
Proof.
  revert w. induction xs as [|x xs IH]; intros w; simpl; [reflexivity|].
  rewrite for_each_app. unfold bind.
  destruct (for_each (f x) body w) as [[[]|err] w1]; [apply IH | reflexivity].
Qed.

Lemma for_each_ext_in {A} (xs : list A) (f g : A -> M unit) :
  (forall x, In x xs -> forall w, f x w = g x w) ->
  forall w, for_each xs f w = for_each xs g w.
Proof.
  induction xs as [|x xs IH]; intros H w; [reflexivity|].
  change (for_each (x :: xs) f w) with ((f x ;;; for_each xs f) w).
  change (for_each (x :: xs) g w) with ((g x ;;; for_each xs g) w).
  unfold bind. rewrite (H x (or_introl eq_refl) w).
  destruct (g x w) as [[[]|err] w1]; [|reflexivity].
  apply IH. intros y Hy. apply H. now right.
Qed.

Lemma redescribe_other i d e : ev_id e <> i -> redescribe i d e = e.
Proof.
  intros H. unfold redescribe.
  destruct (has_id i e) eqn:E; [|reflexivity].
  apply has_id_true in E. contradiction.
Qed.

Lemma map_redescribe_none i d l :
  Forall (fun e => ev_id e <> i) l -> map (redescribe i d) l = l.
Proof.
  induction 1 as [|x l Hx _ IH]; simpl; [reflexivity|].
  now rewrite IH, redescribe_other.
Qed.

Section Runs.
Context {env : Env}.
Hypothesis Hrel : reliable env.
Hypothesis Hsearch : search_complete env.
Hypothesis Hutc : london_on_utc env.

Lemma main_as_blocks SCHEDULE w :
  DeepWorkJan.main SCHEDULE w
  = (for_each (blocks_of SCHEDULE) upsert ;;; print PrintedDone) w.
Proof.
  unfold DeepWorkJan.main, blocks_of, bind.
  rewrite for_each_flat_map.
  replace (for_each SCHEDULE (fun x => for_each (blocks_of_day x) upsert) w)
    with (for_each SCHEDULE DeepWorkJan.process_day w); [reflexivity|].
  revert w. induction SCHEDULE as [|d rest IH]; intros w; simpl; [reflexivity|].
  unfold bind at 1 3. unfold DeepWorkJan.process_day at 1.
  unfold upsert, bind, ret. simpl.
  destruct (DeepWorkJan.handle_block (DeepWorkJan.block1_title d) _ _ _ w)
    as [[[]|err] w1]; [|reflexivity].
  destruct (DeepWorkJan.handle_block (DeepWorkJan.block2_title d) _ _ _ w1)
    as [[[]|err] w2]; [apply IH | reflexivity].
Qed.

Lemma upsert_world_wf b w : well_formed w -> well_formed (upsert_world b w).
Proof.
  intros H. unfold upsert_world. destruct (target_of b (cal w));
    [now apply updated_world_wf | now apply created_world_wf].
Qed.

Lemma run_blocks_wf bs : forall w, well_formed w -> well_formed (run_blocks bs w).
Proof.
  induction bs as [|b bs IH]; intros w H; simpl; [exact H|].
  apply IH. now apply upsert_world_wf.
Qed.

Lemma run_blocks_ok bs :
  forall w, well_formed w ->
            for_each bs upsert w = (Ok tt, run_blocks bs w).
Proof.
  induction bs as [|b bs IH]; intros w Hwf; simpl; [reflexivity|].
  unfold bind. unfold upsert at 1.
  rewrite handle_block_reliable by (auto; apply Hwf).
  fold (target_of b (cal w)). fold (upsert_world b w).
  apply IH. now apply upsert_world_wf.
Qed.

(** Blocks with the same window and the same lower-cased summary have the
    same matches. *)
Lemma hits_same_key a b x :
  b_start a = b_start b -> b_end a = b_end b ->
  lower (b_summary a) = lower (b_summary b) ->
  hits a x = hits b x.
Proof.
  intros Hs He Hl. unfold hits, hit, exact. now rewrite Hs, He, Hl.
Qed.

Lemma target_of_first_hit b c :
  target_of b c = hd_error (sort_by_start (filter (hits b) c)).
Proof. unfold target_of. now rewrite (target_is_first_hit Hsearch). Qed.

Lemma target_of_same_key a b c :
  (forall x, hits a x = hits b x) -> target_of a c = target_of b c.
Proof.
  intros H. rewrite !target_of_first_hit. f_equal. f_equal.
  now apply filter_ext.
Qed.

Lemma fresh_event_hits a b n :
  hits a (fresh_event b n) = true ->
  b_start a < b_end b /\ b_start b < b_end a /\
  lower (b_summary b) = lower (b_summary a).
Proof.
  unfold hits, hit, in_window, exact, fresh_event, stored, summary_of. simpl.
  rewrite !Hutc. intros H. apply andb_prop in H. destruct H as [Hw Hx].
  apply andb_prop in Hw. destruct Hw as [H1 H2].
  apply Z.ltb_lt in H1, H2. apply String.eqb_eq in Hx. auto.
Qed.

Lemma fresh_event_hits_itself b n :
  b_start b < b_end b -> hits b (fresh_event b n) = true.
Proof. intros H. now apply stored_hits_own_slot. Qed.

(** A block that finds nothing creates an event that no block with a target
    takes for its own. *)
Lemma fresh_event_misses bs a b c n :
  grid bs -> In a bs -> In b bs ->
  target_of b c = None -> target_of a c <> None ->
  hits a (fresh_event b n) = false.
Proof.
  intros [_ Hcompat] Ha Hb Hnone Hsome.
  destruct (hits a (fresh_event b n)) eqn:E; [|reflexivity].
  exfalso. apply fresh_event_hits in E. destruct E as [H1 [H2 Hl]].
  destruct (Hcompat a b Ha Hb H2 H1) as [Hs He].
  apply Hsome. rewrite <- Hnone. apply target_of_same_key.
  intros x. now apply hits_same_key.
Qed.

Lemma tid_some b c x : target_of b c = Some x -> tid b c = ev_id x.
Proof. unfold tid. now intros ->. Qed.

(** One step moves no target that exists, up to the description. *)
Lemma upsert_world_keeps_target bs a b w x :
  grid bs -> In a bs -> In b bs ->
  target_of a (cal w) = Some x ->
  exists x', target_of a (cal (upsert_world b w)) = Some x' /\
             ev_id x' = ev_id x.
Proof.
  intros Hg Ha Hb Hx. unfold upsert_world.
  destruct (target_of b (cal w)) as [y|] eqn:Hy; simpl.
  - unfold target_of in *. rewrite (target_redescribe Hsearch), Hx. simpl.
    eexists. split; [reflexivity | apply redescribe_id].
  - exists x. split; [|reflexivity].
    unfold target_of in *. rewrite (target_app_miss Hsearch); [exact Hx|].
    apply (fresh_event_misses bs a b (cal w) (next_id w) Hg Ha Hb Hy).
    unfold target_of. congruence.
Qed.

Lemma run_blocks_keeps_target bs a bs' :
  grid bs -> In a bs -> incl bs' bs ->
  forall w x, target_of a (cal w) = Some x ->
  exists x', target_of a (cal (run_blocks bs' w)) = Some x' /\
             ev_id x' = ev_id x.
Proof.
  intros Hg Ha. induction bs' as [|b bs' IH]; intros Hincl w x Hx; simpl.
  - eauto.
  - destruct (upsert_world_keeps_target bs a b w x Hg Ha) as [x1 [H1 Hid1]];
      auto. { apply Hincl. now left. }
    destruct (IH (fun z Hz => Hincl z (or_intror Hz)) _ _ H1) as [x' [H' Hid']].
    exists x'. split; [exact H' | congruence].
Qed.

End Runs.

(** ** Assignments of descriptions *)

Lemma assign_map A : forall c, assign c A = map (reassign A) c.
Proof.
  induction A as [|p A IH]; intros c; simpl.
  - symmetry. apply map_id.
  - unfold assign in *. simpl. rewrite IH, map_map. reflexivity.
Qed.

Lemma reassign_id A : forall e, ev_id (reassign A e) = ev_id e.
Proof.
  induction A as [|p A IH]; intros e; simpl; [reflexivity|].
  unfold reassign in *. simpl. now rewrite IH, redescribe_id.
Qed.

Lemma reassign_last A :
  forall e, reassign A e =
            match last_assigned A (ev_id e) with
            | Some d => DeepWorkJan.set_description e d
            | None => e
            end.
Proof.
  induction A as [|[j d] A IH]; intros e; [reflexivity|].
  unfold reassign in *. simpl. rewrite IH, redescribe_id.
  destruct (last_assigned A (ev_id e)) as [d'|].
  - unfold redescribe. destruct (has_id j e); reflexivity.
  - unfold redescribe, has_id. destruct (ev_id e =? j)%nat; reflexivity.
Qed.

Lemma reassign_twice A e : reassign A (reassign A e) = reassign A e.
Proof.
  rewrite (reassign_last A (reassign A e)), reassign_id.
  rewrite (reassign_last A e).
  destruct (last_assigned A (ev_id e)); reflexivity.
Qed.

(** Replaying a sequence of assignments on its own result changes nothing. *)
Lemma assign_twice A c : assign (assign c A) A = assign c A.
Proof.
  rewrite !assign_map, map_map. apply map_ext. intros e. apply reassign_twice.
Qed.

Lemma assign_cons c p A :
  assign c (p :: A) = assign (map (redescribe (fst p) (snd p)) c) A.
Proof. reflexivity. Qed.

(** ** A run is a sequence of assignments *)

Section Replay.
Context {env : Env}.
Hypothesis Hrel : reliable env.
Hypothesis Hsearch : search_complete env.
Hypothesis Hutc : london_on_utc env.

Lemma upsert_world_gives_target B b w :
  grid B -> In b B -> target_of b (cal w) = None ->
  target_of b (cal (upsert_world b w)) = Some (fresh_event b (next_id w)).
Proof.
  intros [Hlt _] Hb Hnone. unfold upsert_world. rewrite Hnone. simpl.
  unfold target_of in *. apply (target_app_first Hsearch); [exact Hnone|].
  apply (fresh_event_hits_itself Hutc). auto.
Qed.

(** After a run every block of the run has a target. *)
Lemma closed_after_run B bs :
  grid B -> incl bs B ->
  forall w, closed bs (cal (run_blocks bs w)).
Proof.
  intros Hg. induction bs as [|a rest IH]; intros Hincl w b Hb; [destruct Hb|].
  simpl. assert (Hincl' : incl rest B) by (intros z Hz; apply Hincl; now right).
  destruct Hb as [<-|Hb]; [|now apply IH].
  assert (Ha : In a B) by (apply Hincl; now left).
  assert (Hone : exists x, target_of a (cal (upsert_world a w)) = Some x).
  { destruct (target_of a (cal w)) as [x|] eqn:Hx.
    - destruct (upsert_world_keeps_target Hsearch Hutc B a a w x Hg Ha Ha Hx)
        as [x' [H' _]]. eauto.
    - rewrite (upsert_world_gives_target B a w Hg Ha Hx). eauto. }
  destruct Hone as [x Hx].
  destruct (run_blocks_keeps_target Hsearch Hutc B a rest Hg Ha Hincl' _ _ Hx)
    as [x' [H' _]].
  congruence.
Qed.

Lemma run_blocks_as_assign B bs :
  grid B -> incl bs B ->
  forall w, well_formed w ->
  exists N,
    cal (run_blocks bs w)
      = assign (cal w ++ N) (assignments bs (cal (run_blocks bs w))) /\
    Forall (fun e => (next_id w <= ev_id e)%nat) N /\
    next_id (run_blocks bs w) = (next_id w + List.length N)%nat /\
    (closed bs (cal w) -> N = []).
Proof.
  intros Hg. induction bs as [|a rest IH]; intros Hincl w Hwf.
  - exists []. simpl. rewrite app_nil_r. repeat split; auto.
  - assert (Hincl' : incl rest B) by (intros z Hz; apply Hincl; now right).
    assert (Ha : In a B) by (apply Hincl; now left).
    simpl run_blocks.
    pose proof (upsert_world_wf a w Hwf) as Hwf1.
    destruct (IH Hincl' (upsert_world a w) Hwf1)
      as [N' [Hcal [Hids [Hnext Hclosed]]]].
    set (w' := run_blocks rest (upsert_world a w)) in *.
    change (assignments (a :: rest) (cal w'))
      with ((tid a (cal w'), b_desc a) :: assignments rest (cal w')).
    destruct Hwf as [Hnd Hlt].
    destruct (target_of a (cal w)) as [x|] eqn:Hx.
    + exists N'.
      assert (Hcal1 : cal (upsert_world a w)
                      = map (redescribe (ev_id x) (b_desc a)) (cal w)).
      { unfold upsert_world. now rewrite Hx. }
      assert (Hn1 : next_id (upsert_world a w) = next_id w).
      { unfold upsert_world. now rewrite Hx. }
      assert (Htid : tid a (cal w') = ev_id x).
      { destruct (upsert_world_keeps_target Hsearch Hutc B a a w x Hg Ha Ha Hx)
          as [x1 [H1 Hid1]].
        destruct (run_blocks_keeps_target Hsearch Hutc B a rest Hg Ha Hincl' _ _ H1)
          as [x2 [H2 Hid2]].
        fold w' in H2. rewrite (tid_some _ _ _ H2). congruence. }
      rewrite assign_cons. simpl fst. simpl snd. rewrite Htid, map_app.
      assert (HN : map (redescribe (ev_id x) (b_desc a)) N' = N').
      { apply map_redescribe_none. eapply Forall_impl; [|exact Hids].
        simpl. intros e He. rewrite Hn1 in He.
        apply (target_stored) in Hx. destruct Hx as [Hxin _].
        rewrite Forall_forall in Hlt. specialize (Hlt _ Hxin). lia. }
      rewrite HN, <- Hcal1.
      split; [exact Hcal|]. rewrite Hn1 in Hids, Hnext.
      split; [exact Hids|]. split; [exact Hnext|].
      intros Hcl. apply Hclosed. intros b Hb Hnone.
      assert (HbB : In b B) by (apply Hincl'; exact Hb).
      destruct (target_of b (cal w)) as [y|] eqn:Hy.
      * destruct (upsert_world_keeps_target Hsearch Hutc B b a w y Hg HbB Ha Hy)
          as [y' [Hy' _]]. congruence.
      * apply (Hcl b); [now right | exact Hy].
    + exists (fresh_event a (next_id w) :: N').
      assert (Hcal1 : cal (upsert_world a w)
                      = cal w ++ [fresh_event a (next_id w)]).
      { unfold upsert_world. now rewrite Hx. }
      assert (Hn1 : next_id (upsert_world a w) = S (next_id w)).
      { unfold upsert_world. now rewrite Hx. }
      assert (Htid : tid a (cal w') = next_id w).
      { pose proof (upsert_world_gives_target B a w Hg Ha Hx) as H1.
        destruct (run_blocks_keeps_target Hsearch Hutc B a rest Hg Ha Hincl' _ _ H1)
          as [x2 [H2 Hid2]].
        fold w' in H2. rewrite (tid_some _ _ _ H2). exact Hid2. }
      rewrite assign_cons. simpl fst. simpl snd. rewrite Htid, map_app.
      simpl map.
      assert (Hold : map (redescribe (next_id w) (b_desc a)) (cal w) = cal w).
      { apply map_redescribe_none. eapply Forall_impl; [|exact Hlt].
        simpl. intros; lia. }
      assert (HN : map (redescribe (next_id w) (b_desc a)) N' = N').
      { apply map_redescribe_none. eapply Forall_impl; [|exact Hids].
        simpl. intros e He. rewrite Hn1 in He. lia. }
      assert (Hnew : redescribe (next_id w) (b_desc a)
                       (fresh_event a (next_id w)) = fresh_event a (next_id w)).
      { unfold redescribe, has_id, fresh_event, stored. simpl.
        now rewrite Nat.eqb_refl. }
      rewrite Hold, HN, Hnew.
      split.
      { etransitivity; [exact Hcal|]. rewrite Hcal1, <- app_assoc. reflexivity. }
      split.
      { constructor; [simpl; lia|]. eapply Forall_impl; [|exact Hids].
        simpl. intros e He. rewrite Hn1 in He. lia. }
      split.
      { rewrite Hnext, Hn1. simpl. lia. }
      intros Hcl. exfalso. apply (Hcl a); [now left | exact Hx].
Qed.

(** A run from a calendar where every block has a target only lists and
    updates. *)
Lemma closed_run B bs :
  grid B -> incl bs B ->
  forall w, closed B (cal w) ->
  closed B (cal (run_blocks bs w)) /\
  exists t, trace (run_blocks bs w) = trace w ++ t /\ Forall harmless t.
Proof.
  intros Hg. induction bs as [|a rest IH]; intros Hincl w Hcl; simpl.
  - split; [exact Hcl|]. exists []. split; [now rewrite app_nil_r | constructor].
  - assert (Hincl' : incl rest B) by (intros z Hz; apply Hincl; now right).
    assert (Ha : In a B) by (apply Hincl; now left).
    assert (Hcl1 : closed B (cal (upsert_world a w))).
    { intros b Hb Hnone. destruct (target_of b (cal w)) as [y|] eqn:Hy.
      - destruct (upsert_world_keeps_target Hsearch Hutc B b a w y Hg Hb Ha Hy)
          as [y' [Hy' _]]. congruence.
      - now apply (Hcl b). }
    destruct (IH Hincl' _ Hcl1) as [Hcl' [t [Ht Hh]]].
    split; [exact Hcl'|].
    destruct (target_of a (cal w)) as [x|] eqn:Hx; [|now destruct (Hcl a Ha)].
    eexists. split.
    + rewrite Ht. unfold upsert_world. rewrite Hx. simpl.
      rewrite <- app_assoc. reflexivity.
    + simpl. repeat constructor; assumption.
Qed.

End Replay.

(** ** Running the deep-work schedule twice *)

Lemma blocks_of_window SCHEDULE a :
  In a (blocks_of SCHEDULE) ->
  exists d, (b_start a = datetime d 8 0 /\ b_end a = datetime d 10 0) \/
            (b_start a = datetime d 10 30 /\ b_end a = datetime d 12 30).
Proof.
  unfold blocks_of. intros H. apply in_flat_map in H.
  destruct H as [day [_ Ha]]. exists (DeepWorkJan.day_date day).
  destruct Ha as [<-|[<-|[]]]; simpl; auto.
Qed.

Lemma blocks_of_grid SCHEDULE : grid (blocks_of SCHEDULE).
Proof.
  split.
  - intros a Ha. destruct (blocks_of_window _ _ Ha) as [d [[-> ->]|[-> ->]]];
      unfold datetime; lia.
  - intros a b Ha Hb.
    destruct (blocks_of_window _ _ Ha) as [d [[Ha1 Ha2]|[Ha1 Ha2]]];
    destruct (blocks_of_window _ _ Hb) as [d' [[Hb1 Hb2]|[Hb1 Hb2]]];
    unfold compatible; rewrite Ha1, Ha2, Hb1, Hb2; unfold datetime; lia.
Qed.

Section Rerun.
Context {env : Env}.
Hypothesis Hrel : reliable env.
Hypothesis Hsearch : search_complete env.
Hypothesis Hutc : london_on_utc env.

(** A second run of the same blocks on the calendar the first run left only
    lists and updates, and leaves that calendar as it found it. *)
Lemma run_blocks_twice bs w0 w1 :
  grid bs -> well_formed w0 -> well_formed w1 ->
  cal w1 = cal (run_blocks bs w0) ->
  cal (run_blocks bs w1) = cal w1 /\
  next_id (run_blocks bs w1) = next_id w1 /\
  exists t, trace (run_blocks bs w1) = trace w1 ++ t /\ Forall harmless t.
Proof.
  intros Hg Hwf0 Hwf1 Hcal.
  assert (Hcl : closed bs (cal w1)).
  { rewrite Hcal. apply (closed_after_run Hsearch Hutc bs bs Hg (incl_refl bs)). }
  destruct (run_blocks_as_assign Hsearch Hutc bs bs Hg (incl_refl bs) w0 Hwf0)
    as [N [Hrun0 _]].
  destruct (run_blocks_as_assign Hsearch Hutc bs bs Hg (incl_refl bs) w1 Hwf1)
    as [N2 [Hrun1 [_ [Hnext HN2]]]].
  rewrite (HN2 Hcl) in Hrun1, Hnext. simpl in Hnext.
  rewrite app_nil_r in Hrun1.
  assert (Hsame : assignments bs (cal (run_blocks bs w1))
                  = assignments bs (cal w1)).
  { apply map_ext_in. intros b Hb. f_equal.
    destruct (target_of b (cal w1)) as [x|] eqn:Hx; [|now destruct (Hcl b Hb)].
    destruct (run_blocks_keeps_target Hsearch Hutc bs b bs Hg Hb (incl_refl bs)
                w1 x Hx) as [x' [H' Hid]].
    rewrite (tid_some _ _ _ H'), (tid_some _ _ _ Hx). exact Hid. }
  split; [|split].
  - rewrite Hrun1, Hsame. rewrite Hcal at 2 3. rewrite <- Hcal in Hrun0.
    rewrite Hcal at 1. rewrite <- Hcal.
    rewrite Hrun0 at 1. rewrite assign_twice. symmetry. exact Hrun0.
  - rewrite Hnext. lia.
  - apply (closed_run Hsearch Hutc bs bs Hg (incl_refl bs) w1 Hcl).
Qed.

End Rerun.

(** ** Runs of replaced slots *)

Section ReplaceRuns.
Context {env : Env}.
Hypothesis Hrel : reliable env.
Hypothesis Hsearch : search_complete env.
Hypothesis Hlower : lowers_title env.
Hypothesis Hutc : london_on_utc env.

Lemma date_add_in_range d n w :
  MINORDINAL <= d + n <= MAXORDINAL -> date_add d n w = (Ok (d + n), w).
Proof.
  intros [H1 H2]. unfold date_add.
  apply Z.leb_le in H1, H2. now rewrite H1, H2.
Qed.

Lemma process_week_as_slots wk w :
  MINORDINAL <= MarketingQ1.start_date wk /\
  MarketingQ1.start_date wk + 4 <= MAXORDINAL ->
  MarketingQ1.process_week wk w = for_each (slots_of_week wk) replace w.
Proof.
  intros [Hlo Hhi].
  unfold MarketingQ1.process_week, slots_of_week, MarketingQ1.weekday_names.
  simpl for_each. unfold MarketingQ1.process_weekday, replace, replace_slot.
  simpl slot_start. simpl slot_end. simpl slot_desc. simpl fst. simpl snd.
  unfold bind.
  repeat (rewrite date_add_in_range by lia;
          match goal with |- context [MarketingQ1.delete_existing_marketing_events ?a ?b ?w0] =>
            destruct (MarketingQ1.delete_existing_marketing_events a b w0)
              as [[[]|?] ?]; [|reflexivity]
          end;
          match goal with |- context [MarketingQ1.create_event ?t ?a ?b ?d ?w0] =>
            change (MarketingQ1.create_event t a b d w0)
              with (MarketingQ1.create_event title a b d w0);
            destruct (MarketingQ1.create_event title a b d w0)
              as [[[]|?] ?]; [|reflexivity]
          end).
  reflexivity.
Qed.

Lemma main_as_slots WEEKS w :
  weeks_in_range WEEKS ->
  MarketingQ1.main WEEKS w
  = (for_each (slots_of WEEKS) replace ;;; print PrintedDone) w.
Proof.
  intros Hr. unfold MarketingQ1.main, slots_of, bind.
  rewrite for_each_flat_map.
  replace (for_each WEEKS (fun x => for_each (slots_of_week x) replace) w)
    with (for_each WEEKS MarketingQ1.process_week w); [reflexivity|].
  apply for_each_ext_in. intros wk Hwk w0.
  apply process_week_as_slots.
  unfold weeks_in_range in Hr. rewrite Forall_forall in Hr. now apply Hr.
Qed.

Lemma hit_any_cons sl rest x :
  hit_any (sl :: rest) x = slot_hit sl x || hit_any rest x.
Proof. reflexivity. Qed.

(** With a reliable service a run of slots keeps the events no slot
    answers and adds the created ones that survive. *)
Lemma replace_all_ok slots :
  forall w, well_formed w ->
  exists w',
    for_each slots replace w = (Ok tt, w') /\
    cal w' = filter (fun x => negb (hit_any slots x)) (cal w)
             ++ created slots (next_id w) /\
    next_id w' = (next_id w + List.length slots)%nat /\
    well_formed w'.
Proof.
  induction slots as [|sl rest IH]; intros w Hwf.
  - exists w. simpl. rewrite app_nil_r, Nat.add_0_r.
    repeat split; try apply Hwf.
    clear. induction (cal w) as [|y c IHc]; simpl; congruence.
  - simpl for_each. unfold bind. unfold replace at 1.
    rewrite replace_slot_ok by (auto; apply Hwf).
    match goal with |- context [for_each rest replace ?w0] =>
      set (w1 := w0) end.
    assert (Hwf1 : well_formed w1).
    { destruct Hwf as [Hnd Hlt]. split; simpl.
      - rewrite map_app. simpl. apply NoDup_app.
        + now apply filter_keeps_ids_unique.
        + repeat constructor; simpl; tauto.
        + intros i Hi [<-|[]]. apply in_map_iff in Hi.
          destruct Hi as [z [Hid Hz]]. apply filter_In in Hz.
          rewrite Forall_forall in Hlt. specialize (Hlt _ (proj1 Hz)). lia.
      - apply Forall_app. split.
        + apply Forall_forall. intros z Hz. apply filter_In in Hz.
          rewrite Forall_forall in Hlt. specialize (Hlt _ (proj1 Hz)). lia.
        + repeat constructor. }
    destruct (IH w1 Hwf1) as [w' [Hrun [Hcal [Hnext Hwf']]]].
    exists w'. split; [exact Hrun|]. split; [|split; [|exact Hwf']].
    + rewrite Hcal. simpl cal. simpl next_id.
      rewrite filter_app, filter_filter, <- app_assoc.
      f_equal.
      apply filter_ext. intros x. rewrite hit_any_cons.
      rewrite (deleted_by_hit _ _ x Hsearch Hlower). unfold slot_hit.
      now rewrite negb_orb.
    + rewrite Hnext. simpl. lia.
Qed.

Lemma hit_any_slot_event slots b n m :
  hit_any slots (slot_event b n) = hit_any slots (slot_event b m).
Proof. reflexivity. Qed.

Lemma created_content slots :
  forall n m, map content (created slots n) = map content (created slots m).
Proof.
  induction slots as [|sl rest IH]; intros n m; simpl; [reflexivity|].
  rewrite (hit_any_slot_event rest sl n m).
  destruct (hit_any rest (slot_event sl m)); simpl; [apply IH|].
  f_equal. apply IH.
Qed.

Lemma slot_event_hits_itself sl n :
  slot_start sl < slot_end sl -> slot_hit sl (slot_event sl n) = true.
Proof. intros H. now apply stored_hits_own_slot. Qed.

Lemma slot_event_hit_iff a b n :
  slot_hit a (slot_event b n) = true <->
  slot_start a < slot_end b /\ slot_start b < slot_end a.
Proof.
  unfold slot_hit, hit, in_window, exact, slot_event, stored, summary_of. simpl.
  rewrite !Hutc, String.eqb_refl, andb_true_r, andb_true_iff, !Z.ltb_lt.
  tauto.
Qed.

Lemma hit_any_true slots x :
  hit_any slots x = true <-> exists sl, In sl slots /\ slot_hit sl x = true.
Proof. unfold hit_any. apply existsb_exists. Qed.

(** Every created event that survives answers one of the slots. *)
Lemma created_are_hit slots :
  (forall a, In a slots -> slot_start a < slot_end a) ->
  forall n x, In x (created slots n) -> hit_any slots x = true.
Proof.
  induction slots as [|sl rest IH]; intros Hlt n x Hx; [destruct Hx|].
  simpl in Hx. apply in_app_or in Hx. rewrite hit_any_cons.
  destruct Hx as [Hx|Hx].
  - destruct (hit_any rest (slot_event sl n)); simpl in Hx; [destruct Hx|].
    destruct Hx as [<-|[]]. rewrite slot_event_hits_itself; [reflexivity|].
    apply Hlt. now left.
  - rewrite (IH (fun a Ha => Hlt a (or_intror Ha)) _ _ Hx). apply orb_true_r.
Qed.

Lemma filter_nil_iff {A} (p : A -> bool) (l : list A) :
  (forall x, In x l -> p x = false) -> filter p l = [].
Proof.
  induction l as [|x l IH]; intros H; simpl; [reflexivity|].
  rewrite (H x (or_introl eq_refl)). apply IH. intros y Hy. apply H. now right.
Qed.

End ReplaceRuns.

Lemma log_line_wf w l : well_formed w -> well_formed (log_line w l).
Proof. intros H. exact H. Qed.

Lemma filter_same_twice {A} (p : A -> bool) (l : list A) :
  filter p (filter p l) = filter p l.
Proof.
  induction l as [|x l IH]; simpl; [reflexivity|].
  destruct (p x) eqn:E; simpl; [rewrite E|]; congruence.
Qed.

Section OnePerSlot.
Context {env : Env}.
Hypothesis Hutc : london_on_utc env.

Lemma same_window_true a b :
  same_window a b = true <->
  slot_start a = slot_start b /\ slot_end a = slot_end b.
Proof. unfold same_window. now rewrite andb_true_iff, !Z.eqb_eq. Qed.

Lemma slot_event_hit_same_window L a b n :
  slot_grid L -> In a L -> In b L ->
  slot_hit a (slot_event b n) = same_window a b.
Proof.
  intros [Hlt Hc] Ha Hb.
  destruct (same_window a b) eqn:E.
  - apply same_window_true in E. destruct E as [Hs He].
    apply (slot_event_hit_iff Hutc). specialize (Hlt a Ha). lia.
  - destruct (slot_hit a (slot_event b n)) eqn:Hh; [|reflexivity].
    apply (slot_event_hit_iff Hutc) in Hh. destruct Hh as [H1 H2].
    rewrite <- E. symmetry. now apply Hc.
Qed.

Lemma hit_any_same_window L slots b n :
  slot_grid L -> incl slots L -> In b L ->
  hit_any slots (slot_event b n) = existsb (fun c => same_window c b) slots.
Proof.
  intros Hg Hincl Hb. unfold hit_any.
  induction slots as [|c rest IH]; simpl; [reflexivity|].
  rewrite (slot_event_hit_same_window L c b n Hg (Hincl c (or_introl eq_refl)) Hb).
  f_equal. apply IH. intros z Hz. apply Hincl. now right.
Qed.

(** Among the created events that survive a run, a slot finds one if its
    window is a window of the run, and none otherwise. *)
Lemma created_count L slots a :
  slot_grid L -> incl slots L -> In a L ->
  forall n,
    List.length (filter (slot_hit a) (created slots n))
    = if existsb (same_window a) slots then 1%nat else 0%nat.
Proof.
  intros Hg Hincl Ha. induction slots as [|b rest IH]; intros n; [reflexivity|].
  assert (Hb : In b L) by (apply Hincl; now left).
  assert (Hincl' : incl rest L) by (intros z Hz; apply Hincl; now right).
  simpl created. rewrite filter_app, length_app, (IH Hincl').
  rewrite (hit_any_same_window L rest b n Hg Hincl' Hb).
  simpl existsb.
  destruct (same_window a b) eqn:Eab; simpl.
  - apply same_window_true in Eab. destruct Eab as [Hs He].
    assert (Hsame : forall l, existsb (fun c => same_window c b) l
                              = existsb (same_window a) l).
    { induction l as [|c l IHl]; simpl; [reflexivity|].
      rewrite IHl. f_equal. unfold same_window. rewrite Hs, He.
      rewrite (Z.eqb_sym (slot_start c)), (Z.eqb_sym (slot_end c)). reflexivity. }
    rewrite Hsame.
    destruct (existsb (same_window a) rest); simpl; [reflexivity|].
    rewrite (slot_event_hit_same_window L a b n Hg Ha Hb).
    assert (Et : same_window a b = true) by (apply same_window_true; auto).
    now rewrite Et.
  - destruct (existsb (fun c => same_window c b) rest); simpl.
    + reflexivity.
    + rewrite (slot_event_hit_same_window L a b n Hg Ha Hb), Eab. reflexivity.
Qed.

Lemma same_window_refl a : same_window a a = true.
Proof. apply same_window_true. auto. Qed.

Lemma existsb_same_window slots a :
  In a slots -> existsb (same_window a) slots = true.
Proof.
  intros H. apply existsb_exists. exists a. split; [exact H|].
  apply same_window_refl.
Qed.

(** The calendar after a second run of the slots, from the calendar after
    the first. *)
Lemma replace_twice_cal slots c0 n0 n1 :
  slot_grid slots ->
  let keep := filter (fun x => negb (hit_any slots x)) in
  let c1 := keep c0 ++ created slots n0 in
  let c2 := keep c1 ++ created slots n1 in
  map content c2 = map content c1 /\
  List.length c2 = List.length c1 /\
  (forall a, In a slots -> List.length (filter (slot_hit a) c1) = 1%nat) /\
  (forall a, In a slots -> List.length (filter (slot_hit a) c2) = 1%nat).
Proof.
  intros Hg keep c1 c2.
  assert (Hkeep : keep c1 = keep c0).
  { unfold c1, keep. rewrite filter_app, filter_same_twice.
    rewrite (filter_nil_iff (fun x => negb (hit_any slots x))
               (created slots n0)); [apply app_nil_r|].
    intros x Hx. rewrite (created_are_hit Hutc slots (proj1 Hg) n0 x Hx).
    reflexivity. }
  assert (Hc2 : c2 = keep c0 ++ created slots n1).
  { unfold c2. now rewrite Hkeep. }
  assert (Hcontent : map content c2 = map content c1).
  { rewrite Hc2. unfold c1. rewrite !map_app.
    now rewrite (created_content slots n1 n0). }
  assert (Hone : forall n a, In a slots ->
            List.length (filter (slot_hit a) (keep c0 ++ created slots n)) = 1%nat).
  { intros n a Ha. rewrite filter_app, length_app.
    unfold keep. rewrite filter_filter.
    rewrite filter_nil_iff.
    - simpl. rewrite (created_count slots slots a Hg (incl_refl _) Ha n).
      now rewrite (existsb_same_window slots a Ha).
    - intros x _. destruct (slot_hit a x) eqn:E; [|apply andb_false_r].
      assert (Hany : hit_any slots x = true).
      { apply hit_any_true. eauto. }
      now rewrite Hany. }
  split; [exact Hcontent|]. split.
  - rewrite <- (length_map content c2), Hcontent. apply length_map.
  - split; intros a Ha; [apply Hone; exact Ha|].
    rewrite Hc2. apply Hone; exact Ha.
Qed.

End OnePerSlot.

Lemma slots_of_window WEEKS a :
  In a (slots_of WEEKS) ->
  exists d, slot_start a = datetime d 16 0 /\ slot_end a = datetime d 18 0.
Proof.
  unfold slots_of. intros H. apply in_flat_map in H.
  destruct H as [wk [_ Ha]]. unfold slots_of_week in Ha.
  apply in_map_iff in Ha. destruct Ha as [p [<- _]]. simpl. eauto.
Qed.

Lemma slots_of_grid WEEKS : slot_grid (slots_of WEEKS).
Proof.
  split.
  - intros a Ha. destruct (slots_of_window _ _ Ha) as [d [-> ->]].
    unfold datetime; lia.
  - intros a b Ha Hb.
    destruct (slots_of_window _ _ Ha) as [d [Ha1 Ha2]].
    destruct (slots_of_window _ _ Hb) as [d' [Hb1 Hb2]].
    rewrite Ha1, Ha2, Hb1, Hb2. intros H1 H2.
    apply andb_true_iff. rewrite !Z.eqb_eq, Ha1, Ha2, Hb1, Hb2.
    unfold datetime in *. lia.
Qed.

(** ** Updates that change nothing *)

Lemma last_assigned_unique A i d :
  NoDup (map fst A) -> In (i, d) A -> last_assigned A i = Some d.
Proof.
  induction A as [|[j d'] A IH]; intros Hnd Hin; [destruct Hin|].
  simpl in *. inversion Hnd as [|? ? Hnotin Hnd']; subst.
  destruct Hin as [Heq|Hin].
  - inversion Heq; subst.
    assert (Hnone : last_assigned A i = None).
    { clear -Hnotin. induction A as [|[k e] A IHA]; simpl in *; [reflexivity|].
      rewrite IHA by tauto.
      destruct (Nat.eqb_spec i k); [subst; tauto | reflexivity]. }
    now rewrite Hnone, Nat.eqb_refl.
  - now rewrite (IH Hnd' Hin).
Qed.

Lemma set_description_same x d :
  ev_description x = Some d -> DeepWorkJan.set_description x d = x.
Proof. destruct x; simpl. intros ->. reflexivity. Qed.

Lemma redescribe_settled c x d :
  NoDup (map ev_id c) -> In x c -> ev_description x = Some d ->
  map (redescribe (ev_id x) d) c = c.
Proof.
  intros Hnd Hx Hd. rewrite <- (map_id c) at 2. apply map_ext_in.
  intros e He. unfold redescribe. destruct (has_id (ev_id x) e) eqn:E;
    [|reflexivity].
  apply has_id_true in E. rewrite (unique_id c e x Hnd He Hx E).
  now apply set_description_same.
Qed.

Section Settled.
Context {env : Env}.
Hypothesis Hrel : reliable env.
Hypothesis Hsearch : search_complete env.
Hypothesis Hutc : london_on_utc env.

(** On a calendar where every block is settled, a run sends listings and
    updates of events as they are stored, and leaves the calendar alone. *)
Lemma settled_run bs :
  forall w, NoDup (map ev_id (cal w)) ->
  (forall b, In b bs -> settled b (cal w)) ->
  cal (run_blocks bs w) = cal w /\
  exists t, trace (run_blocks bs w) = trace w ++ t /\
            Forall (idle_on (cal w)) t.
Proof.
  induction bs as [|a rest IH]; intros w Hnd Hset; simpl.
  - split; [reflexivity|]. exists []. split; [now rewrite app_nil_r | constructor].
  - destruct (Hset a (or_introl eq_refl)) as [x [Hx Hd]].
    pose proof (target_stored _ _ _ _ _ Hx) as [Hxin _].
    assert (Hcal1 : cal (upsert_world a w) = cal w).
    { unfold upsert_world. rewrite Hx. simpl. now apply redescribe_settled. }
    assert (Htr1 : trace (upsert_world a w)
                   = trace w ++ [CList (b_start a) (b_end a) (b_summary a);
                                 CUpdate (ev_id x) x]).
    { unfold upsert_world. rewrite Hx. simpl.
      now rewrite (set_description_same x _ Hd). }
    destruct (IH (upsert_world a w)) as [Hcal [t [Ht Hidle]]].
    + now rewrite Hcal1.
    + intros b Hb. rewrite Hcal1. apply Hset. now right.
    + split; [now rewrite Hcal|].
      eexists. split.
      * rewrite Ht, Htr1, <- app_assoc. reflexivity.
      * simpl. constructor; [exact I|]. constructor; [simpl; auto|].
        now rewrite Hcal1 in Hidle.
Qed.

(** After a run in which no two blocks share a target, every block is
    settled. *)
Lemma settled_after_run bs w0 :
  grid bs -> well_formed w0 ->
  distinct_targets bs (cal (run_blocks bs w0)) ->
  forall b, In b bs -> settled b (cal (run_blocks bs w0)).
Proof.
  intros Hg Hwf Hdistinct b Hb.
  pose proof (closed_after_run Hsearch Hutc bs bs Hg (incl_refl bs) w0 b Hb)
    as Hcl.
  destruct (run_blocks_as_assign Hsearch Hutc bs bs Hg (incl_refl bs) w0 Hwf)
    as [N [Hrun _]].
  set (c1 := cal (run_blocks bs w0)) in *.
  destruct (target_of b c1) as [x|] eqn:Hx; [|contradiction].
  exists x. split; [exact Hx|].
  pose proof (target_stored _ _ _ _ _ Hx) as [Hxin _].
  rewrite Hrun, assign_map in Hxin. apply in_map_iff in Hxin.
  destruct Hxin as [e [He _]].
  rewrite reassign_last in He.
  assert (Hid : ev_id e = ev_id x).
  { rewrite <- He. destruct (last_assigned _ _); reflexivity. }
  assert (Hlast : last_assigned (assignments bs c1) (ev_id e)
                  = Some (b_desc b)).
  { apply last_assigned_unique.
    - unfold assignments. rewrite map_map. exact Hdistinct.
    - unfold assignments. apply in_map_iff. exists b. split; [|exact Hb].
      f_equal. rewrite (tid_some _ _ _ Hx). congruence. }
  rewrite Hlast in He. now rewrite <- He.
Qed.

End Settled.

(** ** Running a script twice *)

Section Idempotence.
Context {env : Env}.

(** C1, as the code has it.  With a reliable service, a text filter that
    loses no exact match and London on UTC, run either script twice in a row
    on a calendar with unique ids.

    Update-or-create: both runs end normally; the second sends only list and
    update requests, no create and no delete, and leaves the calendar exactly
    as the first run left it.  When no two blocks share the event they match,
    every update of the second run sends an event back as it is stored.

    Delete-and-create: both runs end normally; after each of them every slot
    has exactly one event with the title in its window, and the second run
    changes neither the number of events nor, ids apart, what they hold. *)
Theorem rerun_changes_nothing
    (SCHEDULE : list DeepWorkJan.day_info) (WEEKS : list MarketingQ1.week_data)
    (w0 v0 : World) :
  reliable env -> search_complete env -> lowers_title env ->
  london_on_utc env ->
  well_formed w0 -> well_formed v0 -> weeks_in_range WEEKS ->
  (exists w1 w2 t,
      DeepWorkJan.main SCHEDULE w0 = (Ok tt, w1) /\
      DeepWorkJan.main SCHEDULE w1 = (Ok tt, w2) /\
      trace w2 = trace w1 ++ t /\
      Forall harmless t /\
      cal w2 = cal w1 /\
      next_id w2 = next_id w1 /\
      (distinct_targets (blocks_of SCHEDULE) (cal w1) ->
       Forall (idle_on (cal w1)) t)) /\
  (exists v1 v2,
      MarketingQ1.main WEEKS v0 = (Ok tt, v1) /\
      MarketingQ1.main WEEKS v1 = (Ok tt, v2) /\
      (forall sl, In sl (slots_of WEEKS) ->
                  List.length (filter (slot_hit sl) (cal v1)) = 1%nat) /\
      (forall sl, In sl (slots_of WEEKS) ->
                  List.length (filter (slot_hit sl) (cal v2)) = 1%nat) /\
      List.length (cal v2) = List.length (cal v1) /\
      map content (cal v2) = map content (cal v1)).
Proof.
  intros Hrel Hsearch Hlower Hutc Hwf0 Hwfv Hrange. split.
  - set (bs := blocks_of SCHEDULE).
    pose proof (blocks_of_grid SCHEDULE) as Hg. fold bs in Hg.
    set (w1 := log_line (run_blocks bs w0) PrintedDone).
    assert (Hwf1 : well_formed w1).
    { apply log_line_wf. now apply run_blocks_wf. }
    set (w2 := log_line (run_blocks bs w1) PrintedDone).
    destruct (run_blocks_twice Hsearch Hutc bs w0 w1 Hg Hwf0 Hwf1 eq_refl)
      as [Hcal [Hnext [t [Ht Hharmless]]]].
    exists w1, w2, t.
    split. { rewrite main_as_blocks. fold bs. unfold bind.
             now rewrite (run_blocks_ok Hrel bs w0 Hwf0). }
    split. { rewrite main_as_blocks. fold bs. unfold bind.
             now rewrite (run_blocks_ok Hrel bs w1 Hwf1). }
    split; [exact Ht|]. split; [exact Hharmless|].
    split; [exact Hcal|]. split; [exact Hnext|].
    intros Hdistinct.
    pose proof (settled_after_run Hsearch Hutc bs w0 Hg Hwf0 Hdistinct) as Hset.
    destruct (settled_run bs w1 (proj1 Hwf1) Hset) as [_ [t' [Ht' Hidle]]].
    assert (t = t').
    { apply (app_inv_head (trace w1)). rewrite <- Ht, <- Ht'. reflexivity. }
    subst t'. exact Hidle.
  - set (slots := slots_of WEEKS).
    pose proof (slots_of_grid WEEKS) as Hg. fold slots in Hg.
    destruct (replace_all_ok Hrel Hsearch Hlower slots v0 Hwfv)
      as [r1 [Hrun1 [Hcal1 [_ Hwfr1]]]].
    set (v1 := log_line r1 PrintedDone).
    assert (Hwf1 : well_formed v1) by (now apply log_line_wf).
    destruct (replace_all_ok Hrel Hsearch Hlower slots v1 Hwf1)
      as [r2 [Hrun2 [Hcal2 [_ _]]]].
    exists v1, (log_line r2 PrintedDone).
    split. { rewrite (main_as_slots WEEKS v0 Hrange). unfold bind.
             fold slots. now rewrite Hrun1. }
    split. { rewrite (main_as_slots WEEKS v1 Hrange). unfold bind.
             fold slots. now rewrite Hrun2. }
    change (cal (log_line r2 PrintedDone)) with (cal r2).
    change (cal v1) with (cal r1) in *.
    rewrite Hcal2, Hcal1.
    destruct (replace_twice_cal Hutc slots (cal v0) (next_id v0) (next_id v1) Hg)
      as [Hcontent [Hlen [Hone1 Hone2]]].
    auto.
Qed.

End Idempotence.

Lemma winter_well_formed_empty : well_formed empty_world.
Proof. split; constructor. Qed.

Lemma week_one_in_range : weeks_in_range [week_one].
Proof.
  constructor; [|constructor].
  split; apply Z.leb_le; vm_compute; reflexivity.
Qed.

Lemma rerun_changes_nothing_witness :
  let env := winter never in
  (exists w1 w2 t,
      DeepWorkJan.main [day_a; day_b] empty_world = (Ok tt, w1) /\
      DeepWorkJan.main [day_a; day_b] w1 = (Ok tt, w2) /\
      trace w2 = trace w1 ++ t /\
      Forall harmless t /\
      cal w2 = cal w1 /\
      next_id w2 = next_id w1 /\
      (distinct_targets (blocks_of [day_a; day_b]) (cal w1) ->
       Forall (idle_on (cal w1)) t)) /\
  (exists v1 v2,
      MarketingQ1.main [week_one] stale_world = (Ok tt, v1) /\
      MarketingQ1.main [week_one] v1 = (Ok tt, v2) /\
      (forall sl, In sl (slots_of [week_one]) ->
                  List.length (filter (slot_hit sl) (cal v1)) = 1%nat) /\
      (forall sl, In sl (slots_of [week_one]) ->
                  List.length (filter (slot_hit sl) (cal v2)) = 1%nat) /\
      List.length (cal v2) = List.length (cal v1) /\
      map content (cal v2) = map content (cal v1)).
Proof.
  intros env.
  apply (@rerun_changes_nothing env [day_a; day_b] [week_one]
           empty_world stale_world).
  - exact winter_reliable.
  - exact (winter_search_complete never).
  - exact (winter_lowers_title never).
  - exact (winter_on_utc never).
  - exact winter_well_formed_empty.
  - split; simpl.
    + repeat constructor; simpl; intuition discriminate.
    + repeat constructor.
  - exact week_one_in_range.
Defined.

(** C1 as stated fails on the code.  A meeting titled like the first block
    runs from Monday morning to Tuesday morning, so the first block of both
    days matches it.  The first run leaves it with Tuesday's notes; the second
    run first updates it with Monday's notes, which differ from what is
    stored, and then with Tuesday's again.  Nothing is created or deleted and
    the calendar ends as it was, but the first of these updates does not
    carry identical content. *)
Lemma second_run_update_rewrites :
  let env := winter never in
  exists w1 w2 body,
    DeepWorkJan.main [day_a; day_b] span_world = (Ok tt, w1) /\
    DeepWorkJan.main [day_a; day_b] w1 = (Ok tt, w2) /\
    In (CUpdate 1 body) (skipn (List.length (trace w1)) (trace w2)) /\
    ev_description body = Some "A1" /\
    (forall x, In x (cal w1) -> ev_id x = 1%nat ->
               ev_description x = Some "B1") /\
    cal w2 = cal w1.
Proof.
  intros env. eexists. eexists. eexists.
  split; [vm_compute; reflexivity|].
  split; [vm_compute; reflexivity|].
  split; [vm_compute; right; left; reflexivity|].
  split; [reflexivity|].
  split; [|vm_compute; reflexivity].
  intros x Hx Hid. vm_compute in Hx.
  repeat (destruct Hx as [<-|Hx]; [first [reflexivity | discriminate Hid]|]).
  destruct Hx.
Qed.

(** ** Exceptions end the run *)

Lemma matches_split {A} (p : A -> bool) (l : list A) :
  forall pre x post,
    filter p l = pre ++ x :: post ->
    exists l1 l2, l = l1 ++ x :: l2 /\ filter p l1 = pre /\ p x = true.
Proof.
  induction l as [|a l IH]; intros pre x post H; simpl in H.
  - destruct pre; discriminate.
  - destruct (p a) eqn:E.
    + destruct pre as [|b pre]; simpl in H; inversion H; subst.
      * exists [], l. auto.
      * destruct (IH pre x post H2) as [l1 [l2 [-> [H1 Hp]]]].
        exists (b :: l1), l2. simpl. rewrite E, H1. auto.
    + destruct (IH pre x post H) as [l1 [l2 [-> [H1 Hp]]]].
      exists (a :: l1), l2. simpl. rewrite E. auto.
Qed.

Section Abort.
Context {env : Env}.

(** The deletion loop over listed events whose deletes are all answered. *)
Lemma delete_loop_answered (L : list event) (w : World) :
  (forall y, In y (filter marketing_check L) ->
             fails (CDelete (ev_id y)) = false) ->
  NoDup (map ev_id (cal w)) ->
  NoDup (map ev_id L) ->
  (forall x, In x L -> In (ev_id x) (map ev_id (cal w))) ->
  for_each L (fun event =>
    let summary := summary_of event in
    if String.eqb (lower summary) "marketing & outreach" then
      let event_id := ev_id event in
      events_delete event_id ;;;
      print (PrintedDeleted summary event_id)
    else ret tt) w
  = (Ok tt,
     {| cal := filter (fun y => negb (existsb (has_id (ev_id y))
                                        (filter marketing_check L))) (cal w);
        next_id := next_id w;
        trace := trace w ++ map (fun x => CDelete (ev_id x))
                                (filter marketing_check L);
        out := out w ++ map (fun x => PrintedDeleted (summary_of x) (ev_id x))
                            (filter marketing_check L) |}).
Proof.
  intros Hans Hnd HndL Hin.
  etransitivity;
    [|exact (@delete_loop_ok (calm env) L (fun c => eq_refl) w Hnd HndL Hin)].
  apply for_each_ext_in. intros x Hx w0. cbv zeta.
  change (@lower (calm env)) with (@lower env).
  destruct (String.eqb (lower (summary_of x)) "marketing & outreach") eqn:E;
    [|reflexivity].
  unfold bind, events_delete, request. simpl fails.
  rewrite Hans; [reflexivity|].
  apply filter_In. split; [exact Hx | exact E].
Qed.


(** The deletion of a slot's matches, when the listing and every delete it
    leads to are answered, goes as with a service that answers everything. *)
Lemma delete_existing_answered s e w :
  fails (CList s e title) = false ->
  (forall y, In y (filter marketing_check (listing s e title (cal w))) ->
             fails (CDelete (ev_id y)) = false) ->
  MarketingQ1.delete_existing_marketing_events s e w
  = @MarketingQ1.delete_existing_marketing_events (calm env) s e w.
Proof.
  intros Hl Hans.
  unfold MarketingQ1.delete_existing_marketing_events, events_list, bind,
    request. simpl fails. fold title. rewrite Hl.
  apply for_each_ext_in. intros x Hx w0. cbv zeta.
  change (@lower (calm env)) with (@lower env).
  destruct (String.eqb (lower (summary_of x)) "marketing & outreach") eqn:E;
    [|reflexivity].
  unfold bind, events_delete, request. simpl fails.
  rewrite Hans; [reflexivity|].
  apply filter_In. split; [exact Hx | exact E].
Qed.

Lemma replace_slot_refused_delete s e d w pre x post :
  fails (CList s e title) = false ->
  NoDup (map ev_id (cal w)) ->
  filter marketing_check (listing s e title (cal w)) = pre ++ x :: post ->
  (forall y, In y pre -> fails (CDelete (ev_id y)) = false) ->
  fails (CDelete (ev_id x)) = true ->
  replace_slot s e d w
  = (Raise (HttpError (CDelete (ev_id x))),
     {| cal := filter (fun y => negb (existsb (has_id (ev_id y)) pre)) (cal w);
        next_id := next_id w;
        trace := trace w ++ CList s e title ::
                   map (fun y => CDelete (ev_id y)) pre ++ [CDelete (ev_id x)];
        out := out w ++ map (fun y => PrintedDeleted (summary_of y) (ev_id y))
                            pre |}).
Proof.
  intros Hl Hnd Hsplit Hpre Hx.
  destruct (matches_split _ _ _ _ _ Hsplit) as [l1 [l2 [HL [Hf1 Hmx]]]].
  assert (HndL : NoDup (map ev_id (l1 ++ x :: l2))).
  { rewrite <- HL. now apply listing_NoDup. }
  rewrite map_app in HndL. apply NoDup_app_remove_r in HndL.
  assert (Hin : forall y, In y l1 -> In (ev_id y) (map ev_id (cal w))).
  { intros y Hy. apply in_map.
    apply (proj1 (listing_In s e title (cal w) y)).
    rewrite HL. apply in_or_app. now left. }
  assert (Hans : forall y, In y (filter marketing_check l1) ->
                           fails (CDelete (ev_id y)) = false).
  { rewrite Hf1. exact Hpre. }
  pose proof (delete_loop_answered l1 (log_call w (CList s e title))
                Hans Hnd HndL Hin) as Hloop.
  rewrite Hf1 in Hloop.
  unfold replace_slot, MarketingQ1.delete_existing_marketing_events,
    events_list, bind, request. fold title. rewrite Hl.
  change (cal (log_call w (CList s e title))) with (cal w).
  rewrite HL.
  erewrite for_each_stops; [| exact Hloop |].
  2:{ cbv zeta. fold (marketing_check x). rewrite Hmx.
      unfold bind, events_delete, request. rewrite Hx. reflexivity. }
  unfold log_call. simpl. rewrite <- !app_assoc. reflexivity.
Qed.

Lemma replace_slot_refused_create s e d w :
  fails (CList s e title) = false ->
  NoDup (map ev_id (cal w)) ->
  (forall y, In y (filter marketing_check (listing s e title (cal w))) ->
             fails (CDelete (ev_id y)) = false) ->
  fails (CInsert (london_body title s e d)) = true ->
  replace_slot s e d w
  = (Raise (HttpError (CInsert (london_body title s e d))),
     {| cal := filter (fun y => negb (deleted_by s e y)) (cal w);
        next_id := next_id w;
        trace := trace w ++ CList s e title ::
                   map (fun y => CDelete (ev_id y))
                       (filter marketing_check (listing s e title (cal w)))
                   ++ [CInsert (london_body title s e d)];
        out := out w ++ map (fun y => PrintedDeleted (summary_of y) (ev_id y))
                 (filter marketing_check (listing s e title (cal w))) |}).
Proof.
  intros Hl Hnd Hans Hc. unfold replace_slot, bind.
  rewrite (delete_existing_answered s e w Hl Hans).
  rewrite (@delete_existing_ok (calm env) s e w (fun c => eq_refl) Hnd).
  rewrite marketing_create_event_unfold. simpl. rewrite Hc.
  unfold log_call. simpl. rewrite <- app_assoc. reflexivity.
Qed.


(** C6, as the code has it.  Neither script catches anything.  Once the
    work on one day (or week) raises, [main] ends with that exception in the
    world the failing request left, whatever is still to do.  A refused list,
    update or create raises out of its block; a refused list, delete or
    create raises out of the replacing of a slot, the deletes before it
    done and no create sent after a refused list or delete; the request is
    logged and nothing is printed for it.  The exception of a block or slot
    ends the run there: the blocks or slots before it have been handled,
    those after it are not attempted. *)
Theorem service_error_aborts_run :
  (forall (done todo : list DeepWorkJan.day_info) day w w1 w2 err,
      for_each done DeepWorkJan.process_day w = (Ok tt, w1) ->
      DeepWorkJan.process_day day w1 = (Raise err, w2) ->
      DeepWorkJan.main (done ++ day :: todo) w = (Raise err, w2)) /\
  (forall (done todo : list MarketingQ1.week_data) week w w1 w2 err,
      for_each done MarketingQ1.process_week w = (Ok tt, w1) ->
      MarketingQ1.process_week week w1 = (Raise err, w2) ->
      MarketingQ1.main (done ++ week :: todo) w = (Raise err, w2)) /\
  (forall summary s e d w,
      fails (CList s e summary) = true ->
      DeepWorkJan.handle_block summary s e d w
      = (Raise (HttpError (CList s e summary)),
         log_call w (CList s e summary))) /\
  (forall summary s e d w x,
      fails (CList s e summary) = false ->
      target summary s e (cal w) = Some x ->
      fails (CUpdate (ev_id x) (DeepWorkJan.set_description x d)) = true ->
      DeepWorkJan.handle_block summary s e d w
      = (Raise (HttpError (CUpdate (ev_id x) (DeepWorkJan.set_description x d))),
         log_call (log_call w (CList s e summary))
                  (CUpdate (ev_id x) (DeepWorkJan.set_description x d)))) /\
  (forall summary s e d w,
      fails (CList s e summary) = false ->
      target summary s e (cal w) = None ->
      fails (CInsert (london_body summary s e d)) = true ->
      DeepWorkJan.handle_block summary s e d w
      = (Raise (HttpError (CInsert (london_body summary s e d))),
         log_call (log_call w (CList s e summary))
                  (CInsert (london_body summary s e d)))) /\
  (forall s e d w,
      fails (CList s e title) = true ->
      replace_slot s e d w
      = (Raise (HttpError (CList s e title)), log_call w (CList s e title))) /\
  (forall s e d w pre x post,
      fails (CList s e title) = false ->
      NoDup (map ev_id (cal w)) ->
      filter marketing_check (listing s e title (cal w)) = pre ++ x :: post ->
      (forall y, In y pre -> fails (CDelete (ev_id y)) = false) ->
      fails (CDelete (ev_id x)) = true ->
      replace_slot s e d w
      = (Raise (HttpError (CDelete (ev_id x))),
         {| cal := filter (fun y => negb (existsb (has_id (ev_id y)) pre))
                          (cal w);
            next_id := next_id w;
            trace := trace w ++ CList s e title ::
                       map (fun y => CDelete (ev_id y)) pre
                       ++ [CDelete (ev_id x)];
            out := out w
                   ++ map (fun y => PrintedDeleted (summary_of y) (ev_id y))
                          pre |})) /\
  (forall s e d w,
      fails (CList s e title) = false ->
      NoDup (map ev_id (cal w)) ->
      (forall y, In y (filter marketing_check (listing s e title (cal w))) ->
                 fails (CDelete (ev_id y)) = false) ->
      fails (CInsert (london_body title s e d)) = true ->
      replace_slot s e d w
      = (Raise (HttpError (CInsert (london_body title s e d))),
         {| cal := filter (fun y => negb (deleted_by s e y)) (cal w);
            next_id := next_id w;
            trace := trace w ++ CList s e title ::
                       map (fun y => CDelete (ev_id y))
                           (filter marketing_check (listing s e title (cal w)))
                       ++ [CInsert (london_body title s e d)];
            out := out w
                   ++ map (fun y => PrintedDeleted (summary_of y) (ev_id y))
                          (filter marketing_check
                             (listing s e title (cal w))) |})) /\
  (forall SCHEDULE done b todo w w1 w2 err,
      blocks_of SCHEDULE = done ++ b :: todo ->
      for_each done upsert w = (Ok tt, w1) ->
      DeepWorkJan.handle_block (b_summary b) (b_start b) (b_end b) (b_desc b) w1
      = (Raise err, w2) ->
      DeepWorkJan.main SCHEDULE w = (Raise err, w2)) /\
  (forall WEEKS done sl todo w w1 w2 err,
      weeks_in_range WEEKS ->
      slots_of WEEKS = done ++ sl :: todo ->
      for_each done replace w = (Ok tt, w1) ->
      replace_slot (slot_start sl) (slot_end sl) (slot_desc sl) w1
      = (Raise err, w2) ->
      MarketingQ1.main WEEKS w = (Raise err, w2)).
Proof.
  repeat match goal with |- _ /\ _ => split end.
  - intros done todo day w w1 w2 err Hd Hx. unfold DeepWorkJan.main, bind.
    now rewrite (for_each_stops done todo _ _ w w1 w2 err Hd Hx).
  - intros done todo week w w1 w2 err Hd Hx. unfold MarketingQ1.main, bind.
    now rewrite (for_each_stops done todo _ _ w w1 w2 err Hd Hx).
  - intros summary s e d w Hl. unfold DeepWorkJan.handle_block, bind.
    now rewrite find_event_unfold, Hl.
  - intros summary s e d w x Hl Ht Hu. unfold DeepWorkJan.handle_block, bind.
    rewrite find_event_unfold, Hl. fold (target summary s e (cal w)).
    rewrite Ht, update_event_description_unfold. simpl. now rewrite Hu.
  - intros summary s e d w Hl Ht Hc. unfold DeepWorkJan.handle_block, bind.
    rewrite find_event_unfold, Hl. fold (target summary s e (cal w)).
    rewrite Ht, create_event_unfold. simpl. now rewrite Hc.
  - intros s e d w Hl.
    unfold replace_slot, MarketingQ1.delete_existing_marketing_events,
      events_list, bind, request.
    fold title. now rewrite Hl.
  - intros s e d w pre x post. apply replace_slot_refused_delete.
  - intros s e d w. apply replace_slot_refused_create.
  - intros SCHEDULE done b todo w w1 w2 err Hsplit Hd Hx.
    rewrite main_as_blocks, Hsplit. unfold bind.
    now rewrite (for_each_stops done todo b upsert w w1 w2 err Hd Hx).
  - intros WEEKS done sl todo w w1 w2 err Hrange Hsplit Hd Hx.
    rewrite (main_as_slots WEEKS w Hrange), Hsplit. unfold bind.
    now rewrite (for_each_stops done todo sl replace w w1 w2 err Hd Hx).
Qed.

End Abort.

Lemma service_error_aborts_run_witness :
  (let env := winter refuses_a1 in
   let failed := CInsert (london_body "Deep Work Block 1" (datetime monday 8 0)
                            (datetime monday 10 0) "A1") in
   DeepWorkJan.main ([] ++ day_a :: [day_b]) empty_world
   = (Raise (HttpError failed),
      log_call (log_call empty_world
                  (CList (datetime monday 8 0) (datetime monday 10 0)
                         "Deep Work Block 1")) failed)) /\
  (let env := winter refuses_second_delete in
   let s := datetime monday 16 0 in
   let e := datetime monday 18 0 in
   replace_slot s e "new plan" stale_world
   = (Raise (HttpError (CDelete (ev_id stale_b))),
      {| cal := filter (fun y => negb (existsb (has_id (ev_id y)) [stale_a]))
                       (cal stale_world);
         next_id := next_id stale_world;
         trace := trace stale_world ++ CList s e title ::
                    map (fun y => CDelete (ev_id y)) [stale_a]
                    ++ [CDelete (ev_id stale_b)];
         out := out stale_world
                ++ map (fun y => PrintedDeleted (summary_of y) (ev_id y))
                       [stale_a] |})) /\
  (let env := winter refuses_creates in
   let s := datetime monday 16 0 in
   let e := datetime monday 18 0 in
   replace_slot s e "new plan" stale_world
   = (Raise (HttpError (CInsert (london_body title s e "new plan"))),
      {| cal := filter (fun y => negb (deleted_by s e y)) (cal stale_world);
         next_id := next_id stale_world;
         trace := trace stale_world ++ CList s e title ::
                    map (fun y => CDelete (ev_id y))
                        (filter marketing_check
                           (listing s e title (cal stale_world)))
                    ++ [CInsert (london_body title s e "new plan")];
         out := out stale_world
                ++ map (fun y => PrintedDeleted (summary_of y) (ev_id y))
                       (filter marketing_check
                          (listing s e title (cal stale_world))) |})).
Proof.
  split; [|split].
  - intros env failed.
    apply (proj1 (@service_error_aborts_run env) [] [day_b] day_a
                 empty_world empty_world); reflexivity.
  - intros env s e.
    apply (proj1 (proj2 (proj2 (proj2 (proj2 (proj2 (proj2
             (@service_error_aborts_run env)))))))
             s e "new plan" stale_world [stale_a] stale_b []).
    + reflexivity.
    + simpl. repeat constructor; simpl; intuition discriminate.
    + reflexivity.
    + intros y [<-|[]]. reflexivity.
    + reflexivity.
  - intros env s e.
    apply (proj1 (proj2 (proj2 (proj2 (proj2 (proj2 (proj2 (proj2
             (@service_error_aborts_run env))))))))
             s e "new plan" stale_world).
    + reflexivity.
    + simpl. repeat constructor; simpl; intuition discriminate.
    + intros y _. reflexivity.
    + reflexivity.
Defined.

(** C6 as stated fails on the code: the service refuses one create, that of
    the first block of the first day, and the run ends there.  The second
    block and the second day are never attempted, nothing is on the calendar
    and nothing was printed; the marketing script likewise stops at the
    Tuesday it cannot create and leaves Wednesday to Friday undone. *)
Lemma refused_create_stops_the_schedule :
  (let env := winter refuses_a1 in
   let failed := CInsert (london_body "Deep Work Block 1" (datetime monday 8 0)
                            (datetime monday 10 0) "A1") in
   refuses_a1 (CInsert (london_body "Deep Work Block 2" (datetime monday 10 30)
                          (datetime monday 12 30) "A2")) = false /\
   refuses_a1 (CInsert (london_body "Deep Work Block 1" (datetime (monday + 1) 8 0)
                          (datetime (monday + 1) 10 0) "B1")) = false /\
   DeepWorkJan.main [day_a; day_b] empty_world
   = (Raise (HttpError failed),
      {| cal := []; next_id := 0%nat;
         trace := [CList (datetime monday 8 0) (datetime monday 10 0)
                         "Deep Work Block 1"; failed];
         out := [] |})) /\
  (let env := winter refuses_tuesday in
   exists err w,
     MarketingQ1.main [week_one] empty_world = (Raise err, w) /\
     map ev_start (cal w) = [datetime monday 16 0] /\
     List.length (filter is_insert (trace w)) = 2%nat /\
     out w = [PrintedCreated 0]).
Proof.
  split.
  - vm_compute. repeat split.
  - eexists. eexists. vm_compute. repeat split.
Qed.

(** ** No input is checked *)

Section Unchecked.
Context {env : Env}.

Lemma upsert_world_two_requests b w :
  exists c1 c2, trace (upsert_world b w) = trace w ++ [c1; c2].
Proof.
  unfold upsert_world. destruct (target_of b (cal w)); simpl; eauto.
Qed.

Lemma run_blocks_requests bs :
  forall w, exists t,
    trace (run_blocks bs w) = trace w ++ t /\
    List.length t = (2 * List.length bs)%nat.
Proof.
  induction bs as [|b bs IH]; intros w.
  - exists []. simpl. now rewrite app_nil_r.
  - destruct (upsert_world_two_requests b w) as [c1 [c2 H1]].
    destruct (IH (upsert_world b w)) as [t [Ht Hlen]].
    exists (c1 :: c2 :: t). split.
    + change (run_blocks (b :: bs) w) with (run_blocks bs (upsert_world b w)).
      rewrite Ht, H1, <- app_assoc. reflexivity.
    + simpl. rewrite Hlen. lia.
Qed.

Lemma blocks_of_length SCHEDULE :
  List.length (blocks_of SCHEDULE) = (2 * List.length SCHEDULE)%nat.
Proof.
  unfold blocks_of. induction SCHEDULE as [|d rest IH]; simpl; [reflexivity|].
  rewrite IH. lia.
Qed.

(** C7, as the code has it.  Nothing is validated.  Whatever the summary and
    the window (an empty summary, a window that ends before it starts), an
    update-or-create block begins by sending the list request for them; and
    whatever the schedule, the run begins with the list request for the
    first block of its first day.  When the service answers every request,
    the block ends normally after one more request: the update of the
    event it found, or a create that carries the summary and the window as
    they were given; and a run over any schedule ends normally after four
    requests per day, none of its blocks rejected or left out. *)
Theorem requests_precede_any_validation :
  (forall summary s e d w,
      exists t, trace (snd (DeepWorkJan.handle_block summary s e d w))
                = trace w ++ CList s e summary :: t) /\
  (forall day rest w,
      exists t, trace (snd (DeepWorkJan.main (day :: rest) w))
                = trace w ++
                  CList (datetime (DeepWorkJan.day_date day) 8 0)
                        (datetime (DeepWorkJan.day_date day) 10 0)
                        (DeepWorkJan.block1_title day) :: t) /\
  (forall summary s e d w,
      reliable env -> NoDup (map ev_id (cal w)) ->
      exists w',
        DeepWorkJan.handle_block summary s e d w = (Ok tt, w') /\
        match target summary s e (cal w) with
        | Some x =>
            In x (cal w) /\
            trace w' = trace w ++
                       [CList s e summary;
                        CUpdate (ev_id x) (DeepWorkJan.set_description x d)]
        | None =>
            trace w' = trace w ++
                       [CList s e summary;
                        CInsert (london_body summary s e d)] /\
            cal w' = cal w ++ [stored (next_id w) (london_body summary s e d)]
        end) /\
  (forall SCHEDULE w,
      reliable env -> well_formed w ->
      exists w' t,
        DeepWorkJan.main SCHEDULE w = (Ok tt, w') /\
        trace w' = trace w ++ t /\
        List.length t = (4 * List.length SCHEDULE)%nat).
Proof.
  split; [intros; apply handle_block_first_request|].
  split.
  { intros day rest. unfold DeepWorkJan.main. simpl for_each.
    unfold DeepWorkJan.process_day at 1.
    repeat (apply starts_with_bind; [|intros _]).
    - apply handle_block_first_request.
    - apply grows_handle_block.
    - apply grows_for_each. intros x. unfold DeepWorkJan.process_day.
      apply grows_bind; [|intros _]; apply grows_handle_block.
    - apply grows_print. }
  split.
  - intros summary s e d w Hrel Hnd. eexists.
    split; [apply handle_block_reliable; assumption|].
    destruct (target summary s e (cal w)) as [x|] eqn:T; simpl.
    + split; [|reflexivity]. apply target_stored in T. tauto.
    + split; reflexivity.
  - intros SCHEDULE w Hrel Hwf.
    destruct (run_blocks_requests (blocks_of SCHEDULE) w) as [t [Ht Hlen]].
    exists (log_line (run_blocks (blocks_of SCHEDULE) w) PrintedDone), t.
    split.
    + rewrite main_as_blocks. unfold bind.
      now rewrite (run_blocks_ok Hrel (blocks_of SCHEDULE) w Hwf).
    + split; [exact Ht|]. rewrite Hlen, blocks_of_length. lia.
Qed.

End Unchecked.

Lemma requests_precede_any_validation_witness :
  let env := winter never in
  (exists w',
     DeepWorkJan.handle_block "" (datetime monday 10 0) (datetime monday 8 0)
       "notes" empty_world = (Ok tt, w') /\
     match target "" (datetime monday 10 0) (datetime monday 8 0)
             (cal empty_world) with
     | Some x =>
         In x (cal empty_world) /\
         trace w' = trace empty_world ++
                    [CList (datetime monday 10 0) (datetime monday 8 0) "";
                     CUpdate (ev_id x) (DeepWorkJan.set_description x "notes")]
     | None =>
         trace w' = trace empty_world ++
                    [CList (datetime monday 10 0) (datetime monday 8 0) "";
                     CInsert (london_body "" (datetime monday 10 0)
                                (datetime monday 8 0) "notes")] /\
         cal w' = cal empty_world
                  ++ [stored (next_id empty_world)
                        (london_body "" (datetime monday 10 0)
                           (datetime monday 8 0) "notes")]
     end) /\
  (exists w' t,
     DeepWorkJan.main [day_untitled; day_a; day_a] empty_world = (Ok tt, w') /\
     trace w' = trace empty_world ++ t /\
     List.length t = (4 * List.length [day_untitled; day_a; day_a])%nat).
Proof.
  intros env. split.
  - apply (proj1 (proj2 (proj2 (@requests_precede_any_validation env)))
             "" (datetime monday 10 0) (datetime monday 8 0) "notes"
             empty_world).
    + exact winter_reliable.
    + constructor.
  - apply (proj2 (proj2 (proj2 (@requests_precede_any_validation env)))
             [day_untitled; day_a; day_a] empty_world).
    + exact winter_reliable.
    + exact winter_well_formed_empty.
Defined.

(** C7 as stated fails on the code: a first block with no title and a day
    listed twice (same titles, same windows) go through to the service; no
    error is raised, the requests are sent and the calendar is changed. *)
Lemma malformed_input_reaches_the_service :
  let env := winter never in
  DeepWorkJan.block1_title day_untitled = "" /\
  (exists w, DeepWorkJan.main [day_untitled] empty_world = (Ok tt, w) /\
             List.length (trace w) = 4%nat /\
             map ev_summary (cal w) = [Some ""; Some "Deep Work Block 2"]) /\
  (exists w, DeepWorkJan.main [day_a; day_a] empty_world = (Ok tt, w) /\
             List.length (trace w) = 8%nat /\
             List.length (cal w) = 2%nat).
Proof.
  intros env. split; [reflexivity|].
  split; eexists; vm_compute; repeat split.
Qed.

(** * Further properties of the scripts *)

(** ** One run is enough *)

Section Convergence.
Context {env : Env}.

(** X1.  After one run of the deep-work January script with a reliable
    service, every block of the schedule has an event in its window with its
    summary; and when no two blocks are matched to the same event, that
    event carries the description the block asks for. *)
Theorem one_run_converges
    (SCHEDULE : list DeepWorkJan.day_info) (w0 : World) :
  reliable env -> search_complete env -> london_on_utc env ->
  well_formed w0 ->
  exists w1,
    DeepWorkJan.main SCHEDULE w0 = (Ok tt, w1) /\
    (forall b, In b (blocks_of SCHEDULE) ->
       exists x, In x (cal w1) /\ hits b x = true) /\
    (distinct_targets (blocks_of SCHEDULE) (cal w1) ->
     forall b, In b (blocks_of SCHEDULE) ->
       exists x, In x (cal w1) /\ hits b x = true /\
                 ev_description x = Some (b_desc b)).
Proof.
  intros Hrel Hsearch Hutc Hwf.
  set (bs := blocks_of SCHEDULE).
  pose proof (blocks_of_grid SCHEDULE) as Hg. fold bs in Hg.
  exists (log_line (run_blocks bs w0) PrintedDone).
  split. { rewrite main_as_blocks. fold bs. unfold bind.
           now rewrite (run_blocks_ok Hrel bs w0 Hwf). }
  change (cal (log_line (run_blocks bs w0) PrintedDone))
    with (cal (run_blocks bs w0)).
  assert (Hhit : forall b x, target_of b (cal (run_blocks bs w0)) = Some x ->
                             In x (cal (run_blocks bs w0)) /\ hits b x = true).
  { intros b x Hx. apply target_stored in Hx. destruct Hx as [Hin [Hw Hl]].
    split; [exact Hin|]. unfold hits, hit. rewrite Hw. simpl.
    now apply exact_true. }
  split.
  - intros b Hb.
    pose proof (closed_after_run Hsearch Hutc bs bs Hg (incl_refl bs) w0 b Hb)
      as Hcl.
    destruct (target_of b (cal (run_blocks bs w0))) as [x|] eqn:Hx;
      [|contradiction].
    exists x. now apply Hhit.
  - intros Hdistinct b Hb.
    destruct (settled_after_run Hsearch Hutc bs w0 Hg Hwf Hdistinct b Hb)
      as [x [Hx Hd]].
    exists x. destruct (Hhit b x Hx) as [Hin Hh]. auto.
Qed.

End Convergence.

Lemma one_run_converges_witness :
  let env := winter never in
  exists w1,
    DeepWorkJan.main [day_a; day_b] empty_world = (Ok tt, w1) /\
    (forall b, In b (blocks_of [day_a; day_b]) ->
       exists x, In x (cal w1) /\ hits b x = true) /\
    (distinct_targets (blocks_of [day_a; day_b]) (cal w1) ->
     forall b, In b (blocks_of [day_a; day_b]) ->
       exists x, In x (cal w1) /\ hits b x = true /\
                 ev_description x = Some (b_desc b)).
Proof.
  intros env.
  apply (@one_run_converges env [day_a; day_b] empty_world).
  - exact winter_reliable.
  - exact (winter_search_complete never).
  - exact (winter_on_utc never).
  - exact winter_well_formed_empty.
Defined.

(** ** Summer time *)

Lemma summer_reliable : reliable (summer never).
Proof. intros c. reflexivity. Qed.

Lemma summer_search_complete (faulty : call -> bool) :
  search_complete (summer faulty).
Proof.
  intros q e H. simpl in *. unfold substring_search. rewrite H.
  destruct (String.length (summary_of e)); simpl; now rewrite prefix_same.
Qed.

Lemma summer_ahead (faulty : call -> bool) : london_ahead (summer faulty) 60.
Proof. intros t. reflexivity. Qed.

Section Summer.
Context {env : Env}.

Lemma stored_hit_ahead summary s e d n o :
  london_ahead env o -> 0 <= o ->
  hit summary s e (stored n (london_body summary s e d)) = (o <? e - s).
Proof.
  intros Ho Hpos. unfold hit, in_window, exact, stored, summary_of. simpl.
  rewrite !Ho, String.eqb_refl, andb_true_r.
  destruct (o <? e - s) eqn:E.
  - apply Z.ltb_lt in E. apply andb_true_iff. split; apply Z.ltb_lt; lia.
  - apply Z.ltb_ge in E. apply andb_false_iff. left. apply Z.ltb_ge. lia.
Qed.

(** X2.  The search window is sent as UTC while the event is created in
    London time.  With London [o] minutes ahead of UTC, a block that found
    nothing and created its event finds that event again on the next run,
    and updates it, exactly when the block is longer than [o] minutes;
    a block of [o] minutes or less does not find it and creates a second
    event. *)
Theorem created_event_found_again_iff_longer_than_offset
    (summary : string) (s e : Z) (d d' : string) (o : Z) (w : World) :
  reliable env -> search_complete env -> london_ahead env o -> 0 <= o ->
  well_formed w -> target summary s e (cal w) = None ->
  let fresh := stored (next_id w) (london_body summary s e d) in
  let w1 := created_world w summary s e d in
  DeepWorkJan.handle_block summary s e d w = (Ok tt, w1) /\
  (o < e - s ->
   target summary s e (cal w1) = Some fresh /\
   DeepWorkJan.handle_block summary s e d' w1
   = (Ok tt, updated_world w1 summary s e fresh d')) /\
  (e - s <= o ->
   target summary s e (cal w1) = None /\
   DeepWorkJan.handle_block summary s e d' w1
   = (Ok tt, created_world w1 summary s e d')).
Proof.
  intros Hrel Hsearch Ho Hpos Hwf Hnone fresh w1.
  pose proof (created_world_wf w summary s e d Hwf) as Hwf1.
  split.
  { rewrite handle_block_reliable by (auto; apply Hwf). now rewrite Hnone. }
  pose proof (stored_hit_ahead summary s e d (next_id w) o Ho Hpos) as Hhit.
  split; intros Hlen.
  - assert (Ht : target summary s e (cal w1) = Some fresh).
    { change (cal w1) with (cal w ++ [fresh]).
      apply (target_app_first Hsearch); [exact Hnone|].
      unfold fresh. rewrite Hhit. apply Z.ltb_lt. exact Hlen. }
    split; [exact Ht|].
    rewrite handle_block_reliable by (auto; apply Hwf1). now rewrite Ht.
  - assert (Ht : target summary s e (cal w1) = None).
    { change (cal w1) with (cal w ++ [fresh]).
      rewrite (target_app_miss Hsearch); [exact Hnone|].
      unfold fresh. rewrite Hhit. apply Z.ltb_ge. exact Hlen. }
    split; [exact Ht|].
    rewrite handle_block_reliable by (auto; apply Hwf1). now rewrite Ht.
Qed.

End Summer.

Lemma created_event_found_again_iff_longer_than_offset_witness :
  let env := summer never in
  let s := datetime monday 8 0 in
  let e := datetime monday 10 0 in
  let fresh := stored (next_id empty_world)
                 (london_body "Deep Work Block 1" s e "first") in
  let w1 := created_world empty_world "Deep Work Block 1" s e "first" in
  DeepWorkJan.handle_block "Deep Work Block 1" s e "first" empty_world
    = (Ok tt, w1) /\
  (60 < e - s ->
   target "Deep Work Block 1" s e (cal w1) = Some fresh /\
   DeepWorkJan.handle_block "Deep Work Block 1" s e "second" w1
   = (Ok tt, updated_world w1 "Deep Work Block 1" s e fresh "second")) /\
  (e - s <= 60 ->
   target "Deep Work Block 1" s e (cal w1) = None /\
   DeepWorkJan.handle_block "Deep Work Block 1" s e "second" w1
   = (Ok tt, created_world w1 "Deep Work Block 1" s e "second")).
Proof.
  intros env s e.
  apply (@created_event_found_again_iff_longer_than_offset env
           "Deep Work Block 1" s e "first" "second" 60 empty_world).
  - exact summer_reliable.
  - exact (summer_search_complete never).
  - exact (summer_ahead never).
  - lia.
  - exact winter_well_formed_empty.
  - reflexivity.
Defined.

(** ** Deleting and replacing with a service that may refuse creates *)

Section Calm.
Context {env : Env}.
Hypothesis Hld : lists_and_deletes env.

Lemma calm_reliable : reliable (calm env).
Proof. intros c. reflexivity. Qed.

(** The deletion does not depend on how creates are answered. *)
Lemma delete_existing_calm s e w :
  MarketingQ1.delete_existing_marketing_events s e w
  = @MarketingQ1.delete_existing_marketing_events (calm env) s e w.
Proof.
  unfold MarketingQ1.delete_existing_marketing_events, events_list, bind,
    request. simpl fails. rewrite (Hld (CList s e _) eq_refl).
  apply for_each_ext_in. intros x _ w0. simpl lower.
  destruct (String.eqb _ _); [|reflexivity].
  unfold bind, events_delete, request. simpl fails.
  now rewrite (Hld (CDelete (ev_id x)) eq_refl).
Qed.

(** X3.  With a service that answers lists and deletes, one call of
    [delete_existing_marketing_events] removes an event exactly when it is in
    the window, is returned by the service's text filter and has the title
    (case apart): an event outside the window, with another summary, or that
    the text filter leaves out, stays.  Each removed event is deleted by one
    request and reported by one printed line; no other request is sent after
    the listing. *)
Theorem delete_removes_only_listed_matches (s e : Z) (w : World) :
  NoDup (map ev_id (cal w)) ->
  let gone := filter marketing_check (listing s e title (cal w)) in
  exists w',
    MarketingQ1.delete_existing_marketing_events s e w = (Ok tt, w') /\
    cal w' = filter (fun x => negb (deleted_by s e x)) (cal w) /\
    (forall x, deleted_by s e x = true <->
               in_window s e x = true /\ text_search title x = true /\
               lower (summary_of x) = "marketing & outreach") /\
    (forall x, In x gone <-> In x (cal w) /\ deleted_by s e x = true) /\
    NoDup (map ev_id gone) /\
    trace w' = trace w ++ CList s e title ::
                 map (fun x => CDelete (ev_id x)) gone /\
    out w' = out w ++ map (fun x => PrintedDeleted (summary_of x) (ev_id x)) gone /\
    next_id w' = next_id w.
Proof.
  intros Hnd gone. eexists.
  split. { rewrite delete_existing_calm.
           apply (@delete_existing_ok (calm env) s e w calm_reliable Hnd). }
  simpl. split; [reflexivity|]. split.
  { intros x. unfold deleted_by, marketing_check.
    rewrite !andb_true_iff, String.eqb_eq. tauto. }
  split.
  { intros x. unfold gone. rewrite filter_In.
    change (@listing (calm env) s e title (cal w)) with (listing s e title (cal w)).
    rewrite listing_In. unfold deleted_by. rewrite !andb_true_iff. tauto. }
  split.
  { unfold gone. apply filter_keeps_ids_unique. now apply listing_NoDup. }
  repeat split.
Qed.


End Calm.

Lemma refuses_creates_only : lists_and_deletes (winter refuses_creates).
Proof. intros c H. exact H. Qed.

Lemma stale_world_ids : NoDup (map ev_id (cal stale_world)).
Proof. simpl. repeat constructor; simpl; intuition discriminate. Qed.

Lemma delete_removes_only_listed_matches_witness :
  let env := winter refuses_creates in
  let s := datetime monday 16 0 in
  let e := datetime monday 18 0 in
  let gone := filter marketing_check (listing s e title (cal stale_world)) in
  exists w',
    MarketingQ1.delete_existing_marketing_events s e stale_world = (Ok tt, w') /\
    cal w' = filter (fun x => negb (deleted_by s e x)) (cal stale_world) /\
    (forall x, deleted_by s e x = true <->
               in_window s e x = true /\ text_search title x = true /\
               lower (summary_of x) = "marketing & outreach") /\
    (forall x, In x gone <-> In x (cal stale_world) /\ deleted_by s e x = true) /\
    NoDup (map ev_id gone) /\
    trace w' = trace stale_world ++ CList s e title ::
                 map (fun x => CDelete (ev_id x)) gone /\
    out w' = out stale_world
             ++ map (fun x => PrintedDeleted (summary_of x) (ev_id x)) gone /\
    next_id w' = next_id stale_world.
Proof.
  intros env s e.
  apply (@delete_removes_only_listed_matches env refuses_creates_only s e
           stale_world).
  exact stale_world_ids.
Defined.


(** ** The update-or-create scripts never take anything away *)

Lemma adds_refl w : adds 0 w w.
Proof.
  exists [], []. rewrite !app_nil_r. repeat split; auto.
Qed.

Lemma adds_trans n m w w1 w2 :
  adds n w w1 -> adds m w1 w2 -> adds (n + m) w w2.
Proof.
  intros [t1 [x1 [Ht1 [Hd1 [Hi1 Hl1]]]]] [t2 [x2 [Ht2 [Hd2 [Hi2 Hl2]]]]].
  exists (t1 ++ t2), (x1 ++ x2).
  rewrite Ht2, Ht1, Hi2, Hi1, <- !app_assoc, length_app.
  repeat split; auto. - apply Forall_app; auto. - lia.
Qed.

Lemma adds_more n m w w' : (n <= m)%nat -> adds n w w' -> adds m w w'.
Proof.
  intros Hle [t [x [Ht [Hd [Hi Hl]]]]]. exists t, x. repeat split; auto. lia.
Qed.

Lemma adding_ret {A} (a : A) : adding 0 (ret a).
Proof. intros w. apply adds_refl. Qed.

Lemma adding_bind {A B} n k (m : M A) (f : A -> M B) :
  adding n m -> (forall a, adding k (f a)) -> adding (n + k) (bind m f).
Proof.
  intros Hm Hf w. unfold bind. specialize (Hm w).
  destruct (m w) as [[a|err] w1]; simpl in *.
  - eapply adds_trans; [exact Hm | apply Hf].
  - eapply adds_more; [|exact Hm]. lia.
Qed.

Lemma adding_for_each {A} k (xs : list A) (body : A -> M unit) :
  (forall x, adding k (body x)) -> adding (k * List.length xs) (for_each xs body).
Proof.
  intros Hb. induction xs as [|x xs IH]; simpl.
  - rewrite Nat.mul_0_r. apply adding_ret.
  - intros w. eapply adds_more; [|apply (adding_bind k _ _ _ (Hb x) (fun _ => IH))].
    lia.
Qed.

Lemma adding_print l : adding 0 (print l).
Proof. intros w. exists [], []. simpl. rewrite !app_nil_r. repeat split; auto. Qed.

Section Adding.
Context {env : Env}.

Lemma adding_request c : is_delete c = false -> adding 0 (request c).
Proof.
  intros Hc w. exists [c], []. unfold request.
  destruct (fails c); simpl; rewrite app_nil_r; repeat split; auto.
Qed.

Lemma adding_events_list s e q : adding 0 (events_list s e q).
Proof.
  unfold events_list. apply (adding_bind 0 0); [now apply adding_request|].
  intros _ w. apply adds_refl.
Qed.

Lemma adding_events_insert b : adding 1 (events_insert b).
Proof.
  unfold events_insert. apply (adding_bind 0 1); [now apply adding_request|].
  intros _ w. exists [], [next_id w]. simpl.
  rewrite app_nil_r, map_app. repeat split; auto.
Qed.

Lemma adding_events_update i b : adding 0 (events_update i b).
Proof.
  unfold events_update. apply (adding_bind 0 0); [now apply adding_request|].
  intros _ w. destruct (existsb (has_id i) (cal w)); [|apply adds_refl].
  exists [], []. simpl. rewrite !app_nil_r. repeat split; auto.
  rewrite map_map. apply map_ext. intros x.
  destruct (has_id i x) eqn:E; [|reflexivity].
  apply has_id_true in E. simpl. congruence.
Qed.

Lemma adding_handle_block summary s e d :
  adding 1 (DeepWorkJan.handle_block summary s e d).
Proof.
  unfold DeepWorkJan.handle_block, DeepWorkJan.find_event_by_summary_in_range.
  apply (adding_bind 0 1).
  - apply (adding_bind 0 0); [apply adding_events_list|].
    intros events. apply adding_ret.
  - intros [evt|].
    + unfold DeepWorkJan.update_event_description. intros w.
      eapply adds_more; [|apply (adding_bind 0 0);
                           [apply adding_events_update
                           |intros u; apply adding_print]]. lia.
    + unfold DeepWorkJan.create_event.
      apply (adding_bind 1 0); [apply adding_events_insert|].
      intros c. apply adding_print.
Qed.

Lemma adding_process_day day : adding 2 (DeepWorkJan.process_day day).
Proof.
  unfold DeepWorkJan.process_day.
  apply (adding_bind 1 1); [|intros _]; apply adding_handle_block.
Qed.

Lemma adding_schedule_day item d : adding 2 (ThreeWeekPlan.schedule_day item d).
Proof.
  unfold ThreeWeekPlan.schedule_day.
  apply (adding_bind 1 1); [|intros _]; apply adding_handle_block.
Qed.

Lemma adding_while_loop fuel PLAN :
  forall k d w,
    match ThreeWeekPlan.while_loop fuel PLAN k d w with
    | Some (_, w') => adds (2 * (List.length PLAN - k)) w w'
    | None => True
    end.
Proof.
  induction fuel as [|fuel IH]; intros k d w; simpl; [exact I|].
  destruct (k <? List.length PLAN)%nat eqn:Hk;
    [|eapply adds_more; [|apply adds_refl]; lia].
  apply Nat.ltb_lt in Hk. unfold bind.
  destruct (weekday d <? 5).
  - destruct (nth_error PLAN k) as [item|].
    + pose proof (adding_schedule_day item d w) as Hday.
      destruct (ThreeWeekPlan.schedule_day item d w) as [[[]|err] w1];
        simpl in Hday.
      * unfold ret at 1. unfold date_add.
        destruct ((MINORDINAL <=? d + 1) && (d + 1 <=? MAXORDINAL)).
        -- unfold ret. specialize (IH (S k) (d + 1) w1).
           destruct (ThreeWeekPlan.while_loop fuel PLAN (S k) (d + 1) w1)
             as [[r w']|]; [|exact I].
           eapply adds_more; [|eapply adds_trans; [exact Hday | exact IH]]. lia.
        -- unfold raise. eapply adds_more; [|exact Hday]. lia.
      * eapply adds_more; [|exact Hday]. lia.
    + unfold raise. eapply adds_more; [|apply adds_refl]. lia.
  - unfold ret at 1. unfold date_add.
    destruct ((MINORDINAL <=? d + 1) && (d + 1 <=? MAXORDINAL)).
    + unfold ret. apply IH.
    + unfold raise. eapply adds_more; [|apply adds_refl]. lia.
Qed.

(** X5.  Whatever the service answers, errors included, the two
    update-or-create scripts never send a delete, keep every event id of the
    calendar in its place, and append at most two events per scheduled day. *)
Theorem upsert_scripts_only_add :
  (forall SCHEDULE w,
      adds (2 * List.length SCHEDULE) w (snd (DeepWorkJan.main SCHEDULE w))) /\
  (forall fuel PLAN start w,
      match ThreeWeekPlan.while_loop fuel PLAN 0 start w with
      | Some (_, w') => adds (2 * List.length PLAN) w w'
      | None => True
      end).
Proof.
  split.
  - intros SCHEDULE w. unfold DeepWorkJan.main.
    eapply adds_more;
      [|apply (adding_bind (2 * List.length SCHEDULE) 0);
        [apply adding_for_each, adding_process_day
        |intros _; apply adding_print]].
    lia.
  - intros fuel PLAN start w.
    pose proof (adding_while_loop fuel PLAN 0%nat start w) as H.
    now rewrite Nat.sub_0_r in H.
Qed.

End Adding.

(** ** A first run on a calendar without matches *)

Lemma blocks_of_day_window SCHEDULE a :
  In a (blocks_of SCHEDULE) ->
  exists day, In day SCHEDULE /\
    ((b_start a = datetime (DeepWorkJan.day_date day) 8 0 /\
      b_end a = datetime (DeepWorkJan.day_date day) 10 0) \/
     (b_start a = datetime (DeepWorkJan.day_date day) 10 30 /\
      b_end a = datetime (DeepWorkJan.day_date day) 12 30)).
Proof.
  unfold blocks_of. intros H. apply in_flat_map in H.
  destruct H as [day [Hday Ha]]. exists day. split; [exact Hday|].
  destruct Ha as [<-|[<-|[]]]; simpl; auto.
Qed.

Section Apart.
Context {env : Env}.
Variable o : Z.
Hypothesis Hahead : london_ahead env o.
Hypothesis Ho : 0 <= o <= 60.

(** A block lists the event created for another one only when the windows
    meet once the created event is moved to UTC. *)
Lemma fresh_event_hits_ahead a b n :
  hits a (fresh_event b n) = true ->
  b_start a < b_end b - o /\ b_start b - o < b_end a.
Proof.
  unfold hits, hit, in_window, exact, fresh_event, stored, summary_of. simpl.
  rewrite !Hahead. intros H. apply andb_prop in H. destruct H as [Hw _].
  apply andb_prop in Hw. destruct Hw as [H1 H2].
  apply Z.ltb_lt in H1, H2. auto.
Qed.

(** In the order of the schedule, the event created for a block is not
    listed for any block after it. *)
Lemma blocks_of_apart SCHEDULE :
  NoDup (map DeepWorkJan.day_date SCHEDULE) ->
  ForallOrdPairs (fun a b => forall n, hits b (fresh_event a n) = false)
                 (blocks_of SCHEDULE).
Proof.
  induction SCHEDULE as [|d rest IH]; intros Hnd; [constructor|].
  inversion Hnd as [|? ? Hnotin Hnd']; subst.
  change (blocks_of (d :: rest)) with (blocks_of_day d ++ blocks_of rest).
  assert (Hfar : forall a c n, In a (blocks_of_day d) -> In c (blocks_of rest) ->
                               hits c (fresh_event a n) = false).
  { intros a c n Ha Hc.
    destruct (hits c (fresh_event a n)) eqn:E; [|reflexivity]. exfalso.
    apply fresh_event_hits_ahead in E.
    destruct (blocks_of_day_window rest c Hc) as [day [Hday Hwin]].
    assert (Hne : DeepWorkJan.day_date day <> DeepWorkJan.day_date d).
    { intros Heq. apply Hnotin. rewrite <- Heq. now apply in_map. }
    unfold datetime in Hwin.
    destruct Ha as [<-|[<-|[]]]; simpl in E; unfold datetime in E;
      destruct Hwin as [[Hs He]|[Hs He]]; rewrite Hs, He in E; lia. }
  simpl. constructor.
  - constructor.
    + intros n.
      match goal with |- hits ?b (fresh_event ?a n) = false =>
        destruct (hits b (fresh_event a n)) eqn:E; [|reflexivity] end.
      exfalso. apply fresh_event_hits_ahead in E. simpl in E.
      unfold datetime in E. lia.
    + apply Forall_forall. intros c Hc n. apply Hfar; [now left | exact Hc].
  - constructor; [|now apply IH].
    apply Forall_forall. intros c Hc n.
    apply Hfar; [right; now left | exact Hc].
Qed.

End Apart.

Section FirstRun.
Context {env : Env}.
Hypothesis Hsearch : search_complete env.

Lemma run_blocks_all_created bs :
  ForallOrdPairs (fun a b => forall n, hits b (fresh_event a n) = false) bs ->
  forall w,
    (forall b, In b bs -> target_of b (cal w) = None) ->
    cal (run_blocks bs w) = cal w ++ fresh_events bs (next_id w) /\
    trace (run_blocks bs w) = trace w ++ flat_map list_then_insert bs.
Proof.
  induction 1 as [|a rest Ha Hrest IH]; intros w Hnone; simpl.
  - now rewrite !app_nil_r.
  - assert (Hw1 : upsert_world a w
                  = created_world w (b_summary a) (b_start a) (b_end a) (b_desc a)).
    { unfold upsert_world. now rewrite (Hnone a (or_introl eq_refl)). }
    rewrite Hw1.
    destruct (IH (created_world w (b_summary a) (b_start a) (b_end a) (b_desc a)))
      as [Hcal Htrace].
    + intros b Hb. simpl. unfold target_of.
      rewrite (target_app_miss Hsearch); [apply (Hnone b); now right|].
      rewrite Forall_forall in Ha. exact (Ha b Hb (next_id w)).
    + rewrite Hcal, Htrace. simpl.
      rewrite <- !app_assoc. simpl. split; reflexivity.
Qed.

End FirstRun.

(** X6.  On a calendar where no block of the schedule finds a match, and
    for a schedule that names each date once, one run of the deep-work
    January script creates exactly one event per block, in the order of the
    schedule, each with the summary, times and description of its block: the
    calendar grows by two events per day and every block sends one list and
    one create.  This holds with a reliable service whose text filter loses
    no exact match, in winter and in summer time alike: London may be any
    fixed offset from 0 to 60 minutes ahead of UTC. *)
Theorem first_run_creates_each_block_once
    {env : Env} (o : Z)
    (SCHEDULE : list DeepWorkJan.day_info) (w0 : World) :
  reliable env -> search_complete env ->
  london_ahead env o -> 0 <= o <= 60 ->
  well_formed w0 ->
  NoDup (map DeepWorkJan.day_date SCHEDULE) ->
  (forall b, In b (blocks_of SCHEDULE) -> target_of b (cal w0) = None) ->
  exists w1,
    DeepWorkJan.main SCHEDULE w0 = (Ok tt, w1) /\
    cal w1 = cal w0 ++ fresh_events (blocks_of SCHEDULE) (next_id w0) /\
    List.length (cal w1) = (List.length (cal w0) + 2 * List.length SCHEDULE)%nat /\
    trace w1 = trace w0 ++ flat_map list_then_insert (blocks_of SCHEDULE).
Proof.
  intros Hrel Hsearch Hahead Ho Hwf Hnd Hnone.
  set (bs := blocks_of SCHEDULE) in *.
  destruct (run_blocks_all_created Hsearch bs
              (blocks_of_apart o Hahead Ho SCHEDULE Hnd) w0 Hnone)
    as [Hcal Htrace].
  exists (log_line (run_blocks bs w0) PrintedDone).
  split. { rewrite main_as_blocks. fold bs. unfold bind.
           now rewrite (run_blocks_ok Hrel bs w0 Hwf). }
  split; [exact Hcal|]. split; [|exact Htrace].
  change (cal (log_line (run_blocks bs w0) PrintedDone))
    with (cal (run_blocks bs w0)).
  rewrite Hcal, length_app. f_equal.
  assert (Hlen : forall l n, List.length (fresh_events l n) = List.length l).
  { induction l as [|b l IHl]; intros n; simpl; [reflexivity|]. now rewrite IHl. }
  rewrite Hlen. unfold bs, blocks_of.
  clear. induction SCHEDULE as [|d rest IH]; simpl; [reflexivity|].
  rewrite IH. lia.
Qed.

Lemma first_run_creates_each_block_once_witness :
  let env := summer never in
  exists w1,
    DeepWorkJan.main [day_a; day_b] empty_world = (Ok tt, w1) /\
    cal w1 = cal empty_world
             ++ fresh_events (blocks_of [day_a; day_b]) (next_id empty_world) /\
    List.length (cal w1)
      = (List.length (cal empty_world) + 2 * List.length [day_a; day_b])%nat /\
    trace w1 = trace empty_world
               ++ flat_map list_then_insert (blocks_of [day_a; day_b]).
Proof.
  intros env.
  apply (@first_run_creates_each_block_once env 60 [day_a; day_b] empty_world).
  - exact summer_reliable.
  - exact (summer_search_complete never).
  - exact (summer_ahead never).
  - lia.
  - exact winter_well_formed_empty.
  - change (NoDup [monday; monday + 1]).
    constructor; [intros [H|[]]; lia|].
    constructor; [intros [] | constructor].
  - intros b _. reflexivity.
Defined.

(** ** The January expansion, continued *)

Lemma spaced_app lo l1 mid l2 hi :
  spaced lo l1 mid -> spaced mid l2 hi -> spaced lo (l1 ++ l2) hi.
Proof.
  revert lo. induction l1 as [|ev l1 IH]; intros lo H1 H2; simpl in *.
  - destruct l2 as [|ev2 l2]; simpl in *; [lia|].
    destruct H2 as [Ha [Hb Hc]]. repeat split; auto; lia.
  - destruct H1 as [Ha [Hb Hc]]. repeat split; auto.
Qed.

Lemma weekday_focus_defined d :
  exists theme, JanuaryEvents.WEEKDAY_FOCUS (weekday d) = Some theme.
Proof.
  pose proof (weekday_range d) as Hr. unfold JanuaryEvents.WEEKDAY_FOCUS.
  destruct (weekday d =? 0) eqn:E0; [eauto|].
  destruct (weekday d =? 1) eqn:E1; [eauto|].
  destruct (weekday d =? 2) eqn:E2; [eauto|].
  destruct (weekday d =? 3) eqn:E3; [eauto|].
  destruct (weekday d =? 4) eqn:E4; [eauto|].
  destruct (weekday d =? 5) eqn:E5; [eauto|].
  destruct (weekday d =? 6) eqn:E6; [eauto|].
  apply Z.eqb_neq in E0, E1, E2, E3, E4, E5, E6. lia.
Qed.

(** One day of the expansion: the theme at midnight, then the day's events,
    none overlapping, all within the day. *)
Lemma spaced_day d wd theme :
  spaced (JanuaryEvents.dt d 0 0)
    ({| JanuaryEvents.ed_summary := theme;
        JanuaryEvents.ed_start := JanuaryEvents.dt d 0 0;
        JanuaryEvents.ed_end := JanuaryEvents.dt d 0 15;
        JanuaryEvents.ed_description := String.append "Daily Theme: " theme |}
     :: JanuaryEvents.weekday_schedule d wd)
    (JanuaryEvents.dt (d + 1) 0 0).
Proof.
  unfold JanuaryEvents.weekday_schedule.
  destruct ((0 <=? wd) && (wd <=? 4)); [|destruct (wd =? 5)];
    simpl; unfold JanuaryEvents.dt, datetime; repeat split; lia.
Qed.

Section ExpansionShape.
Context {env : Env}.
Import JanuaryEvents.

Lemma build_all_events_spaced fuel :
  forall s e acc w all w' lo,
    build_all_events fuel s e acc w = Some (Ok all, w') ->
    spaced lo acc (dt s 0 0) ->
    spaced lo all (dt (Z.max s (e + 1)) 0 0).
Proof.
  induction fuel as [|fuel IH]; intros s e acc w all w' lo H Hacc; [discriminate|].
  simpl in H. destruct (s <=? e) eqn:Hle.
  - apply Z.leb_le in Hle.
    destruct (WEEKDAY_FOCUS (weekday s)) as [theme|]; [|discriminate].
    unfold date_add in H.
    destruct ((MINORDINAL <=? s + 1) && (s + 1 <=? MAXORDINAL));
      [|discriminate].
    unfold ret in H. eapply IH in H.
    + replace (Z.max s (e + 1)) with (Z.max (s + 1) (e + 1)) by lia. exact H.
    + eapply spaced_app; [exact Hacc | apply spaced_day].
  - apply Z.leb_gt in Hle. inversion H; subst.
    replace (Z.max s (e + 1)) with s by lia. exact Hacc.
Qed.

Lemma build_all_events_returns fuel :
  forall s e acc w,
    0 <= s -> e < MAXORDINAL ->
    (Z.to_nat (e - s + 1) < fuel)%nat ->
    exists all, build_all_events fuel s e acc w = Some (Ok all, w).
Proof.
  induction fuel as [|fuel IH]; intros s e acc w Hs He Hf; [lia|].
  simpl. destruct (s <=? e) eqn:Hle; [|eauto].
  apply Z.leb_le in Hle.
  destruct (weekday_focus_defined s) as [theme ->].
  unfold date_add.
  replace ((MINORDINAL <=? s + 1) && (s + 1 <=? MAXORDINAL)) with true.
  - unfold ret. apply IH; lia.
  - symmetry. apply andb_true_iff. unfold MINORDINAL.
    split; apply Z.leb_le; lia.
Qed.

Lemma build_all_events_overflows fuel :
  forall s acc w,
    0 <= s <= MAXORDINAL ->
    (Z.to_nat (MAXORDINAL - s + 1) < fuel)%nat ->
    build_all_events fuel s MAXORDINAL acc w = Some (Raise OverflowError, w).
Proof.
  induction fuel as [|fuel IH]; intros s acc w Hs Hf; [lia|].
  simpl. replace (s <=? MAXORDINAL) with true by (symmetry; apply Z.leb_le; lia).
  destruct (weekday_focus_defined s) as [theme ->].
  unfold date_add.
  destruct ((MINORDINAL <=? s + 1) && (s + 1 <=? MAXORDINAL)) eqn:E.
  - apply andb_true_iff in E. destruct E as [_ E]. apply Z.leb_le in E.
    unfold ret. apply IH; lia.
  - reflexivity.
Qed.

(** X7.  For a range of dates below [date.max] the expansion returns
    normally, leaves the world alone, and its events come in order without
    overlap: each lasts a positive time, starts no earlier than the one
    before ends, and all lie between midnight of the first date and midnight
    after the last. *)
Theorem expansion_is_ordered_without_overlap
    (start_date end_date : Z) (fuel : nat) (w : World) :
  0 <= start_date -> end_date < MAXORDINAL ->
  (Z.to_nat (end_date - start_date + 1) < fuel)%nat ->
  exists all_events,
    build_all_events fuel start_date end_date [] w = Some (Ok all_events, w) /\
    spaced (dt start_date 0 0) all_events
           (dt (Z.max start_date (end_date + 1)) 0 0).
Proof.
  intros Hs He Hf.
  destruct (build_all_events_returns fuel start_date end_date [] w Hs He Hf)
    as [all H].
  exists all. split; [exact H|].
  eapply build_all_events_spaced; [exact H|]. simpl. lia.
Qed.

(** X8.  A range that ends on [date.max] cannot be expanded: stepping past
    the last date raises [OverflowError], after every day has been expanded
    and before anything is sent, so [main] ends with that error and the
    world untouched. *)
Theorem expansion_to_date_max_overflows
    (start_date : Z) (fuel : nat) (w : World) :
  0 <= start_date <= MAXORDINAL ->
  (Z.to_nat (MAXORDINAL - start_date + 1) < fuel)%nat ->
  build_all_events fuel start_date MAXORDINAL [] w
    = Some (Raise OverflowError, w) /\
  main fuel start_date MAXORDINAL w = Some (Raise OverflowError, w).
Proof.
  intros Hs Hf.
  pose proof (build_all_events_overflows fuel start_date [] w Hs Hf) as H.
  split; [exact H|]. unfold main. now rewrite H.
Qed.

Lemma build_all_events_any_world fuel :
  forall s e acc w r w' w2,
    build_all_events fuel s e acc w = Some (r, w') ->
    build_all_events fuel s e acc w2 = Some (r, w2).
Proof.
  induction fuel as [|fuel IH]; intros s e acc w r w' w2 H; [discriminate|].
  simpl in *. destruct (s <=? e).
  - destruct (WEEKDAY_FOCUS (weekday s)) as [theme|].
    + destruct (date_add_pure s 1) as [x Hx].
      rewrite (Hx w) in H. rewrite (Hx w2).
      destruct x as [s'|err]; [eapply IH; exact H|].
      inversion H; reflexivity.
    + inversion H; reflexivity.
  - inversion H; reflexivity.
Qed.

Lemma insert_all_world all_events :
  reliable env ->
  forall w, exists w',
    for_each all_events add_event_to_google_calendar w = (Ok tt, w') /\
    cal w' = cal w ++ stored_all all_events (next_id w) /\
    next_id w' = (next_id w + List.length all_events)%nat /\
    trace w' = trace w ++ map insert_of all_events.
Proof.
  intros Hrel. induction all_events as [|ev rest IH]; intros w; simpl.
  - exists w. rewrite !app_nil_r, Nat.add_0_r. auto.
  - unfold bind. rewrite add_event_to_google_calendar_unfold, Hrel.
    match goal with |- context [for_each rest _ ?w1] =>
      destruct (IH w1) as [w' [Hrun [Hcal [Hnext Htr]]]] end.
    exists w'. split; [exact Hrun|]. rewrite Hcal, Hnext, Htr. simpl.
    rewrite <- !app_assoc. simpl. repeat split; auto; lia.
Qed.

Lemma stored_all_content all_events :
  forall n m, map content (stored_all all_events n)
              = map content (stored_all all_events m).
Proof.
  induction all_events as [|ev rest IH]; intros n m; simpl; [reflexivity|].
  f_equal. apply IH.
Qed.

(** X9.  [add_january_events] only creates.  With a reliable service a run
    sends one insert per expanded event and nothing else, and appends these
    events to the calendar; it never looks at what is there, so a second run
    appends every event once more, with the same content under new ids. *)
Theorem january_rerun_duplicates
    (start_date end_date : Z) (fuel : nat) (w0 : World)
    (all_events : list event_data) :
  reliable env ->
  build_all_events fuel start_date end_date [] w0 = Some (Ok all_events, w0) ->
  exists w1 w2,
    main fuel start_date end_date w0 = Some (Ok tt, w1) /\
    main fuel start_date end_date w1 = Some (Ok tt, w2) /\
    trace w1 = trace w0 ++ map insert_of all_events /\
    trace w2 = trace w1 ++ map insert_of all_events /\
    cal w1 = cal w0 ++ stored_all all_events (next_id w0) /\
    cal w2 = cal w1 ++ stored_all all_events (next_id w1) /\
    map content (stored_all all_events (next_id w1))
      = map content (stored_all all_events (next_id w0)) /\
    List.length (cal w2)
      = (List.length (cal w0) + 2 * List.length all_events)%nat.
Proof.
  intros Hrel H.
  destruct (insert_all_world all_events Hrel w0) as [r1 [Hrun1 [Hcal1 [Hn1 Ht1]]]].
  set (w1 := log_line r1 PrintedDone).
  pose proof (build_all_events_any_world fuel _ _ _ _ _ _ w1 H) as H'.
  destruct (insert_all_world all_events Hrel w1) as [r2 [Hrun2 [Hcal2 [Hn2 Ht2]]]].
  exists w1, (log_line r2 PrintedDone).
  split. { unfold main. rewrite H. unfold bind. now rewrite Hrun1. }
  split. { unfold main. rewrite H'. unfold bind. now rewrite Hrun2. }
  split; [exact Ht1|]. split; [exact Ht2|].
  split; [exact Hcal1|]. split; [exact Hcal2|].
  split; [apply stored_all_content|].
  change (cal (log_line r2 PrintedDone)) with (cal r2).
  rewrite Hcal2. change (cal w1) with (cal r1). rewrite Hcal1.
  rewrite !length_app.
  assert (Hlen : forall l n, List.length (stored_all l n) = List.length l).
  { induction l as [|x l IHl]; intros n; simpl; [reflexivity|]. now rewrite IHl. }
  rewrite !Hlen. lia.
Qed.

End ExpansionShape.

Lemma expansion_is_ordered_without_overlap_witness :
  exists all_events,
    JanuaryEvents.build_all_events 32 (date 2025 1 1) (date 2025 1 31) []
      empty_world = Some (Ok all_events, empty_world) /\
    spaced (JanuaryEvents.dt (date 2025 1 1) 0 0) all_events
           (JanuaryEvents.dt (Z.max (date 2025 1 1) (date 2025 1 31 + 1)) 0 0).
Proof.
  apply (expansion_is_ordered_without_overlap (date 2025 1 1)
           (date 2025 1 31) 32 empty_world).
  - apply Z.leb_le. vm_compute. reflexivity.
  - apply Z.ltb_lt. vm_compute. reflexivity.
  - vm_compute. lia.
Defined.

Lemma expansion_to_date_max_overflows_witness :
  let env := winter never in
  JanuaryEvents.build_all_events 5 (MAXORDINAL - 2) MAXORDINAL [] empty_world
    = Some (Raise OverflowError, empty_world) /\
  JanuaryEvents.main 5 (MAXORDINAL - 2) MAXORDINAL empty_world
    = Some (Raise OverflowError, empty_world).
Proof.
  intros env.
  apply (@expansion_to_date_max_overflows env (MAXORDINAL - 2) 5 empty_world).
  - unfold MAXORDINAL. lia.
  - vm_compute. lia.
Defined.

Lemma january_rerun_duplicates_witness :
  let env := winter never in
  exists w1 w2,
    JanuaryEvents.main 5 saturday monday empty_world = Some (Ok tt, w1) /\
    JanuaryEvents.main 5 saturday monday w1 = Some (Ok tt, w2) /\
    trace w1 = trace empty_world ++ map insert_of long_weekend /\
    trace w2 = trace w1 ++ map insert_of long_weekend /\
    cal w1 = cal empty_world ++ stored_all long_weekend (next_id empty_world) /\
    cal w2 = cal w1 ++ stored_all long_weekend (next_id w1) /\
    map content (stored_all long_weekend (next_id w1))
      = map content (stored_all long_weekend (next_id empty_world)) /\
    List.length (cal w2)
      = (List.length (cal empty_world) + 2 * List.length long_weekend)%nat.
Proof.
  intros env.
  apply (@january_rerun_duplicates env saturday monday 5 empty_world
           long_weekend).
  - exact winter_reliable.
  - vm_compute. reflexivity.
Defined.

(** ** The three-week plan starts tomorrow *)

Section Tomorrow.
Context {env : Env}.
Import ThreeWeekPlan.

(** X10.  Whenever [main] of the three-week plan returns, the plan items it
    has handled were given pairwise distinct Monday-to-Friday dates all
    strictly after today, today itself never being used even when it is a
    business day; [All ... done] is printed only after a normal end of the
    loop.  When today is [date.max] the script ends with [OverflowError]
    before any request. *)
Theorem three_week_plan_starts_after_today
    (PLAN : list plan_item) (today : Z) (fuel : nat) (w w' : World)
    (r : res unit) :
  main fuel PLAN today w = Some (r, w') ->
  (exists dates,
      Forall (fun d => today < d /\ weekday d < 5) dates /\
      NoDup dates /\
      trace w' = trace (snd (schedule_days PLAN dates w)) /\
      cal w' = cal (snd (schedule_days PLAN dates w)) /\
      (r = Ok tt ->
       List.length dates = List.length PLAN /\
       out w' = out (snd (schedule_days PLAN dates w)) ++ [PrintedDone]) /\
      (r <> Ok tt -> out w' = out (snd (schedule_days PLAN dates w)))) /\
  (today = MAXORDINAL -> r = Raise OverflowError /\ w' = w).
Proof.
  unfold main, date_add. intros H.
  destruct ((MINORDINAL <=? today + 1) && (today + 1 <=? MAXORDINAL)) eqn:E.
  - unfold ret in H. split.
    + destruct (while_loop fuel PLAN 0 (today + 1) w) as [[r0 w1]|] eqn:Hloop;
        [|discriminate].
      pose proof (while_loop_dates fuel PLAN 0%nat (today + 1) w r0 w1 Hloop)
        as [dates [Hc [_ [Hsnd Hok]]]].
      simpl in Hsnd, Hok. rewrite Nat.sub_0_r in Hok.
      exists dates.
      split.
      { apply Forall_forall. intros d Hd.
        pose proof (chain_lower_bound _ _ Hc) as Hlo.
        pose proof (chain_weekdays _ _ Hc) as Hwd.
        rewrite Forall_forall in Hlo, Hwd.
        specialize (Hlo d Hd). specialize (Hwd d Hd). simpl in *. lia. }
      split; [eapply chain_NoDup; exact Hc|].
      rewrite Hsnd.
      destruct r0 as [[]|err].
      * inversion H; subst. simpl.
        split; [reflexivity|]. split; [reflexivity|]. split.
        -- intros _. split; [now destruct (Hok eq_refl) | reflexivity].
        -- intros Hne. now destruct Hne.
      * inversion H; subst.
        split; [reflexivity|]. split; [reflexivity|]. split.
        -- discriminate.
        -- reflexivity.
    + intros ->. apply andb_true_iff in E. destruct E as [_ E].
      apply Z.leb_le in E. lia.
  - unfold raise in H. inversion H; subst. split; [|auto].
    exists []. rewrite schedule_days_nil. simpl.
    split; [constructor|]. split; [constructor|].
    split; [reflexivity|]. split; [reflexivity|]. split.
    + discriminate.
    + reflexivity.
Qed.

End Tomorrow.

Lemma three_week_plan_starts_after_today_witness :
  let env := winter never in
  let today := date 2025 1 3 in
  let w' := world_of (ThreeWeekPlan.main 10 plan3 today empty_world) in
  (exists dates,
      Forall (fun d => today < d /\ weekday d < 5) dates /\
      NoDup dates /\
      trace w' = trace (snd (schedule_days plan3 dates empty_world)) /\
      cal w' = cal (snd (schedule_days plan3 dates empty_world)) /\
      (Ok tt = Ok tt ->
       List.length dates = List.length plan3 /\
       out w' = out (snd (schedule_days plan3 dates empty_world))
                ++ [PrintedDone]) /\
      (Ok tt <> Ok tt ->
       out w' = out (snd (schedule_days plan3 dates empty_world)))) /\
  (today = MAXORDINAL -> Ok tt = Raise OverflowError /\ w' = empty_world).
Proof.
  intros env today w'.
  apply (@three_week_plan_starts_after_today env plan3 today 10 empty_world).
  vm_compute. reflexivity.
Defined.

(** ** A week of the marketing plan *)

Section Week.
Context {env : Env}.
Hypothesis Hrel : reliable env.

Lemma no_insert_among_deletes (l : list event) :
  filter is_insert (map (fun x => CDelete (ev_id x)) l) = [].
Proof. induction l as [|x l IHl]; simpl; auto. Qed.

Lemma replace_slot_keeps_wf s e d w :
  well_formed w -> well_formed (snd (replace_slot s e d w)).
Proof.
  intros [Hnd Hlt]. rewrite replace_slot_ok by assumption.
  split; simpl.
  - rewrite map_app. simpl. apply NoDup_app.
    + now apply filter_keeps_ids_unique.
    + repeat constructor; simpl; tauto.
    + intros i Hi [<-|[]]. apply in_map_iff in Hi.
      destruct Hi as [z [Hid Hz]]. apply filter_In in Hz.
      rewrite Forall_forall in Hlt. specialize (Hlt _ (proj1 Hz)). lia.
  - apply Forall_app. split.
    + apply Forall_forall. intros z Hz. apply filter_In in Hz.
      rewrite Forall_forall in Hlt. specialize (Hlt _ (proj1 Hz)). lia.
    + repeat constructor.
Qed.

(** The creates of a run of slots: one per slot, in order. *)
Lemma replace_all_inserts slots :
  forall w, well_formed w ->
  exists w',
    for_each slots replace w = (Ok tt, w') /\
    filter is_insert (trace w')
    = filter is_insert (trace w) ++ map slot_insert slots.
Proof.
  induction slots as [|sl rest IH]; intros w Hwf.
  - exists w. simpl. now rewrite app_nil_r.
  - pose proof (replace_slot_keeps_wf (slot_start sl) (slot_end sl)
                  (slot_desc sl) w Hwf) as Hwf1.
    simpl for_each. unfold bind. unfold replace at 1.
    rewrite replace_slot_ok in Hwf1 |- * by (auto; apply Hwf).
    simpl in Hwf1.
    destruct (IH _ Hwf1) as [w' [Hrun Htr]].
    exists w'. split; [exact Hrun|].
    rewrite Htr. simpl trace.
    rewrite filter_app. simpl. rewrite filter_app, no_insert_among_deletes.
    simpl. now rewrite <- app_assoc.
Qed.

Lemma five_days_in_a_row (d : Z) :
  (forall p, In p MarketingQ1.weekday_names -> weekday (d + fst p) < 5) <->
  weekday d = 0.
Proof.
  unfold MarketingQ1.weekday_names, weekday. split.
  - intros H.
    pose proof (H (0, "Mon") (or_introl eq_refl)) as H0.
    pose proof (H (1, "Tue") (or_intror (or_introl eq_refl))) as H1.
    pose proof (H (2, "Wed") (or_intror (or_intror (or_introl eq_refl)))) as H2.
    pose proof (H (3, "Thu")
                  (or_intror (or_intror (or_intror (or_introl eq_refl))))) as H3.
    pose proof (H (4, "Fri")
                  (or_intror (or_intror (or_intror (or_intror
                     (or_introl eq_refl)))))) as H4.
    simpl fst in *. clear H.
    revert H0 H1 H2 H3 H4. Z.div_mod_to_equations. lia.
  - intros H p Hp. simpl in Hp.
    repeat (destruct Hp as [<-|Hp];
            [simpl fst; revert H; Z.div_mod_to_equations; lia|]).
    destruct Hp.
Qed.

(** X11.  One week of the marketing plan, with a reliable service and dates
    that exist: [process_week] ends normally and sends exactly five creates,
    for the start date and the four days after it, 16:00 to 18:00, labelled
    Mon to Fri by position and described from the [days] dict with the
    default text for a missing key.  The weekday of the start date is never
    looked at: the five days are all Monday to Friday only when the week
    starts on a Monday. *)
Theorem week_creates_five_days_from_start
    (wk : MarketingQ1.week_data) (w : World) :
  well_formed w ->
  MINORDINAL <= MarketingQ1.start_date wk ->
  MarketingQ1.start_date wk + 4 <= MAXORDINAL ->
  exists w',
    MarketingQ1.process_week wk w = (Ok tt, w') /\
    filter is_insert (trace w')
    = filter is_insert (trace w)
      ++ map (fun p : Z * string =>
                let current_date := MarketingQ1.start_date wk + fst p in
                CInsert
                  (london_body "Marketing & Outreach"
                     (datetime current_date 16 0) (datetime current_date 18 0)
                     (MarketingQ1.describe (MarketingQ1.focus wk) (snd p)
                        (MarketingQ1.dict_get (MarketingQ1.days wk) (snd p)
                           "No tasks specified."))))
             [(0, "Mon"); (1, "Tue"); (2, "Wed"); (3, "Thu"); (4, "Fri")] /\
    ((forall p, In p MarketingQ1.weekday_names ->
                weekday (MarketingQ1.start_date wk + fst p) < 5) <->
     weekday (MarketingQ1.start_date wk) = 0).
Proof.
  intros Hwf Hlo Hhi.
  destruct (replace_all_inserts (slots_of_week wk) w Hwf) as [w' [Hrun Htr]].
  exists w'. split.
  - rewrite process_week_as_slots by (split; assumption). exact Hrun.
  - split; [exact Htr | apply five_days_in_a_row].
Qed.

End Week.

Lemma week_creates_five_days_from_start_witness :
  let env := winter never in
  exists w',
    MarketingQ1.process_week week_one stale_world = (Ok tt, w') /\
    filter is_insert (trace w')
    = filter is_insert (trace stale_world)
      ++ map (fun p : Z * string =>
                let current_date := MarketingQ1.start_date week_one + fst p in
                CInsert
                  (london_body "Marketing & Outreach"
                     (datetime current_date 16 0) (datetime current_date 18 0)
                     (MarketingQ1.describe (MarketingQ1.focus week_one) (snd p)
                        (MarketingQ1.dict_get (MarketingQ1.days week_one)
                           (snd p) "No tasks specified."))))
             [(0, "Mon"); (1, "Tue"); (2, "Wed"); (3, "Thu"); (4, "Fri")] /\
    ((forall p, In p MarketingQ1.weekday_names ->
                weekday (MarketingQ1.start_date week_one + fst p) < 5) <->
     weekday (MarketingQ1.start_date week_one) = 0).
Proof.
  intros env.
  apply (@week_creates_five_days_from_start env winter_reliable week_one
           stale_world).
  - split; [exact stale_world_ids | repeat constructor].
  - vm_compute. discriminate.
  - vm_compute. discriminate.
Defined.

(** ** The last slot of a window wins *)

Section LastWins.
Context {env : Env}.
Hypothesis Hrel : reliable env.
Hypothesis Hsearch : search_complete env.
Hypothesis Hlower : lowers_title env.
Hypothesis Hutc : london_on_utc env.

Lemma same_window_sym a b : same_window a b = same_window b a.
Proof.
  unfold same_window.
  now rewrite (Z.eqb_sym (slot_start a)), (Z.eqb_sym (slot_end a)).
Qed.

Lemma filter_nil_of_length {A} (p : A -> bool) (l : list A) :
  List.length (filter p l) = 0%nat -> filter p l = [].
Proof. destruct (filter p l); [reflexivity | discriminate]. Qed.

(** Of the events a run creates, the one a slot finds at the end is its own
    when no later slot has its window. *)
Lemma created_last_wins L before sl after :
  slot_grid L -> incl (before ++ sl :: after) L ->
  existsb (same_window sl) after = false ->
  forall n,
    filter (slot_hit sl) (created (before ++ sl :: after) n)
    = [slot_event sl (n + List.length before)].
Proof.
  intros Hg Hincl Hlast.
  assert (Hsl : In sl L) by (apply Hincl, in_elt).
  induction before as [|b before IH]; intros n.
  - assert (Hafter : incl after L).
    { intros z Hz. apply Hincl. simpl. now right. }
    simpl app. simpl created.
    rewrite (hit_any_same_window Hutc L after sl n Hg Hafter Hsl).
    assert (Hnone : existsb (fun c => same_window c sl) after = false).
    { rewrite <- Hlast. clear. induction after as [|c l IHl]; simpl;
        [reflexivity|]. now rewrite IHl, same_window_sym. }
    rewrite Hnone. simpl.
    rewrite (slot_event_hits_itself Hutc sl n (proj1 Hg sl Hsl)).
    rewrite filter_nil_of_length.
    + now rewrite Nat.add_0_r.
    + rewrite (created_count Hutc L after sl Hg Hafter Hsl (S n)).
      now rewrite Hlast.
  - assert (Hincl' : incl (before ++ sl :: after) L).
    { intros z Hz. apply Hincl. simpl. now right. }
    simpl app. simpl created. rewrite filter_app, (IH Hincl' (S n)).
    simpl List.length. rewrite Nat.add_succ_r.
    destruct (hit_any (before ++ sl :: after) (slot_event b n)) eqn:Hany;
      simpl; [reflexivity|].
    destruct (slot_hit sl (slot_event b n)) eqn:Hhit; [|reflexivity].
    exfalso.
    assert (Ht : hit_any (before ++ sl :: after) (slot_event b n) = true).
    { apply hit_any_true. exists sl. split; [apply in_elt | exact Hhit]. }
    congruence.
Qed.

(** X12.  After one run of the marketing script with a reliable service, a
    slot of the plan that no later slot shares its window with finds exactly
    one event with the title in its window: the one created for it, with its
    own description.  When two weeks of the plan cover the same day, the
    later week's event is the one that stays. *)
Theorem last_slot_of_a_window_wins
    (WEEKS : list MarketingQ1.week_data) (w : World)
    (before after : list slot) (sl : slot) :
  well_formed w -> weeks_in_range WEEKS ->
  slots_of WEEKS = before ++ sl :: after ->
  existsb (same_window sl) after = false ->
  exists w' x,
    MarketingQ1.main WEEKS w = (Ok tt, w') /\
    filter (slot_hit sl) (cal w') = [x] /\
    x = slot_event sl (next_id w + List.length before) /\
    ev_description x = Some (slot_desc sl).
Proof.
  intros Hwf Hrange Hsplit Hlast.
  pose proof (slots_of_grid WEEKS) as Hg.
  destruct (replace_all_ok Hrel Hsearch Hlower (slots_of WEEKS) w Hwf)
    as [w1 [Hrun [Hcal _]]].
  exists (log_line w1 PrintedDone),
         (slot_event sl (next_id w + List.length before)).
  split. { rewrite main_as_slots by assumption. unfold bind.
           now rewrite Hrun. }
  split; [|split; reflexivity].
  change (cal (log_line w1 PrintedDone)) with (cal w1).
  rewrite Hcal, filter_app, filter_filter.
  assert (Hin : In sl (slots_of WEEKS)) by (rewrite Hsplit; apply in_elt).
  rewrite filter_nil_iff.
  - simpl. rewrite Hsplit.
    apply (created_last_wins (slots_of WEEKS)); auto.
    rewrite Hsplit. apply incl_refl.
  - intros x _. destruct (slot_hit sl x) eqn:E; [|apply andb_false_r].
    assert (Hany : hit_any (slots_of WEEKS) x = true).
    { apply hit_any_true. eauto. }
    now rewrite Hany.
Qed.

End LastWins.

Lemma last_slot_of_a_window_wins_witness :
  let env := winter never in
  exists w' x,
    MarketingQ1.main [week_one; week_mid] empty_world = (Ok tt, w') /\
    filter (slot_hit wednesday_again) (cal w') = [x] /\
    x = slot_event wednesday_again
          (next_id empty_world + List.length (slots_of_week week_one)) /\
    ev_description x = Some (slot_desc wednesday_again).
Proof.
  intros env.
  apply (@last_slot_of_a_window_wins env winter_reliable
           (winter_search_complete never) (winter_lowers_title never)
           (winter_on_utc never) [week_one; week_mid] empty_world
           (slots_of_week week_one) (tl (slots_of_week week_mid))
           wednesday_again).
  - exact winter_well_formed_empty.
  - repeat constructor; vm_compute; discriminate.
  - reflexivity.
  - vm_compute. reflexivity.
Defined.
